(** * Azure Artifact Studio: the tool-call orchestrator and its file routes

    A shallow embedding of
      - the storage helpers of [src/lib/fsUtils.ts],
      - the document encoder of [src/lib/documentFactory.ts],
      - the shared types and the attachment classifier ([@/lib/types],
        [@/lib/fileClassification]),
      - the chat route: [POST], [runResponsesCall], [handleToolCalls] and
        the two tool executors (second part of [src/lib/fsUtils.ts]),
      - the download route of [src/app/api/generated/[file]/route.ts],
      - the upload route of [src/app/api/upload/route.ts], the request
        schema of the chat route and the submit handler of the page,
    followed by the properties the specification states about them and by
    further properties of the same code.

    JavaScript strings are sequences of UTF-16 code units; they are modelled
    as [list N], so that [length], [slice], the regular expressions and the
    UTF-8 encoder see exactly the units the runtime sees.  The file system
    is a blob store from normalised paths to bytes, on which writing always
    succeeds and reading fails exactly on an absent key; paths follow the
    POSIX flavour of [node:path]. *)

From Stdlib Require Import NArith ZArith Ascii String Lia.
From stdpp Require Import base option list gmap.

Local Open Scope N_scope.
Local Open Scope list_scope.

(* ===================================================================== *)
(** ** JavaScript strings *)
(* ===================================================================== *)

Abbreviation jschar := N (only parsing).
Abbreviation jsstring := (list N) (only parsing).

(** A source literal, one code unit per ASCII character. *)
Fixpoint js (s : string) : jsstring :=
  match s with
  | EmptyString => []
  | String a s' => N_of_ascii a :: js s'
  end.

Definition jschar_eqb (a b : jschar) : bool := N.eqb a b.

Fixpoint jsstring_eqb (a b : jsstring) : bool :=
  match a, b with
  | [], [] => true
  | x :: a', y :: b' => jschar_eqb x y && jsstring_eqb a' b'
  | _, _ => false
  end.

(** [s.startsWith(p)] *)
Fixpoint startsWith (s p : jsstring) : bool :=
  match p, s with
  | [], _ => true
  | y :: p', x :: s' => jschar_eqb x y && startsWith s' p'
  | _ :: _, [] => false
  end.

(** [s.endsWith(p)] *)
Definition endsWith (s p : jsstring) : bool :=
  startsWith (rev s) (rev p).

(** [parts.join(sep)] *)
Fixpoint join (sep : jsstring) (parts : list jsstring) : jsstring :=
  match parts with
  | [] => []
  | [p] => p
  | p :: rest => p ++ sep ++ join sep rest
  end.

(** [s.includes(t)]: [t] occurs in [s] as a contiguous run. *)
Definition includes (s t : jsstring) : Prop :=
  exists pre post, s = pre ++ t ++ post.

Fixpoint includesb (s t : jsstring) : bool :=
  startsWith s t ||
  match s with
  | [] => false
  | _ :: s' => includesb s' t
  end.

(** JavaScript truthiness of a string: only the empty string is falsy. *)
Definition truthy (s : jsstring) : bool :=
  match s with [] => false | _ => true end.

(** Named code units. *)
Definition ch_tab : jschar := 9.
Definition ch_lf : jschar := 10.
Definition ch_cr : jschar := 13.
Definition ch_space : jschar := 32.
Definition ch_dquote : jschar := 34.
Definition ch_hyphen : jschar := 45.
Definition ch_dot : jschar := 46.
Definition ch_slash : jschar := 47.
Definition ch_backslash : jschar := 92.
Definition ch_underscore : jschar := 95.

Definition in_range (lo hi c : jschar) : bool := (lo <=? c) && (c <=? hi).

Definition is_digit (c : jschar) : bool := in_range 48 57 c.
Definition is_upper (c : jschar) : bool := in_range 65 90 c.
Definition is_lower (c : jschar) : bool := in_range 97 122 c.

(** [s.toLowerCase()] restricted to the ASCII letters.  The only use is the
    lookup of a file extension in [MIME_MAP], whose keys are ASCII and
    contain none of the letters that a non-ASCII unit lower-cases to. *)
Definition toLowerCase (s : jsstring) : jsstring :=
  map (fun c => if is_upper c then c + 32 else c) s.

(** White space and line terminators removed by [String.prototype.trim]. *)
Definition is_js_space (c : jschar) : bool :=
  in_range 9 13 c || (c =? 32) || (c =? 160) || (c =? 5760) ||
  in_range 8192 8202 c || (c =? 8232) || (c =? 8233) || (c =? 8239) ||
  (c =? 8287) || (c =? 12288) || (c =? 65279).

Fixpoint trimStart (s : jsstring) : jsstring :=
  match s with
  | c :: s' => if is_js_space c then trimStart s' else s
  | [] => []
  end.

Definition trim (s : jsstring) : jsstring :=
  rev (trimStart (rev (trimStart s))).

(* ===================================================================== *)
(** ** Regular expressions

    The three expressions of the sources are sequences of anchors, single
    character classes and greedy one-or-more repetitions of a class.  The
    matcher below is the backtracking matcher of the language for that
    fragment: leftmost match, greedy repetition, no flags but [g]. *)
(* ===================================================================== *)

Inductive atom : Type :=
  | Bol                               (* ^ *)
  | Eol                               (* $ *)
  | One (p : jschar -> bool)          (* a class, once *)
  | Many1 (p : jschar -> bool).       (* a class, one or more times, greedy *)

Definition regex := list atom.

(** Greedy [p+] followed by the continuation [k]: take as many units as
    possible, give back one at a time until [k] succeeds. *)
Fixpoint many1 (p : jschar -> bool) (k : jsstring -> option jsstring)
    (s : jsstring) : option jsstring :=
  match s with
  | [] => None
  | c :: s' =>
      if p c then
        match many1 p k s' with
        | Some r => Some r
        | None => k s'
        end
      else None
  end.

(** Match [re] at the head of [s]; [bos] tells whether [s] starts at the
    beginning of the subject.  Returns what is left after the match. *)
Fixpoint match_here (re : regex) (bos : bool) (s : jsstring) : option jsstring :=
  match re with
  | [] => Some s
  | Bol :: re' => if bos then match_here re' bos s else None
  | Eol :: re' => match s with [] => match_here re' bos s | _ :: _ => None end
  | One p :: re' =>
      match s with
      | c :: s' => if p c then match_here re' false s' else None
      | [] => None
      end
  | Many1 p :: re' => many1 p (match_here re' false) s
  end.

(** Leftmost match: the text before it and the text after it. *)
Fixpoint search (re : regex) (bos : bool) (s : jsstring)
    : option (jsstring * jsstring) :=
  match match_here re bos s with
  | Some r => Some ([], r)
  | None =>
      match s with
      | [] => None
      | c :: s' =>
          match search re false s' with
          | Some (pre, r) => Some (c :: pre, r)
          | None => None
          end
      end
  end.

(** [s.replace(re, repl)] without the [g] flag ([repl] holds no [$]). *)
Definition replace_first (re : regex) (repl s : jsstring) : jsstring :=
  match search re true s with
  | Some (pre, post) => pre ++ repl ++ post
  | None => s
  end.

(** [s.replace(re, repl)] with the [g] flag.  [skip] counts the units of
    the current match still to be passed over. *)
Fixpoint replace_go (re : regex) (repl : jsstring) (bos : bool) (skip : nat)
    (s : jsstring) : jsstring :=
  match s with
  | [] =>
      match skip, match_here re bos [] with
      | O, Some _ => repl
      | _, _ => []
      end
  | c :: s' =>
      match skip with
      | S k => replace_go re repl false k s'
      | O =>
          match match_here re bos s with
          | Some r =>
              if (length r <? length s)%nat
              then repl ++ replace_go re repl false (length s - length r - 1) s'
              else repl ++ c :: replace_go re repl false 0 s'
          | None => c :: replace_go re repl false 0 s'
          end
      end
  end.

Definition replace_all (re : regex) (repl s : jsstring) : jsstring :=
  replace_go re repl true 0 s.

(** [s.split(re)]: the pieces between the matches of [re].  [acc] is the
    current piece, reversed; an empty match splits only inside a piece; the
    last piece is always pushed. *)
Fixpoint split_go (re : regex) (acc : jsstring) (skip : nat) (s : jsstring)
    : list jsstring :=
  match s with
  | [] => [rev acc]
  | c :: s' =>
      match skip with
      | S k => split_go re acc k s'
      | O =>
          match match_here re false s with
          | Some r =>
              if (length r <? length s)%nat
              then rev acc :: split_go re [] (length s - length r - 1) s'
              else
                match acc with
                | [] => split_go re [c] 0 s'
                | _ :: _ => rev acc :: split_go re [c] 0 s'
                end
          | None => split_go re (c :: acc) 0 s'
          end
      end
  end.

Definition split (re : regex) (s : jsstring) : list jsstring :=
  split_go re [] 0 s.

Definition is_char (c : jschar) : jschar -> bool := fun x => jschar_eqb x c.
Definition not_char (c : jschar) : jschar -> bool := fun x => negb (jschar_eqb x c).

(* ===================================================================== *)
(** ** [node:path] (POSIX flavour) *)
(* ===================================================================== *)

(** The runs of units between the separators, empty runs included. *)
Fixpoint segments (p : jsstring) : list jsstring :=
  match p with
  | [] => [[]]
  | c :: p' =>
      if jschar_eqb c ch_slash then [] :: segments p'
      else
        match segments p' with
        | seg :: rest => (c :: seg) :: rest
        | [] => [[c]]
        end
  end.

Definition dot : jsstring := [ch_dot].
Definition dotdot : jsstring := [ch_dot; ch_dot].
Definition slash : jsstring := [ch_slash].

(** One step of [normalizeString]: [res] is the stack of segments kept so
    far, innermost first. *)
Definition normalize_step (allowAboveRoot : bool) (res : list jsstring)
    (seg : jsstring) : list jsstring :=
  if jsstring_eqb seg [] then res
  else if jsstring_eqb seg dot then res
  else if jsstring_eqb seg dotdot then
    match res with
    | top :: below =>
        if jsstring_eqb top dotdot
        then (if allowAboveRoot then dotdot :: res else res)
        else below
    | [] => if allowAboveRoot then [dotdot] else []
    end
  else seg :: res.

Definition normalizeString (p : jsstring) (allowAboveRoot : bool) : jsstring :=
  join slash (rev (fold_left (normalize_step allowAboveRoot) (segments p) [])).

(** [path.normalize] *)
Definition normalize (p : jsstring) : jsstring :=
  match p with
  | [] => dot
  | _ :: _ =>
      let isAbsolute := startsWith p slash in
      let trailingSeparator := endsWith p slash in
      match normalizeString p (negb isAbsolute) with
      | [] =>
          if isAbsolute then slash
          else if trailingSeparator then dot ++ slash else dot
      | body =>
          (if isAbsolute then slash else []) ++ body ++
          (if trailingSeparator then slash else [])
      end
  end.

(** [path.join(...args)]: the non-empty arguments, joined and normalised. *)
Definition path_join (args : list jsstring) : jsstring :=
  normalize (join slash (filter (fun a => truthy a = true) args)).

Fixpoint takeWhile (p : jschar -> bool) (s : jsstring) : jsstring :=
  match s with
  | c :: s' => if p c then c :: takeWhile p s' else []
  | [] => []
  end.

Fixpoint dropWhile (p : jschar -> bool) (s : jsstring) : jsstring :=
  match s with
  | c :: s' => if p c then dropWhile p s' else s
  | [] => []
  end.

(** The last segment of [p], trailing separators ignored. *)
Definition last_segment (p : jsstring) : jsstring :=
  rev (takeWhile (not_char ch_slash) (dropWhile (is_char ch_slash) (rev p))).

(** [path.extname]: from the last dot of the last segment, unless that dot
    opens the segment or the segment is [..]. *)
Definition extname (p : jsstring) : jsstring :=
  let base := last_segment p in
  let after := takeWhile (not_char ch_dot) (rev base) in
  if (length after <? length base)%nat then
    if (length after + 1 =? length base)%nat then []
    else if jsstring_eqb base dotdot then []
    else drop (length base - length after - 1) base
  else [].

(* ===================================================================== *)
(** ** JSON values and [JSON.stringify] *)
(* ===================================================================== *)

#[local] Unset Elimination Schemes.
Inductive JSON : Type :=
  | JNull
  | JBool (b : bool)
  | JNum (lexeme : jsstring)
  | JStr (s : jsstring)
  | JArr (items : list JSON)
  | JObj (fields : list (jsstring * JSON)).
#[local] Set Elimination Schemes.

(** Property lookup on a parsed object: a later duplicate key wins. *)
Fixpoint field (k : jsstring) (fields : list (jsstring * JSON)) : option JSON :=
  match fields with
  | [] => None
  | (k', v) :: rest =>
      match field k rest with
      | Some v' => Some v'
      | None => if jsstring_eqb k' k then Some v else None
      end
  end.

Definition hex_digit (n : N) : jschar :=
  if n <? 10 then 48 + n else 87 + n.

Definition unicode_escape (c : jschar) : jsstring :=
  [ch_backslash; 117; hex_digit (c / 4096); hex_digit ((c / 256) mod 16);
   hex_digit ((c / 16) mod 16); hex_digit (c mod 16)].

Definition is_high_surrogate (c : jschar) : bool := in_range 55296 56319 c.
Definition is_low_surrogate (c : jschar) : bool := in_range 56320 57343 c.

Definition escape_unit (c : jschar) : jsstring :=
  if c =? 8 then [ch_backslash; 98]
  else if c =? 9 then [ch_backslash; 116]
  else if c =? 10 then [ch_backslash; 110]
  else if c =? 12 then [ch_backslash; 102]
  else if c =? 13 then [ch_backslash; 114]
  else if c =? 34 then [ch_backslash; ch_dquote]
  else if c =? 92 then [ch_backslash; ch_backslash]
  else if c <? 32 then unicode_escape c
  else [c].

(** The body of [QuoteJSONString]: surrogate pairs pass, lone surrogates
    are escaped. *)
Fixpoint quote_body (s : jsstring) : jsstring :=
  match s with
  | [] => []
  | c :: s' =>
      if is_high_surrogate c then
        match s' with
        | d :: s'' =>
            if is_low_surrogate d then c :: d :: quote_body s''
            else unicode_escape c ++ quote_body s'
        | [] => unicode_escape c
        end
      else if is_low_surrogate c then unicode_escape c ++ quote_body s'
      else escape_unit c ++ quote_body s'
  end.

Definition quote (s : jsstring) : jsstring :=
  [ch_dquote] ++ quote_body s ++ [ch_dquote].

Fixpoint JSON_stringify (v : JSON) : jsstring :=
  match v with
  | JNull => js "null"
  | JBool true => js "true"
  | JBool false => js "false"
  | JNum lexeme => lexeme
  | JStr s => quote s
  | JArr items => js "[" ++ join (js ",") (map JSON_stringify items) ++ js "]"
  | JObj fields =>
      js "{" ++
      join (js ",")
        (map (fun kv => quote (fst kv) ++ js ":" ++ JSON_stringify (snd kv)) fields) ++
      js "}"
  end.

(* ===================================================================== *)
(** ** Buffers: UTF-8 and base64 *)
(* ===================================================================== *)

Abbreviation byte := N (only parsing).
Abbreviation Buffer := (list N) (only parsing).

Definition replacement_bytes : Buffer := [239; 191; 189].   (* U+FFFD *)

(** [Buffer.from(s, "utf-8")]: a surrogate pair is one code point, a lone
    surrogate is encoded as U+FFFD. *)
Fixpoint utf8_encode (s : jsstring) : Buffer :=
  match s with
  | [] => []
  | c :: s' =>
      if c <? 128 then c :: utf8_encode s'
      else if c <? 2048 then
        (192 + c / 64) :: (128 + c mod 64) :: utf8_encode s'
      else if is_high_surrogate c then
        match s' with
        | d :: s'' =>
            if is_low_surrogate d then
              let cp := 65536 + (c - 55296) * 1024 + (d - 56320) in
              (240 + cp / 262144) :: (128 + (cp / 4096) mod 64) ::
              (128 + (cp / 64) mod 64) :: (128 + cp mod 64) :: utf8_encode s''
            else replacement_bytes ++ utf8_encode s'
        | [] => replacement_bytes
        end
      else if is_low_surrogate c then replacement_bytes ++ utf8_encode s'
      else
        (224 + c / 4096) :: (128 + (c / 64) mod 64) :: (128 + c mod 64) ::
        utf8_encode s'
  end.

(** The decoder of [buffer.toString("utf-8")]: the state of a partly read
    sequence is the code point so far, the continuation bytes still needed
    and the range allowed for the next byte. *)
Inductive utf8_state : Type :=
  | Idle
  | Pending (cp : N) (needed : nat) (lower upper : byte).

Definition utf16_units (cp : N) : jsstring :=
  if cp <? 65536 then [cp]
  else [55296 + (cp - 65536) / 1024; 56320 + (cp - 65536) mod 1024].

Definition utf8_lead (b : byte) : jsstring * utf8_state :=
  if b <? 128 then ([b], Idle)
  else if in_range 194 223 b then ([], Pending (b mod 32) 1 128 191)
  else if in_range 224 239 b then
    ([], Pending (b mod 16) 2 (if b =? 224 then 160 else 128)
                               (if b =? 237 then 159 else 191))
  else if in_range 240 244 b then
    ([], Pending (b mod 8) 3 (if b =? 240 then 144 else 128)
                              (if b =? 244 then 143 else 191))
  else ([65533], Idle).

Fixpoint utf8_decode_from (st : utf8_state) (bs : Buffer) : jsstring :=
  match bs with
  | [] => match st with Idle => [] | Pending _ _ _ _ => [65533] end
  | b :: bs' =>
      match st with
      | Idle => fst (utf8_lead b) ++ utf8_decode_from (snd (utf8_lead b)) bs'
      | Pending cp needed lower upper =>
          if in_range lower upper b then
            match needed with
            | S (S k) => utf8_decode_from (Pending (cp * 64 + b mod 64) (S k) 128 191) bs'
            | _ => utf16_units (cp * 64 + b mod 64) ++ utf8_decode_from Idle bs'
            end
          else
            65533 :: fst (utf8_lead b) ++ utf8_decode_from (snd (utf8_lead b)) bs'
      end
  end.

Definition utf8_decode (bs : Buffer) : jsstring := utf8_decode_from Idle bs.

(** A string is well formed when every surrogate is half of a pair, and
    every unit fits in sixteen bits. *)
Fixpoint well_formed (s : jsstring) : bool :=
  match s with
  | [] => true
  | c :: s' =>
      if is_high_surrogate c then
        match s' with
        | d :: s'' => is_low_surrogate d && well_formed s''
        | [] => false
        end
      else (c <? 65536) && negb (is_low_surrogate c) && well_formed s'
  end.

Definition base64_char (n : N) : jschar :=
  if n <? 26 then 65 + n
  else if n <? 52 then 97 + (n - 26)
  else if n <? 62 then 48 + (n - 52)
  else if n =? 62 then 43 else 47.

(** [buffer.toString("base64")] *)
Fixpoint toBase64 (bs : Buffer) : jsstring :=
  match bs with
  | [] => []
  | [x] =>
      [base64_char (x / 4); base64_char ((x mod 4) * 16); 61; 61]
  | [x; y] =>
      [base64_char (x / 4); base64_char ((x mod 4) * 16 + y / 16);
       base64_char ((y mod 16) * 4); 61]
  | x :: y :: z :: rest =>
      base64_char (x / 4) :: base64_char ((x mod 4) * 16 + y / 16) ::
      base64_char ((y mod 16) * 4 + z / 64) :: base64_char (z mod 64) ::
      toBase64 rest
  end.

(* ===================================================================== *)
(** ** [crypto.randomUUID] *)
(* ===================================================================== *)

(** The [k] low hexadecimal digits of [r], most significant first. *)
Fixpoint nibbles (k : nat) (r : N) : list N :=
  match k with
  | O => []
  | S k' => nibbles k' (r / 16) ++ [r mod 16]
  end.

(** A version-4 identifier from 128 random bits: 32 hexadecimal digits in
    groups of 8, 4, 4, 4 and 12, the version digit forced to 4 and the
    variant digit to 8..b. *)
Definition uuid_digits (r : N) : list N :=
  alter (fun n => 8 + n mod 4) 16%nat (<[12%nat := 4]> (nibbles 32 r)).

Definition uuid_string (r : N) : jsstring :=
  let h := map hex_digit (uuid_digits r) in
  take 8 h ++ [ch_hyphen] ++
  take 4 (drop 8 h) ++ [ch_hyphen] ++
  take 4 (drop 12 h) ++ [ch_hyphen] ++
  take 4 (drop 16 h) ++ [ch_hyphen] ++
  drop 20 h.

(* ===================================================================== *)
(** ** The shared types ([@/lib/types]) *)
(* ===================================================================== *)

(** A JavaScript number is kept as the text [String(n)] gives for it: the
    sources only carry numbers around and print them. *)
Abbreviation number := (list N) (only parsing).

Inductive AttachmentCategory : Type := image | text | other.

Record UploadedFileMetadata : Type := mkUploadedFileMetadata {
  att_id : jsstring;
  originalName : jsstring;
  att_storedFilename : jsstring;
  mimeType : jsstring;
  att_size : number;
  publicUrl : jsstring;
  category : AttachmentCategory;
  textPreview : option jsstring
}.

Inductive Role : Type := system | user | assistant.

Record Artifact : Type := mkArtifact {
  art_id : jsstring;
  title : jsstring;
  description : option jsstring;
  previewHtml : jsstring;
  fullHtml : jsstring
}.

Inductive DocumentType : Type := pdf | docx | txt | csv | md.

Record GeneratedFile : Type := mkGeneratedFile {
  gf_id : jsstring;
  gf_filename : jsstring;
  gf_type : DocumentType;
  downloadUrl : jsstring;
  summary : option jsstring;
  gf_storedFilename : jsstring
}.

Record RequestMessage : Type := mkRequestMessage {
  msg_id : jsstring;
  role : Role;
  msg_text : jsstring;
  attachments : option (list UploadedFileMetadata)
}.

Record ChatRequestPayload : Type := mkChatRequestPayload {
  messages : list RequestMessage;
  temperature : option number
}.

Record ChatMessage : Type := mkChatMessage {
  cm_id : jsstring;
  cm_role : Role;
  cm_text : jsstring;
  createdAt : jsstring;
  cm_artifacts : list Artifact;
  cm_generatedFiles : list GeneratedFile
}.

(* ===================================================================== *)
(** ** The attachment classifier ([@/lib/fileClassification]) *)
(* ===================================================================== *)

Definition TEXT_MIME_PREFIXES : list jsstring :=
  [js "text/"; js "application/json"; js "application/xml"; js "application/yaml"].

Definition TEXT_EXTENSIONS : list jsstring :=
  [js ".md"; js ".csv"; js ".tsv"; js ".log"].

(** [mimeType] is [None] for [null]; the empty string is falsy as well. *)
Definition isTextLikeFile (mimeType : option jsstring) (filename : jsstring) : bool :=
  match mimeType with
  | Some (c :: m) =>
      if startsWith (c :: m) (js "text/") then true
      else existsb (jsstring_eqb (c :: m)) TEXT_MIME_PREFIXES
  | _ => existsb (fun ext => endsWith filename ext) TEXT_EXTENSIONS
  end.

Definition isImage (mimeType : option jsstring) : bool :=
  match mimeType with
  | Some (c :: m) => startsWith (c :: m) (js "image/")
  | _ => false
  end.

(* ===================================================================== *)
(** ** Schemas ([zod])

    The schemas of the chat route use strings with length bounds, unions of
    string literals, optional fields and flat objects. *)
(* ===================================================================== *)

Inductive schema : Type :=
  | ZString (min : nat) (max : option nat)
  | ZLiterals (options : list jsstring)         (* z.union([z.literal ..]) *)
  | ZOptional (inner : schema).

Definition object_schema := list (jsstring * schema).

Inductive ZodIssue : Type :=
  | Required            (* invalid_type, received undefined *)
  | InvalidType         (* invalid_type, received something else *)
  | TooSmall (min : nat)
  | TooBig (max : nat)
  | InvalidUnion.

(** The issues of a value against a schema; [None] is [undefined]. *)
Fixpoint issues (s : schema) (v : option JSON) : list ZodIssue :=
  match s with
  | ZString min max =>
      match v with
      | None => [Required]
      | Some (JStr x) =>
          (if (length x <? min)%nat then [TooSmall min] else []) ++
          match max with
          | Some m => if (m <? length x)%nat then [TooBig m] else []
          | None => []
          end
      | Some _ => [InvalidType]
      end
  | ZLiterals options =>
      match v with
      | Some (JStr x) => if existsb (jsstring_eqb x) options then [] else [InvalidUnion]
      | _ => [InvalidUnion]
      end
  | ZOptional inner =>
      match v with
      | None => []
      | Some _ => issues inner v
      end
  end.

(** [error.flatten().fieldErrors]: per key, in schema order, the issues of
    the keys that have any. *)
Definition FieldErrors := list (jsstring * list ZodIssue).

Fixpoint fieldErrors (sch : object_schema) (fields : list (jsstring * JSON))
    : FieldErrors :=
  match sch with
  | [] => []
  | (k, s) :: rest =>
      match issues s (field k fields) with
      | [] => fieldErrors rest fields
      | found => (k, found) :: fieldErrors rest fields
      end
  end.

(** [schema.safeParse(v)] for an object schema: the fields of the object
    when every key passes, else the field errors (none when [v] is not an
    object at all: that issue has an empty path). *)
Inductive SafeParse : Type :=
  | ParseSuccess (data : list (jsstring * JSON))
  | ParseFailure (errorDetail : FieldErrors).

Definition is_plain_object (v : JSON) : option (list (jsstring * JSON)) :=
  match v with
  | JObj fields => Some fields
  | _ => None
  end.

Definition safeParse (sch : object_schema) (v : JSON) : SafeParse :=
  match is_plain_object v with
  | None => ParseFailure []
  | Some fields =>
      match fieldErrors sch fields with
      | [] => ParseSuccess fields
      | errs => ParseFailure errs
      end
  end.

(** Reading a validated field. *)
Definition string_field (k : jsstring) (data : list (jsstring * JSON)) : jsstring :=
  match field k data with
  | Some (JStr s) => s
  | _ => []
  end.

Definition optional_string_field (k : jsstring) (data : list (jsstring * JSON))
    : option jsstring :=
  match field k data with
  | Some (JStr s) => Some s
  | _ => None
  end.

(* ===================================================================== *)
(** ** The model backend, as the orchestrator sees it *)
(* ===================================================================== *)

Inductive InputPart : Type :=
  | input_text (text : jsstring)
  | output_text (text : jsstring)
  | input_image (image_url : jsstring).

Record AzureMessage : Type := mkAzureMessage {
  am_role : Role;
  am_content : list InputPart
}.

(** One entry of the declared tool list: name, description, the properties
    (name, type, description, enumeration if any) and the required ones. *)
Record FunctionTool : Type := mkFunctionTool {
  tool_name : jsstring;
  tool_description : jsstring;
  tool_properties : list (jsstring * jsstring * jsstring * option (list jsstring));
  tool_required : list jsstring
}.

Record ToolOutput : Type := mkToolOutput {   (* type: "function_call_output" *)
  to_call_id : jsstring;
  to_output : jsstring
}.

(** The two shapes of [azureClient.responses.create]. *)
Inductive BackendRequest : Type :=
  | CreateRequest (model : jsstring) (input : list AzureMessage)
      (temperature : number) (tools : list FunctionTool)
  | ContinueRequest (model : jsstring) (previous_response_id : jsstring)
      (input : list ToolOutput).

Inductive ContentPart : Type :=
  | OutputText (text : option jsstring)     (* type: "output_text" *)
  | OtherContent (type : jsstring).

Inductive OutputItem : Type :=
  | FunctionCall (name : jsstring) (call_id : option jsstring)
      (arguments : option jsstring)         (* type: "function_call" *)
  | Message (content : option (list ContentPart))   (* type: "message" *)
  | OtherOutput (type : jsstring).

Record Response : Type := mkResponse {
  response_id : jsstring;
  output : option (list OutputItem)
}.

(* ===================================================================== *)
(** ** The world and its monad

    The world of one request: how many identifiers were drawn, the blob
    store (a key is a normalised path) and the requests sent to the
    backend so far, oldest first.  A computation returns or throws; the
    world goes on in both cases. *)
(* ===================================================================== *)

Record World : Type := mkWorld {
  drawn : nat;
  fs : gmap jsstring Buffer;
  sent : list BackendRequest
}.

Inductive Outcome (A : Type) : Type :=
  | Returned (a : A) (w : World)
  | Threw (e : jsstring) (w : World).
Arguments Returned {A} a w.
Arguments Threw {A} e w.

Definition world_of {A : Type} (o : Outcome A) : World :=
  match o with
  | Returned _ w => w
  | Threw _ w => w
  end.

Definition M (A : Type) : Type := World -> Outcome A.

Definition ret {A : Type} (a : A) : M A := fun w => Returned a w.

Definition bind {A B : Type} (m : M A) (k : A -> M B) : M B :=
  fun w =>
    match m w with
    | Returned a w' => k a w'
    | Threw e w' => Threw e w'
    end.

Definition throw {A : Type} (e : jsstring) : M A := fun w => Threw e w.

(** [try { m } catch (e) { h e }] *)
Definition try_catch {A : Type} (m : M A) (h : jsstring -> M A) : M A :=
  fun w =>
    match m w with
    | Returned a w' => Returned a w'
    | Threw e w' => h e w'
    end.

Notation "'let*' x ':=' m 'in' k" := (bind m (fun x => k))
  (at level 10, x pattern, m at level 100, k at level 200).

(** [fs.readFile], [fs.stat] and [fs.writeFile] on the blob store.  A
    write is taken to succeed: a rejection of [fs.writeFile] or of
    [fs.mkdir] (a full disk, a name the file system refuses) is outside
    the model, which says what a write that succeeds leaves behind. *)
Definition readFile (p : jsstring) : M Buffer :=
  fun w =>
    match fs w !! p with
    | Some b => Returned b w
    | None => Threw (js "ENOENT: no such file or directory") w
    end.

Definition stat (p : jsstring) : M unit :=
  fun w =>
    match fs w !! p with
    | Some _ => Returned tt w
    | None => Threw (js "ENOENT: no such file or directory") w
    end.

Definition writeFile (p : jsstring) (b : Buffer) : M unit :=
  fun w => Returned tt (mkWorld (drawn w) (<[p := b]> (fs w)) (sent w)).

(** Directories are implicit in the blob store. *)
Definition mkdir (p : jsstring) : M unit := ret tt.

(* ===================================================================== *)
(** ** A reference [JSON.parse]

    The chat route is stated for any parser; this one, the grammar of
    ECMA-404, is the parser of the examples.  A number is kept as it is
    written. *)
(* ===================================================================== *)

Definition is_json_space (c : jschar) : bool :=
  (c =? 32) || (c =? 9) || (c =? 10) || (c =? 13).

Definition hex_value (c : jschar) : option N :=
  if is_digit c then Some (c - 48)
  else if in_range 97 102 c then Some (c - 87)
  else if in_range 65 70 c then Some (c - 55)
  else None.

Definition simple_escape (c : jschar) : option jschar :=
  if c =? 34 then Some 34
  else if c =? 92 then Some 92
  else if c =? 47 then Some 47
  else if c =? 98 then Some 8
  else if c =? 102 then Some 12
  else if c =? 110 then Some 10
  else if c =? 114 then Some 13
  else if c =? 116 then Some 9
  else None.

(** The units of a string literal after its opening quote, and the rest. *)
Fixpoint parse_string_body (s : jsstring) : option (jsstring * jsstring) :=
  match s with
  | [] => None
  | c :: r =>
      if c =? 34 then Some ([], r)
      else if c =? 92 then
        match r with
        | 117 :: h1 :: h2 :: h3 :: h4 :: r' =>
            match hex_value h1, hex_value h2, hex_value h3, hex_value h4 with
            | Some a, Some b, Some c', Some d =>
                match parse_string_body r' with
                | Some (t, rest) => Some ((a * 4096 + b * 256 + c' * 16 + d) :: t, rest)
                | None => None
                end
            | _, _, _, _ => None
            end
        | e :: r' =>
            match simple_escape e with
            | Some x =>
                match parse_string_body r' with
                | Some (t, rest) => Some (x :: t, rest)
                | None => None
                end
            | None => None
            end
        | [] => None
        end
      else if c <? 32 then None
      else
        match parse_string_body r with
        | Some (t, rest) => Some (c :: t, rest)
        | None => None
        end
  end.

Definition parse_digits (s : jsstring) : option (jsstring * jsstring) :=
  match takeWhile is_digit s with
  | [] => None
  | d => Some (d, dropWhile is_digit s)
  end.

Definition parse_number (s : jsstring) : option (jsstring * jsstring) :=
  let '(sign, s1) :=
    match s with
    | 45 :: r => ([45], r)
    | _ => ([], s)
    end in
  let int_part :=
    match s1 with
    | 48 :: r => Some ([48], r)
    | c :: r => if in_range 49 57 c then parse_digits s1 else None
    | [] => None
    end in
  match int_part with
  | None => None
  | Some (i, s2) =>
      let frac_part :=
        match s2 with
        | 46 :: r =>
            match parse_digits r with
            | Some (d, r') => Some (46 :: d, r')
            | None => None
            end
        | _ => Some ([], s2)
        end in
      match frac_part with
      | None => None
      | Some (f, s3) =>
          match s3 with
          | e :: r =>
              if (e =? 101) || (e =? 69) then
                let '(esign, r1) :=
                  match r with
                  | 43 :: r' => ([43], r')
                  | 45 :: r' => ([45], r')
                  | _ => ([], r)
                  end in
                match parse_digits r1 with
                | Some (d, r2) => Some (sign ++ i ++ f ++ e :: esign ++ d, r2)
                | None => None
                end
              else Some (sign ++ i ++ f, s3)
          | [] => Some (sign ++ i ++ f, s3)
          end
      end
  end.

(** A value, white space before it skipped, and the rest.  [fuel] bounds
    the nesting; the inner loops run over the elements of an array and the
    members of an object. *)
Fixpoint parse_value (fuel : nat) (s : jsstring) : option (JSON * jsstring) :=
  match fuel with
  | O => None
  | S fuel' =>
      match dropWhile is_json_space s with
      | 110 :: 117 :: 108 :: 108 :: r => Some (JNull, r)
      | 116 :: 114 :: 117 :: 101 :: r => Some (JBool true, r)
      | 102 :: 97 :: 108 :: 115 :: 101 :: r => Some (JBool false, r)
      | 34 :: r =>
          match parse_string_body r with
          | Some (t, rest) => Some (JStr t, rest)
          | None => None
          end
      | 91 :: r =>
          match dropWhile is_json_space r with
          | 93 :: rest => Some (JArr [], rest)
          | _ =>
              (fix elements (n : nat) (s : jsstring) : option (JSON * jsstring) :=
                 match n with
                 | O => None
                 | S n' =>
                     match parse_value fuel' s with
                     | Some (v, r1) =>
                         match dropWhile is_json_space r1 with
                         | 44 :: r2 =>
                             match elements n' r2 with
                             | Some (JArr vs, rest) => Some (JArr (v :: vs), rest)
                             | _ => None
                             end
                         | 93 :: rest => Some (JArr [v], rest)
                         | _ => None
                         end
                     | None => None
                     end
                 end) (length r) r
          end
      | 123 :: r =>
          match dropWhile is_json_space r with
          | 125 :: rest => Some (JObj [], rest)
          | _ =>
              (fix members (n : nat) (s : jsstring) : option (JSON * jsstring) :=
                 match n with
                 | O => None
                 | S n' =>
                     match dropWhile is_json_space s with
                     | 34 :: r0 =>
                         match parse_string_body r0 with
                         | Some (k, r1) =>
                             match dropWhile is_json_space r1 with
                             | 58 :: r2 =>
                                 match parse_value fuel' r2 with
                                 | Some (v, r3) =>
                                     match dropWhile is_json_space r3 with
                                     | 44 :: r4 =>
                                         match members n' r4 with
                                         | Some (JObj kvs, rest) =>
                                             Some (JObj ((k, v) :: kvs), rest)
                                         | _ => None
                                         end
                                     | 125 :: rest => Some (JObj [(k, v)], rest)
                                     | _ => None
                                     end
                                 | None => None
                                 end
                             | _ => None
                             end
                         | None => None
                         end
                     | _ => None
                     end
                 end) (length r) r
          end
      | rest =>
          match parse_number rest with
          | Some (lexeme, r) => Some (JNum lexeme, r)
          | None => None
          end
      end
  end.

Definition parse_json (s : jsstring) : option JSON :=
  match parse_value (S (length s)) s with
  | Some (v, rest) =>
      match dropWhile is_json_space rest with
      | [] => Some v
      | _ :: _ => None
      end
  | None => None
  end.

(** The options object handed to [sanitize-html]. *)
Record SanitizeOptions : Type := mkSanitizeOptions {
  allowedTags : list jsstring;
  allowedAttributes : list (jsstring * list jsstring)   (* per tag; [*] is every tag *)
}.

(** An attribute pattern of the allow-list: [*] stands for any run of
    units. *)
Fixpoint glob (pattern s : jsstring) : bool :=
  match pattern with
  | [] => match s with [] => true | _ :: _ => false end
  | c :: pattern' =>
      if c =? 42 then
        (fix star (s : jsstring) : bool :=
           glob pattern' s ||
           match s with
           | [] => false
           | _ :: s' => star s'
           end) s
      else
        match s with
        | x :: s' => jschar_eqb x c && glob pattern' s'
        | [] => false
        end
  end.

Fixpoint key_of (k : jsstring) (obj : list (jsstring * list jsstring))
    : option (list jsstring) :=
  match obj with
  | [] => None
  | (k', v') :: rest => if jsstring_eqb k' k then Some v' else key_of k rest
  end.

(** The attribute [attr] on the tag [tag] passes the allow-list: it matches
    a pattern listed for the tag or for every tag. *)
Definition attribute_allowed (opts : SanitizeOptions) (tag attr : jsstring) : bool :=
  existsb (fun pattern => glob pattern attr)
    (default [] (key_of tag (allowedAttributes opts)) ++
     default [] (key_of (js "*") (allowedAttributes opts))).

(** *** The elements of a markup text

    What the sanitizer promises is said of the elements of its output.
    A text is read as an HTML tokenizer reads it: a start tag opens at
    a [<] that is followed by a letter; its name runs to the first white
    space, [/] or [>]; attributes follow, with or without a value, the
    value quoted or not; the tag ends at the next [>] outside a quoted
    value, and a tag that is never closed is dropped.  Names are
    lower-cased.  After the start tag of a [style] or [script] element
    (or of another raw-text element) everything is text up to the end
    tag of that element. *)

Inductive Token : Type :=
  | Character (c : jschar)
  | StartTag (name : jsstring) (attributes : list jsstring)
  | EndTag (name : jsstring).

Inductive TokenizerState : Type :=
  | Data
  | RawText (element : jsstring)
  | TagName (name : jsstring)
  | EndTagOpen
  | EndTagName (name : jsstring)
  | EndTagRest (name : jsstring)
  | BeforeAttributeName (tag : jsstring) (attrs : list jsstring)
  | AttributeName (tag : jsstring) (attrs : list jsstring) (name : jsstring)
  | AfterAttributeName (tag : jsstring) (attrs : list jsstring)
  | BeforeAttributeValue (tag : jsstring) (attrs : list jsstring)
  | AttributeValueQuoted (quote : jschar) (tag : jsstring) (attrs : list jsstring)
  | AttributeValueUnquoted (tag : jsstring) (attrs : list jsstring).

Definition is_html_space (c : jschar) : bool :=
  (c =? 9) || (c =? 10) || (c =? 12) || (c =? 13) || (c =? 32).

Definition is_ascii_alpha (c : jschar) : bool := is_lower c || is_upper c.

Definition ascii_lower (c : jschar) : jschar := if is_upper c then c + 32 else c.

(** The units that end a tag name: white space, [/] and [>]. *)
Definition ends_tag_name (c : jschar) : bool :=
  is_html_space c || (c =? 47) || (c =? 62).

Definition raw_text_elements : list jsstring :=
  [js "script"; js "style"; js "textarea"; js "title"; js "xmp"; js "iframe";
   js "noembed"; js "noframes"].

Definition after_start_tag (name : jsstring) : TokenizerState :=
  if existsb (jsstring_eqb name) raw_text_elements then RawText name else Data.

(** What follows a [<]: a letter, or a [/] and a letter. *)
Definition opens_tag (rest : jsstring) : bool :=
  match rest with
  | x :: _ => is_ascii_alpha x
  | [] => false
  end.

Definition opens_end_tag (rest : jsstring) : bool :=
  match rest with
  | x :: y :: _ => (x =? 47) && is_ascii_alpha y
  | _ => false
  end.

(** What follows a [<] is the end tag of [element]. *)
Definition closes (element rest : jsstring) : bool :=
  opens_end_tag rest
  && jsstring_eqb (map ascii_lower (take (length element) (drop 1 rest))) element
  && match drop (length element) (drop 1 rest) with
     | d :: _ => ends_tag_name d
     | [] => false
     end.

Fixpoint tokenize (st : TokenizerState) (s : jsstring) : list Token :=
  match s with
  | [] => []
  | c :: rest =>
      match st with
      | Data =>
          if c =? 60 then
            if opens_tag rest then tokenize (TagName []) rest
            else if opens_end_tag rest then tokenize EndTagOpen rest
            else Character c :: tokenize Data rest
          else Character c :: tokenize Data rest
      | RawText element =>
          if (c =? 60) && closes element rest then tokenize EndTagOpen rest
          else Character c :: tokenize (RawText element) rest
      | TagName name =>
          if c =? 62 then StartTag name [] :: tokenize (after_start_tag name) rest
          else if ends_tag_name c then tokenize (BeforeAttributeName name []) rest
          else tokenize (TagName (name ++ [ascii_lower c])) rest
      | EndTagOpen => tokenize (EndTagName []) rest
      | EndTagName name =>
          if c =? 62 then EndTag name :: tokenize Data rest
          else if ends_tag_name c then tokenize (EndTagRest name) rest
          else tokenize (EndTagName (name ++ [ascii_lower c])) rest
      | EndTagRest name =>
          if c =? 62 then EndTag name :: tokenize Data rest
          else tokenize (EndTagRest name) rest
      | BeforeAttributeName tag attrs =>
          if c =? 62 then StartTag tag attrs :: tokenize (after_start_tag tag) rest
          else if ends_tag_name c then tokenize (BeforeAttributeName tag attrs) rest
          else tokenize (AttributeName tag attrs [ascii_lower c]) rest
      | AttributeName tag attrs name =>
          if c =? 62 then
            StartTag tag (attrs ++ [name]) :: tokenize (after_start_tag tag) rest
          else if ends_tag_name c then tokenize (AfterAttributeName tag (attrs ++ [name])) rest
          else if c =? 61 then tokenize (BeforeAttributeValue tag (attrs ++ [name])) rest
          else tokenize (AttributeName tag attrs (name ++ [ascii_lower c])) rest
      | AfterAttributeName tag attrs =>
          if c =? 62 then StartTag tag attrs :: tokenize (after_start_tag tag) rest
          else if is_html_space c then tokenize (AfterAttributeName tag attrs) rest
          else if c =? 47 then tokenize (BeforeAttributeName tag attrs) rest
          else if c =? 61 then tokenize (BeforeAttributeValue tag attrs) rest
          else tokenize (AttributeName tag attrs [ascii_lower c]) rest
      | BeforeAttributeValue tag attrs =>
          if c =? 62 then StartTag tag attrs :: tokenize (after_start_tag tag) rest
          else if is_html_space c then tokenize (BeforeAttributeValue tag attrs) rest
          else if (c =? 34) || (c =? 39) then
            tokenize (AttributeValueQuoted c tag attrs) rest
          else tokenize (AttributeValueUnquoted tag attrs) rest
      | AttributeValueQuoted quote tag attrs =>
          if c =? quote then tokenize (BeforeAttributeName tag attrs) rest
          else tokenize (AttributeValueQuoted quote tag attrs) rest
      | AttributeValueUnquoted tag attrs =>
          if c =? 62 then StartTag tag attrs :: tokenize (after_start_tag tag) rest
          else if is_html_space c then tokenize (BeforeAttributeName tag attrs) rest
          else tokenize (AttributeValueUnquoted tag attrs) rest
      end
  end.

Definition start_tag (t : Token) : option (jsstring * list jsstring) :=
  match t with
  | StartTag name attributes => Some (name, attributes)
  | _ => None
  end.

(** The elements of a text: the name and the attribute names of each of
    its start tags, in order. *)
Definition elements_of (s : jsstring) : list (jsstring * list jsstring) :=
  omap start_tag (tokenize Data s).

(** The body received by [POST /chat], after
    [requestSchema.parse(await request.json())]: the call throws something
    that is no [ZodError], throws a [ZodError], or returns the payload. *)
Inductive RequestBody : Type :=
  | BodyUnparsable
  | BodyInvalid (details : JSON)
  | BodyValid (payload : ChatRequestPayload).


(* ===================================================================== *)
(** ** The upload form and the page

    The types of the upload route ([src/app/api/upload/route.ts]) and the
    part of the page that talks to the chat route, with the notions used
    further down to state what the routes do. *)
(* ===================================================================== *)

(** A [File] of the form data: its name, its type (the empty string when
    the browser gives none), its size and its bytes. *)
Record File : Type := mkFile {
  file_name : jsstring;
  file_type : jsstring;
  file_size : number;
  file_bytes : Buffer
}.

(** An entry of [formData.getAll("files")]: a file, or a text field. *)
Inductive FormEntry : Type :=
  | FileEntry (entry : File)
  | TextEntry (value : jsstring).

Definition MAX_TEXT_PREVIEW : N := 8000.

(** [path.basename] *)
Definition basename (p : jsstring) : jsstring := last_segment p.

Definition truncated_marker : jsstring :=
  [ch_lf] ++ js "..." ++ [ch_lf] ++ js "[truncated preview]".

(** The replies of [POST /upload]. *)
Inductive UploadResponse : Type :=
  | UploadBadRequest (error : jsstring)                    (* 400 *)
  | UploadCreated (files : list UploadedFileMetadata).     (* 201 *)

Definition upload_status (r : UploadResponse) : N :=
  match r with
  | UploadBadRequest _ => 400
  | UploadCreated _ => 201
  end.

(** The files among the entries of a form, in order. *)
Definition files_of (fileEntries : list FormEntry) : list File :=
  omap (fun e => match e with FileEntry entry => Some entry | TextEntry _ => None end)
    fileEntries.

(** The texts of the [output_text] parts of the [message] items of a
    response, in document order. *)
Definition output_texts (response : Response) : list jsstring :=
  flat_map
    (fun item =>
       match item with
       | Message content =>
           flat_map
             (fun part =>
                match part with
                | OutputText t => [default [] t]
                | OtherContent _ => []
                end)
             (default [] content)
       | _ => []
       end)
    (default [] (output response)).

(** The media type under which each document type is served. *)
Definition media_type (t : DocumentType) : jsstring :=
  match t with
  | pdf => js "application/pdf"
  | docx => js "application/vnd.openxmlformats-officedocument.wordprocessingml.document"
  | txt => js "text/plain; charset=utf-8"
  | csv => js "text/csv; charset=utf-8"
  | md => js "text/markdown; charset=utf-8"
  end.

(** What is left of a stored name once a leading run without hyphen and
    the hyphen after it are removed; the name itself when it does not
    begin with such a run. *)
Definition after_first_hyphen (s : jsstring) : jsstring :=
  match takeWhile (not_char ch_hyphen) s, dropWhile (not_char ch_hyphen) s with
  | _ :: _, _ :: rest => rest
  | _, _ => s
  end.

(** The field errors of a call without arguments. *)
Definition missing_artifact_fields : FieldErrors :=
  [(js "title", [Required]); (js "html", [Required])].

Definition missing_document_fields : FieldErrors :=
  [(js "filename", [Required]); (js "type", [InvalidUnion]); (js "content", [Required])].

(** *** The page (the client of the two routes) *)

(** [ChatMessage], as the page holds it. *)
Record PageMessage : Type := mkPageMessage {
  pm_id : jsstring;
  pm_role : Role;
  pm_text : jsstring;
  pm_createdAt : jsstring;
  pm_attachments : option (list UploadedFileMetadata);
  pm_artifacts : option (list Artifact);
  pm_generatedFiles : option (list GeneratedFile)
}.

(** The state of the page that its handlers read and set. *)
Record PageState : Type := mkPageState {
  ps_messages : list PageMessage;
  ps_input : jsstring;
  ps_pendingAttachments : list UploadedFileMetadata;
  ps_isSending : bool;
  ps_isUploading : bool;
  ps_error : option jsstring
}.

(** How [fetch("/api/chat", ...)] ends. *)
Inductive ChatFetch : Type :=
  | FetchFailed                          (* the request, or reading its body, fails *)
  | FetchNotOk                           (* [!response.ok] *)
  | FetchOk (message : PageMessage).     (* [data.message] *)

Definition role_name (r : Role) : jsstring :=
  match r with
  | system => js "system"
  | user => js "user"
  | assistant => js "assistant"
  end.

Definition category_name (c : AttachmentCategory) : jsstring :=
  match c with
  | image => js "image"
  | text => js "text"
  | other => js "other"
  end.

(** What [JSON.stringify] writes and [request.json()] reads back, for an
    attachment and for the payload of a conversation: a field that is
    [undefined] is left out. *)
Definition attachment_json (a : UploadedFileMetadata) : JSON :=
  JObj ([(js "id", JStr (att_id a));
         (js "originalName", JStr (originalName a));
         (js "storedFilename", JStr (att_storedFilename a));
         (js "mimeType", JStr (mimeType a));
         (js "size", JNum (att_size a));
         (js "publicUrl", JStr (publicUrl a));
         (js "category", JStr (category_name (category a)))] ++
        match textPreview a with
        | Some preview => [(js "textPreview", JStr preview)]
        | None => []
        end).

Definition chat_payload (conversation : list PageMessage) : JSON :=
  JObj [(js "messages",
         JArr (map (fun message =>
                      JObj ([(js "id", JStr (pm_id message));
                             (js "role", JStr (role_name (pm_role message)));
                             (js "text", JStr (pm_text message))] ++
                            match pm_attachments message with
                            | Some atts =>
                                [(js "attachments", JArr (map attachment_json atts))]
                            | None => []
                            end))
                 conversation))].

(** [handleSubmit]: the state once the handler is through, [id] and
    [createdAt] being the identifier and the time given to the message
    of the user. *)
Definition handleSubmit (fetch : JSON -> ChatFetch) (id createdAt : jsstring)
    (st : PageState) : PageState :=
  if negb (truthy (trim (ps_input st))) || ps_isSending st || ps_isUploading st then st
  else
    let userMessage :=
      mkPageMessage id user (trim (ps_input st)) createdAt
        (Some (ps_pendingAttachments st)) None None in
    let conversation := ps_messages st ++ [userMessage] in
    match fetch (chat_payload conversation) with
    | FetchOk message =>
        mkPageState (conversation ++ [message]) [] [] false (ps_isUploading st) None
    | _ =>
        mkPageState conversation [] [] false (ps_isUploading st)
          (Some (js "Something went wrong generating a response. Please try again."))
    end.

(** The message of a reply, as the page reads it from the body. *)
Definition received (m : ChatMessage) : PageMessage :=
  mkPageMessage (cm_id m) (cm_role m) (cm_text m) (createdAt m) None
    (Some (cm_artifacts m)) (Some (cm_generatedFiles m)).


(** The message of a request that stands for a message of the page. *)
Definition sent_message (m : PageMessage) : RequestMessage :=
  mkRequestMessage (pm_id m) (pm_role m) (pm_text m) (pm_attachments m).
(* ===================================================================== *)
(** ** A reference environment

    Concrete surroundings on which the orchestrator can be run: a working
    directory, a source of random bits, scripted backends, a parser, two
    sanitizers (one escapes all markup, one keeps the allowed tags), and
    stand-ins for the two binary
    encoders. *)
(* ===================================================================== *)

(** A literal in which the apostrophe stands for the double quote. *)
Definition jsq (s : string) : jsstring :=
  map (fun c => if c =? 39 then ch_dquote else c) (js s).

Definition ref_cwd : jsstring := js "/app".

Definition ref_entropy (n : nat) : N :=
  0x123e4567e89b12d3a456426614174000 + N.of_nat n.

(** A backend that gives its replies in order, and fails after the last. *)
Definition scripted (replies : list Response) (requests : list BackendRequest)
    : Response + jsstring :=
  match nth_error replies (length requests - 1) with
  | Some reply => inl reply
  | None => inr (js "socket hang up")
  end.

(** A backend that asks for the same tool in every reply. *)
Definition insatiable (call : OutputItem) (requests : list BackendRequest)
    : Response + jsstring :=
  inl (mkResponse (js "resp") (Some [call])).

Definition ref_zod_message (i : ZodIssue) : jsstring :=
  match i with
  | Required => js "Required"
  | InvalidType => js "Invalid type"
  | TooSmall _ => js "String is too short"
  | TooBig _ => js "String is too long"
  | InvalidUnion => js "Invalid input"
  end.

Definition ref_pdfkit (margin : N) (font : jsstring) (size : N) (align text : jsstring)
    : Buffer :=
  js "%PDF-" ++ utf8_encode text.

Definition ref_packer (paragraphs : list jsstring) : Buffer :=
  js "PK" ++ utf8_encode (join [ch_lf] paragraphs).

(** The sanitizer that lets no markup through: the four special
    characters become entities. *)
Definition escape_markup (c : jschar) : jsstring :=
  if c =? 38 then js "&amp;"
  else if c =? 60 then js "&lt;"
  else if c =? 62 then js "&gt;"
  else if c =? 34 then js "&quot;"
  else [c].

Definition ref_sanitizeHtml (input : jsstring) (opts : SanitizeOptions) : jsstring :=
  flat_map escape_markup input.

(** The sanitizer that works on the tokens of its input: it keeps the
    tags that are on the allow-list, with the names of the attributes
    that are, drops the other tags, and escapes the text. *)
Definition is_name_unit (c : jschar) : bool :=
  is_lower c || is_digit c || (c =? 45).

Definition plain_name (s : jsstring) : bool :=
  match s with
  | c :: _ => is_lower c && forallb is_name_unit s
  | [] => false
  end.

Definition tag_allowed (opts : SanitizeOptions) (name : jsstring) : bool :=
  existsb (jsstring_eqb name) (allowedTags opts) && plain_name name.

Definition render_token (opts : SanitizeOptions) (t : Token) : jsstring :=
  match t with
  | Character c => escape_markup c
  | StartTag name attributes =>
      if tag_allowed opts name then
        js "<" ++ name ++
        flat_map (fun a => js " " ++ a)
          (filter (fun a => attribute_allowed opts name a && plain_name a = true)
             attributes) ++
        js ">"
      else []
  | EndTag name =>
      if tag_allowed opts name then js "</" ++ name ++ js ">" else []
  end.

Definition ref_tag_filter (input : jsstring) (opts : SanitizeOptions) : jsstring :=
  flat_map (render_token opts) (tokenize Data input).

(** The defaults documented for the sanitizer. *)
Definition ref_allowedTags : list jsstring :=
  map js
    ["address"; "article"; "aside"; "footer"; "header"; "h1"; "h2"; "h3"; "h4";
     "h5"; "h6"; "hgroup"; "main"; "nav"; "section"; "blockquote"; "dd"; "div";
     "dl"; "dt"; "figcaption"; "figure"; "hr"; "li"; "main"; "ol"; "p"; "pre";
     "ul"; "a"; "abbr"; "b"; "bdi"; "bdo"; "br"; "cite"; "code"; "data"; "dfn";
     "em"; "i"; "kbd"; "mark"; "q"; "rb"; "rp"; "rt"; "rtc"; "ruby"; "s"; "samp";
     "small"; "span"; "strong"; "sub"; "sup"; "time"; "u"; "var"; "wbr"; "caption";
     "col"; "colgroup"; "table"; "tbody"; "td"; "tfoot"; "th"; "thead"; "tr"]%string.

Definition ref_allowedAttributes : list (jsstring * list jsstring) :=
  [(js "a", [js "href"; js "name"; js "target"]);
   (js "img", [js "src"; js "srcset"; js "alt"; js "title"; js "width"; js "height";
               js "loading"])].

(** An empty world. *)
Definition ref_world : World := mkWorld 0 ∅ [].

Definition ref_user_message (text : jsstring) (atts : option (list UploadedFileMetadata))
    : RequestMessage :=
  mkRequestMessage (js "m1") user text atts.

Definition ref_attachment : UploadedFileMetadata :=
  mkUploadedFileMetadata (js "a1") (js "cat.png") (js "a1-cat.png") (js "image/png")
    (js "1024") (js "/uploads/a1-cat.png") image None.

Definition ref_secret_path : jsstring := js "/app/generated-old/secret.txt".

(** A store with one file next to the generated-files directory. *)
Definition ref_sibling_world : World :=
  mkWorld 0 (<[ref_secret_path := js "top secret"]> ∅) [].

Definition ref_unknown_call : OutputItem :=
  FunctionCall (js "get_weather") (Some (js "call_1")) (Some (js "{}")).

Definition ref_final_reply : Response :=
  mkResponse (js "resp_2")
    (Some [Message (Some [OutputText (Some (js "Done"))])]).

Definition ref_body (atts : option (list UploadedFileMetadata)) : ChatRequestPayload :=
  mkChatRequestPayload [ref_user_message (js "Make me a CSV of 1,2,3") atts] None.

Definition ref_csv_input : list (jsstring * JSON) :=
  [(js "filename", JStr (js "numbers")); (js "type", JStr (js "csv"));
   (js "content", JStr (js "1,2,3"))].

(** A [create_artifact] call whose markup holds an event handler and a
    script element, and which comes with a script of its own. *)
Definition ref_artifact_html : jsstring :=
  js "<p id=t onclick=steal()>12:00</p><script src=//evil.example></script>".

Definition ref_artifact_args : jsstring :=
  jsq "{'title':'Clock','html':'" ++ ref_artifact_html ++ jsq "','js':'tick()'}".

Definition ref_artifact_fields : list (jsstring * JSON) :=
  [(js "title", JStr (js "Clock")); (js "html", JStr ref_artifact_html);
   (js "js", JStr (js "tick()"))].

Definition ref_first_reply : Response :=
  mkResponse (js "resp_1") (Some [ref_unknown_call]).

(** A [create_artifact] call whose title is empty. *)
Definition ref_bad_call : OutputItem :=
  FunctionCall (js "create_artifact") (Some (js "call_1")) (Some (jsq "{'title':''}")).

(** The model asks for a CSV of 1,2,3 and then says "Done". *)
Definition ref_csv_call : OutputItem :=
  FunctionCall (js "create_document") (Some (js "call_1"))
    (Some (jsq "{'filename':'numbers','type':'csv','content':'1,2,3'}")).

Definition ref_csv_backend : list BackendRequest -> Response + jsstring :=
  scripted [mkResponse (js "resp_1") (Some [ref_csv_call]); ref_final_reply].

Definition ref_csv_stored_name : jsstring :=
  js "123e4567-e89b-42d3-a456-426614174000-numbers.csv".


(** *** Reference values for the upload route and the page *)

(** A photograph sent under a path of the client. *)
Definition ref_photo : File :=
  mkFile (js "../holiday/beach photo.png") (js "image/png") (js "3") [137; 80; 78].

(** Notes sent without a type: the extension decides. *)
Definition ref_notes : File :=
  mkFile (js "notes.md") [] (js "4") (js "# hi").

(** A reference for the numbers of the request schema: it knows the
    natural numbers written in digits. *)
Definition ref_zod_number (min max : option N) (lexeme : jsstring) : option number :=
  if truthy lexeme && forallb is_digit lexeme then
    let n := fold_left (fun acc c => acc * 10 + (c - 48)) lexeme 0 in
    if match min with Some a => n <? a | None => false end then None
    else if match max with Some b => b <? n | None => false end then None
    else Some lexeme
  else None.

(** A report that blames the messages, whatever was refused. *)
Definition ref_zod_flatten (v : JSON) : JSON :=
  JObj [(js "formErrors", JArr []);
        (js "fieldErrors", JObj [(js "messages", JArr [JStr (js "Invalid input")])])].

(** A backend whose only reply holds neither a call nor a text. *)
Definition ref_silent_backend : list BackendRequest -> Response + jsstring :=
  scripted [mkResponse (js "resp_1") (Some [])].

(** A backend that asks for a CSV and fails on the continuation. *)
Definition ref_failing_backend : list BackendRequest -> Response + jsstring :=
  scripted [mkResponse (js "resp_1") (Some [ref_csv_call])].

(** The page as it opens, with a question typed. *)
Definition ref_page : PageState :=
  mkPageState
    [mkPageMessage (js "m0") system (js "You are Azure Artifact Studio.")
       (js "2025-01-01T00:00:00.000Z") None None None]
    (js "hi") [] false false None.

(** [onChange] of the text area: [setInput(event.target.value)]. *)
Definition typed (value : jsstring) (st : PageState) : PageState :=
  mkPageState (ps_messages st) value (ps_pendingAttachments st) (ps_isSending st)
    (ps_isUploading st) (ps_error st).

(** A store that holds one uploaded photograph. *)
Definition ref_uploads_world : World :=
  mkWorld 0 (<[js "/app/public/uploads/photo.png" := [137; 80; 78]]> ∅) [].

(** The conversation of the page after a question about a picture. *)
Definition ref_conversation : list PageMessage :=
  [mkPageMessage (js "m0") system (js "You are Azure Artifact Studio.")
     (js "2025-01-01T00:00:00.000Z") None None None;
   mkPageMessage (js "m1") user (js "What is on this picture?")
     (js "2025-01-01T00:00:01.000Z") (Some [ref_attachment]) None None].
Section Studio.

(** *** What the surroundings provide *)

Variable cwd : jsstring.                       (* process.cwd() *)
Variable entropy : nat -> N.                   (* the n-th draw of 128 random bits *)
Variable backend : list BackendRequest -> Response + jsstring.
                                               (* the reply to the last of the requests so far, or the error thrown *)
Variable defaultDeployment : jsstring.         (* AZURE_OPENAI_DEPLOYMENT ?? "gpt-4.1" *)
Variable AZURE_OPENAI_API_KEY : option jsstring.
Variable AZURE_OPENAI_ENDPOINT : option jsstring.
Variable now : jsstring.                       (* new Date().toISOString() *)
Variable JSON_parse : jsstring -> option JSON. (* [None]: a SyntaxError *)
Variable zod_message : ZodIssue -> jsstring.   (* the message zod prints for an issue *)
Variable pdfkit : N -> jsstring -> N -> jsstring -> jsstring -> Buffer.
                                               (* margin, font, size, alignment, text *)
Variable Packer_toBuffer : list jsstring -> Buffer.
                                               (* a document of one section with these paragraphs *)
Variable sanitizeHtml : jsstring -> SanitizeOptions -> jsstring.
Variable defaults_allowedTags : list jsstring.
Variable defaults_allowedAttributes : list (jsstring * list jsstring).

(** *** Storage helpers ([src/lib/fsUtils.ts]) *)

Definition UPLOAD_DIR : jsstring := path_join [cwd; js "public"; js "uploads"].
Definition GENERATED_DIR : jsstring := path_join [cwd; js "generated"].

Definition ensureDirectories : M unit :=
  let* _ := mkdir UPLOAD_DIR in
  mkdir GENERATED_DIR.

Definition saveBuffer (buffer : Buffer) (destinationDir filename : jsstring)
    : M jsstring :=
  let* _ := mkdir destinationDir in
  let fullPath := path_join [destinationDir; filename] in
  let* _ := writeFile fullPath buffer in
  ret fullPath.

(** [crypto.randomUUID()] *)
Definition randomUUID : M jsstring :=
  fun w =>
    Returned (uuid_string (entropy (drawn w)))
             (mkWorld (S (drawn w)) (fs w) (sent w)).

(** [azureClient.responses.create(request)] *)
Definition responses_create (request : BackendRequest) : M Response :=
  fun w =>
    let w' := mkWorld (drawn w) (fs w) (sent w ++ [request]) in
    match backend (sent w') with
    | inl response => Returned response w'
    | inr e => Threw e w'
    end.

(** *** The document encoder ([src/lib/documentFactory.ts]) *)

Record CreateDocumentInput : Type := mkCreateDocumentInput {
  cdi_filename : jsstring;
  cdi_type : DocumentType;
  cdi_content : jsstring
}.

Record DocumentCreationResult : Type := mkDocumentCreationResult {
  dcr_id : jsstring;
  dcr_filename : jsstring;
  dcr_type : DocumentType;
  dcr_storedFilename : jsstring;
  dcr_fullPath : jsstring
}.

Definition EXTENSION_MAP (t : DocumentType) : jsstring :=
  match t with
  | pdf => js ".pdf"
  | docx => js ".docx"
  | txt => js ".txt"
  | csv => js ".csv"
  | md => js ".md"
  end.

(** [/\.[^/.]+$/] *)
Definition extension_re : regex :=
  [One (is_char ch_dot);
   Many1 (fun c => negb (jschar_eqb c ch_slash || jschar_eqb c ch_dot));
   Eol].

(** [/[^a-zA-Z0-9._-]/g] *)
Definition unsafe_unit (c : jschar) : bool :=
  negb (is_lower c || is_upper c || is_digit c ||
        jschar_eqb c ch_dot || jschar_eqb c ch_underscore || jschar_eqb c ch_hyphen).
Definition unsafe_re : regex := [One unsafe_unit].

Definition safeBase (filename : jsstring) : jsstring :=
  let cut :=
    take 120 (replace_all unsafe_re (js "_") (replace_first extension_re [] filename)) in
  if truthy cut then cut else js "azure-ai-document".

(** The two binary encoders are taken to deliver their buffer; the
    [error] event of the PDF document, on which [renderPdf] rejects, is
    outside the model. *)
Definition renderPdf (content : jsstring) : Buffer :=
  pdfkit 50 (js "Helvetica") 12 (js "left") content.

(** [/\n{2,}/] *)
Definition blank_lines_re : regex :=
  [One (is_char ch_lf); Many1 (is_char ch_lf)].

(** The texts of the paragraphs handed to the document: [children]. *)
Definition docxParagraphs (content : jsstring) : list jsstring :=
  let paragraphs := map trim (split blank_lines_re content) in
  if (0 <? length paragraphs)%nat then paragraphs else [content].

Definition renderDocx (content : jsstring) : Buffer :=
  Packer_toBuffer (docxParagraphs content).

Definition createBufferForType (type : DocumentType) (content : jsstring) : Buffer :=
  match type with
  | pdf => renderPdf content
  | docx => renderDocx content
  | _ => utf8_encode content
  end.

Definition createDocumentFile (input : CreateDocumentInput)
    : M DocumentCreationResult :=
  let* _ := ensureDirectories in
  let* id := randomUUID in
  let ext := EXTENSION_MAP (cdi_type input) in
  let finalFilename := safeBase (cdi_filename input) ++ ext in
  let storedFilename := id ++ js "-" ++ finalFilename in
  let destination := path_join [GENERATED_DIR; storedFilename] in
  let buffer := createBufferForType (cdi_type input) (cdi_content input) in
  let* _ := writeFile destination buffer in
  ret (mkDocumentCreationResult id finalFilename (cdi_type input)
         storedFilename destination).

(** *** The chat route: schemas and tool executors *)

Definition artifactArgsSchema : object_schema :=
  [(js "title", ZString 1 (Some 120%nat));
   (js "description", ZOptional (ZString 0 None));
   (js "html", ZString 1 None);
   (js "css", ZOptional (ZString 0 None));
   (js "js", ZOptional (ZString 0 None))].

Definition documentArgsSchema : object_schema :=
  [(js "filename", ZString 1 None);
   (js "type", ZLiterals [js "pdf"; js "docx"; js "txt"; js "csv"; js "md"]);
   (js "content", ZString 1 None);
   (js "summary", ZOptional (ZString 0 None))].

Definition documentType_of (s : jsstring) : DocumentType :=
  if jsstring_eqb s (js "pdf") then pdf
  else if jsstring_eqb s (js "docx") then docx
  else if jsstring_eqb s (js "txt") then txt
  else if jsstring_eqb s (js "csv") then csv
  else md.

(** [safeJsonParse]: the parsed value, [{}] for the empty string and
    [null] when the parser throws. *)
Definition safeJsonParse (input : jsstring) : JSON :=
  if truthy input then
    match JSON_parse input with
    | Some v => v
    | None => JNull
    end
  else JObj [].

(** [v ?? {}] *)
Definition or_empty_object (v : JSON) : JSON :=
  match v with
  | JNull => JObj []
  | _ => v
  end.

(** What an executor hands back, before [JSON.stringify]. *)
Inductive ToolResult : Type :=
  | ArtifactCreated (artifactId : jsstring)
  | DocumentCreated (fileId downloadUrl filename : jsstring)
  | ToolFailure (error : jsstring) (errorDetail : FieldErrors)
  | UnknownFunction (name : jsstring).

Definition fieldErrors_json (errs : FieldErrors) : JSON :=
  JObj (map (fun kv => (fst kv, JArr (map (fun i => JStr (zod_message i)) (snd kv)))) errs).

Definition result_json (r : ToolResult) : JSON :=
  match r with
  | ArtifactCreated artifactId =>
      JObj [(js "success", JBool true); (js "artifactId", JStr artifactId)]
  | DocumentCreated fileId downloadUrl filename =>
      JObj [(js "success", JBool true); (js "fileId", JStr fileId);
            (js "downloadUrl", JStr downloadUrl); (js "filename", JStr filename)]
  | ToolFailure error errorDetail =>
      JObj [(js "success", JBool false); (js "error", JStr error);
            (js "errorDetail", fieldErrors_json errorDetail)]
  | UnknownFunction name =>
      JObj [(js "error", JStr (js "Unknown function: " ++ name))]
  end.

(** [{...obj, [k]: v}]: the key keeps its place when it is there. *)
Fixpoint with_key (k : jsstring) (v : list jsstring)
    (obj : list (jsstring * list jsstring)) : list (jsstring * list jsstring) :=
  match obj with
  | [] => [(k, v)]
  | (k', v') :: rest =>
      if jsstring_eqb k' k then (k, v) :: rest else (k', v') :: with_key k v rest
  end.

Definition artifactSanitizeOptions : SanitizeOptions :=
  {| allowedTags :=
       defaults_allowedTags ++
       [js "img"; js "svg"; js "path"; js "circle"; js "line"; js "polyline";
        js "polygon"; js "style"; js "canvas"];
     allowedAttributes :=
       with_key (js "*")
         (default [] (key_of (js "*") defaults_allowedAttributes) ++
          [js "style"; js "class"; js "id"; js "data-*"])
         defaults_allowedAttributes |}.

Definition script_block (code : jsstring) : jsstring :=
  js "<script type=" ++ [ch_dquote] ++ js "module" ++ [ch_dquote] ++ js ">" ++
  [ch_lf] ++ code ++ [ch_lf] ++ js "</script>".

(** The standalone document of an artifact: empty entries are dropped by
    [filter(Boolean)] before the lines are joined. *)
Definition artifactFullHtml (html : jsstring) (css js_code : option jsstring)
    : jsstring :=
  join [ch_lf]
    (filter (fun line => truthy line = true)
       [js "<!DOCTYPE html>";
        js "<html>";
        js "<head>";
        js "<meta charset=" ++ [ch_dquote] ++ js "utf-8" ++ [ch_dquote] ++ js " />";
        js "<style>";
        default [] css;
        js "</style>";
        js "</head>";
        js "<body>";
        html;
        match js_code with
        | Some (c :: code) => script_block (c :: code)
        | _ => []
        end;
        js "</body>";
        js "</html>"]).

Definition artifactPreviewHtml (html : jsstring) (css : option jsstring) : jsstring :=
  sanitizeHtml (js "<style>" ++ default [] css ++ js "</style>" ++ html)
               artifactSanitizeOptions.

Definition executeCreateArtifact (rawArgs : jsstring) (artifacts : list Artifact)
    : M (ToolResult * list Artifact) :=
  let jsonArgs := safeJsonParse rawArgs in
  match safeParse artifactArgsSchema (or_empty_object jsonArgs) with
  | ParseFailure errorDetail =>
      ret (ToolFailure (js "Invalid artifact arguments") errorDetail, artifacts)
  | ParseSuccess data =>
      let html := string_field (js "html") data in
      let css := optional_string_field (js "css") data in
      let js_code := optional_string_field (js "js") data in
      let previewHtml := artifactPreviewHtml html css in
      let fullHtml := artifactFullHtml html css js_code in
      let* id := randomUUID in
      let artifact :=
        mkArtifact id (string_field (js "title") data)
          (optional_string_field (js "description") data) previewHtml fullHtml in
      ret (ArtifactCreated (art_id artifact), artifacts ++ [artifact])
  end.

Definition executeCreateDocument (rawArgs : jsstring)
    (generatedFiles : list GeneratedFile) : M (ToolResult * list GeneratedFile) :=
  let jsonArgs := safeJsonParse rawArgs in
  match safeParse documentArgsSchema (or_empty_object jsonArgs) with
  | ParseFailure errorDetail =>
      ret (ToolFailure (js "Invalid document arguments") errorDetail, generatedFiles)
  | ParseSuccess data =>
      let* result :=
        createDocumentFile
          (mkCreateDocumentInput (string_field (js "filename") data)
             (documentType_of (string_field (js "type") data))
             (string_field (js "content") data)) in
      let downloadUrl := js "/api/generated/" ++ dcr_storedFilename result in
      let generated :=
        mkGeneratedFile (dcr_id result) (dcr_filename result) (dcr_type result)
          downloadUrl (optional_string_field (js "summary") data)
          (dcr_storedFilename result) in
      ret (DocumentCreated (dcr_id result) downloadUrl (dcr_filename result),
           generatedFiles ++ [generated])
  end.

(** *** The chat route: the orchestrator *)

(** [!call_id] *)
Definition call_id_of (call_id : option jsstring) : option jsstring :=
  match call_id with
  | Some (c :: rest) => Some (c :: rest)
  | _ => None
  end.

Definition push_output (call_id : jsstring) (r : ToolResult)
    (toolOutputs : list ToolOutput) : list ToolOutput :=
  toolOutputs ++ [mkToolOutput call_id (JSON_stringify (result_json r))].

(** The body of the [for] loop of [handleToolCalls], for one output item. *)
Definition handleToolCall (item : OutputItem)
    (st : list ToolOutput * list Artifact * list GeneratedFile)
    : M (list ToolOutput * list Artifact * list GeneratedFile) :=
  let '(toolOutputs, artifacts, generatedFiles) := st in
  match item with
  | FunctionCall name call_id args =>
      match call_id_of call_id with
      | None => ret st
      | Some cid =>
          if jsstring_eqb name (js "create_artifact") then
            let* (result, artifacts') :=
              executeCreateArtifact (default (js "{}") args) artifacts in
            ret (push_output cid result toolOutputs, artifacts', generatedFiles)
          else if jsstring_eqb name (js "create_document") then
            let* (result, generatedFiles') :=
              executeCreateDocument (default (js "{}") args) generatedFiles in
            ret (push_output cid result toolOutputs, artifacts, generatedFiles')
          else
            ret (push_output cid (UnknownFunction name) toolOutputs,
                 artifacts, generatedFiles)
      end
  | _ => ret st
  end.

Fixpoint handleToolItems (items : list OutputItem)
    (st : list ToolOutput * list Artifact * list GeneratedFile)
    : M (list ToolOutput * list Artifact * list GeneratedFile) :=
  match items with
  | [] => ret st
  | item :: rest =>
      let* st' := handleToolCall item st in
      handleToolItems rest st'
  end.

Definition handleToolCalls (response : Response) (artifacts : list Artifact)
    (generatedFiles : list GeneratedFile)
    : M (list ToolOutput * list Artifact * list GeneratedFile) :=
  handleToolItems (default [] (output response)) ([], artifacts, generatedFiles).

Definition could_not_be_loaded (attachment : UploadedFileMetadata) : InputPart :=
  input_text
    (js "Attachment " ++ [ch_dquote] ++ originalName attachment ++
     [ch_dquote] ++ js " could not be loaded from the server.").

Definition mapAttachmentToContentPart (attachment : UploadedFileMetadata)
    : M InputPart :=
  let fullPath := path_join [UPLOAD_DIR; att_storedFilename attachment] in
  let* read :=
    try_catch (let* fileBuffer := readFile fullPath in ret (Some fileBuffer))
              (fun _ => ret None) in
  match read with
  | None => ret (could_not_be_loaded attachment)
  | Some fileBuffer =>
      match category attachment with
      | image =>
          ret (input_image
                 (js "data:" ++ mimeType attachment ++ js ";base64," ++
                  toBase64 fileBuffer))
      | c =>
          if match c with text => true | _ => false end ||
             isTextLikeFile (Some (mimeType attachment)) (originalName attachment)
          then
            ret (input_text
                   (join [ch_lf]
                      [js "File Name: " ++ originalName attachment;
                       js "MIME Type: " ++ mimeType attachment;
                       [];
                       js "Contents:";
                       utf8_decode fileBuffer]))
          else
            ret (input_text
                   (js "Attached file " ++ [ch_dquote] ++ originalName attachment ++
                    [ch_dquote] ++ js " (" ++ mimeType attachment ++ js ", " ++
                    att_size attachment ++ js " bytes) is stored at " ++
                    publicUrl attachment ++
                    js ". Describe how you want to handle this file."))
      end
  end.

(** [Promise.all(attachments.map(mapAttachmentToContentPart))]: the parts
    in the order of the attachments. *)
Fixpoint mapAttachments (atts : list UploadedFileMetadata) : M (list InputPart) :=
  match atts with
  | [] => ret []
  | a :: rest =>
      let* part := mapAttachmentToContentPart a in
      let* parts := mapAttachments rest in
      ret (part :: parts)
  end.

Definition buildAzureMessage (message : RequestMessage) : M AzureMessage :=
  let first :=
    match role message with
    | assistant => output_text (msg_text message)
    | _ => input_text (msg_text message)
    end in
  let* attachmentParts :=
    match attachments message with
    | Some (a :: rest) => mapAttachments (a :: rest)
    | _ => ret []
    end in
  ret (mkAzureMessage (role message) (first :: attachmentParts)).

Fixpoint buildAzureInput (msgs : list RequestMessage) : M (list AzureMessage) :=
  match msgs with
  | [] => ret []
  | message :: rest =>
      let* m := buildAzureMessage message in
      let* ms := buildAzureInput rest in
      ret (m :: ms)
  end.

Fixpoint first_output_text (content : list ContentPart) : option jsstring :=
  match content with
  | [] => None
  | OutputText t :: _ => Some (default [] t)
  | OtherContent _ :: rest => first_output_text rest
  end.

Fixpoint extractAssistantText_items (items : list OutputItem) : jsstring :=
  match items with
  | [] => []
  | Message content :: rest =>
      match first_output_text (default [] content) with
      | Some t => t
      | None => extractAssistantText_items rest
      end
  | _ :: rest => extractAssistantText_items rest
  end.

Definition extractAssistantText (response : Response) : jsstring :=
  extractAssistantText_items (default [] (output response)).

Definition getFunctionTools : list FunctionTool :=
  [mkFunctionTool (js "create_artifact")
     (js "Create an interactive micro-application that can run client-side inside a sandboxed iframe. Provide the HTML, CSS, and optional JavaScript needed.")
     [(js "title", js "string", js "Short name for the artifact card.", None);
      (js "description", js "string", js "Optional description for the artifact preview.", None);
      (js "html", js "string", js "Body markup for the micro-application. Keep it self-contained.", None);
      (js "css", js "string", js "Optional CSS to style the artifact. Avoid global resets.", None);
      (js "js", js "string", js "Optional JavaScript that should run when the artifact loads.", None)]
     [js "title"; js "html"];
   mkFunctionTool (js "create_document")
     (js "Create a downloadable document (PDF, DOCX, TXT, CSV, or Markdown) from the provided textual content.")
     [(js "filename", js "string", js "Base filename for the generated document without extension.", None);
      (js "type", js "string", js "File type to generate.",
       Some [js "pdf"; js "docx"; js "txt"; js "csv"; js "md"]);
      (js "content", js "string", js "Raw textual content for the file.", None);
      (js "summary", js "string", js "Optional short description of the generated document contents.", None)]
     [js "filename"; js "type"; js "content"]].

Record RunResult : Type := mkRunResult {
  rr_response : Response;
  rr_artifacts : list Artifact;
  rr_generatedFiles : list GeneratedFile
}.

(** A computation that may also never finish: [None] says that [fuel]
    turns of the loop were not enough. *)
Definition Run (A : Type) : Type := World -> option (Outcome A).

Definition bind_run {A B : Type} (m : M A) (k : A -> Run B) : Run B :=
  fun w =>
    match m w with
    | Returned a w' => k a w'
    | Threw e w' => Some (Threw e w')
    end.

(** The [while (toolCallOutputs.length)] loop of [runResponsesCall]: one
    unit of fuel per turn. *)
Fixpoint toolLoop (fuel : nat) (response : Response) (artifacts : list Artifact)
    (generatedFiles : list GeneratedFile) (toolCallOutputs : list ToolOutput)
    : Run RunResult :=
  match toolCallOutputs with
  | [] => fun w => Some (Returned (mkRunResult response artifacts generatedFiles) w)
  | _ :: _ =>
      match fuel with
      | O => fun _ => None
      | S fuel' =>
          bind_run
            (responses_create
               (ContinueRequest defaultDeployment (response_id response)
                  toolCallOutputs))
            (fun response' =>
               bind_run (handleToolCalls response' artifacts generatedFiles)
                 (fun st =>
                    let '(toolCallOutputs', artifacts', generatedFiles') := st in
                    toolLoop fuel' response' artifacts' generatedFiles'
                      toolCallOutputs'))
      end
  end.

Definition runResponsesCall (fuel : nat) (body : ChatRequestPayload) : Run RunResult :=
  let tools := getFunctionTools in
  bind_run (buildAzureInput (messages body))
    (fun azureInput =>
       bind_run
         (responses_create
            (CreateRequest defaultDeployment azureInput
               (default (js "0.4") (temperature body)) tools))
         (fun response =>
            bind_run (handleToolCalls response [] [])
              (fun st =>
                 let '(toolCallOutputs, artifacts, generatedFiles) := st in
                 toolLoop fuel response artifacts generatedFiles toolCallOutputs))).

(** The replies of [POST /chat]. *)
Inductive ChatResponse : Type :=
  | ChatOk (message : ChatMessage)                              (* 200 *)
  | ChatBadRequest (error : jsstring) (details : option JSON)   (* 400 *)
  | ChatServerError (error : jsstring) (details : option jsstring). (* 500 *)

Definition chat_status (r : ChatResponse) : N :=
  match r with
  | ChatOk _ => 200
  | ChatBadRequest _ _ => 400
  | ChatServerError _ _ => 500
  end.

Definition env_set (v : option jsstring) : bool :=
  match v with
  | Some (_ :: _) => true
  | _ => false
  end.

(** [POST]: the reply and the world it leaves, or [None] when the tool
    loop needs more than [fuel] turns. *)
Definition POST (fuel : nat) (body : RequestBody) (w : World)
    : option (ChatResponse * World) :=
  if negb (env_set AZURE_OPENAI_API_KEY) || negb (env_set AZURE_OPENAI_ENDPOINT) then
    Some (ChatServerError
            (js "Azure OpenAI environment variables are not configured.") None, w)
  else
    match ensureDirectories w with
    | Threw e w0 => Some (ChatServerError e None, w0)   (* outside the try: the framework's 500 *)
    | Returned _ w0 =>
        match body with
        | BodyInvalid details =>
            Some (ChatBadRequest (js "Invalid request payload.") (Some details), w0)
        | BodyUnparsable =>
            Some (ChatBadRequest (js "Unable to parse request payload.") None, w0)
        | BodyValid payload =>
            match runResponsesCall fuel payload w0 with
            | None => None
            | Some (Threw e w1) =>
                Some (ChatServerError
                        (js "Failed to generate a response from Azure OpenAI.")
                        (Some e), w1)
            | Some (Returned r w1) =>
                let assistantText := extractAssistantText (rr_response r) in
                match randomUUID w1 with
                | Returned id w2 =>
                    Some (ChatOk
                            (mkChatMessage id assistant assistantText now
                               (rr_artifacts r) (rr_generatedFiles r)), w2)
                | Threw e w2 =>
                    Some (ChatServerError
                            (js "Failed to generate a response from Azure OpenAI.")
                            (Some e), w2)
                end
            end
        end
    end.

(** *** The download route ([src/app/api/generated/[file]/route.ts]) *)

Definition MIME_MAP (extension : jsstring) : option jsstring :=
  if jsstring_eqb extension (js ".pdf") then Some (js "application/pdf")
  else if jsstring_eqb extension (js ".docx") then
    Some (js "application/vnd.openxmlformats-officedocument.wordprocessingml.document")
  else if jsstring_eqb extension (js ".txt") then Some (js "text/plain; charset=utf-8")
  else if jsstring_eqb extension (js ".csv") then Some (js "text/csv; charset=utf-8")
  else if jsstring_eqb extension (js ".md") then Some (js "text/markdown; charset=utf-8")
  else None.

Inductive Body : Type :=
  | TextBody (s : jsstring)
  | FileBody (b : Buffer).

Record FileResponse : Type := mkFileResponse {
  fr_status : N;
  fr_body : Body;
  fr_headers : list (jsstring * jsstring)
}.

(** [/^[^-]+-/] *)
Definition id_prefix_re : regex :=
  [Bol; Many1 (not_char ch_hyphen); One (is_char ch_hyphen)].

Definition contentDisposition (storedFilename : jsstring) : jsstring :=
  js "attachment; filename=" ++ [ch_dquote] ++
  replace_first id_prefix_re [] storedFilename ++ [ch_dquote].

Definition GET (file : jsstring) : M FileResponse :=
  let storedFilename := file in
  let fullPath := path_join [GENERATED_DIR; storedFilename] in
  if negb (startsWith fullPath GENERATED_DIR) then
    ret (mkFileResponse 400 (TextBody (js "Invalid file path")) [])
  else
    let* found := try_catch (let* _ := stat fullPath in ret true)
                            (fun _ => ret false) in
    if negb found then
      ret (mkFileResponse 404 (TextBody (js "File not found")) [])
    else
      let extension := toLowerCase (extname storedFilename) in
      let mimeType := default (js "application/octet-stream") (MIME_MAP extension) in
      let* fileBuffer := readFile fullPath in
      ret (mkFileResponse 200 (FileBody fileBuffer)
             [(js "Content-Type", mimeType);
              (js "Content-Disposition", contentDisposition storedFilename)]).

(** *** The words of the specification, for comparison with the code *)

(** "Stripping any existing extension": an extension is a dot followed by
    at least one unit, none of them a dot or a slash, at the end of the
    name. *)
Definition is_extension_body (t : jsstring) : bool :=
  truthy t && forallb (fun c => negb (jschar_eqb c ch_slash || jschar_eqb c ch_dot)) t.

Fixpoint spec_strip_extension (name : jsstring) : jsstring :=
  match name with
  | [] => []
  | c :: rest =>
      if jschar_eqb c ch_dot && is_extension_body rest then []
      else c :: spec_strip_extension rest
  end.

(** "Replacing every character outside [[A-Za-z0-9._-]] with [_]". *)
Definition spec_safe_unit (c : jschar) : jschar :=
  if is_upper c || is_lower c || is_digit c ||
     (c =? ch_dot) || (c =? ch_underscore) || (c =? ch_hyphen)
  then c else ch_underscore.

(** "Truncating to 120 characters (falling back to a fixed default name
    if the result is empty)". *)
Definition spec_base_name (filename : jsstring) : jsstring :=
  match take 120 (map spec_safe_unit (spec_strip_extension filename)) with
  | [] => js "azure-ai-document"
  | b => b
  end.

Definition spec_type_name (t : DocumentType) : jsstring :=
  match t with
  | pdf => js "pdf"
  | docx => js "docx"
  | txt => js "txt"
  | csv => js "csv"
  | md => js "md"
  end.

(** "Append the type's canonical extension; prefix with a freshly
    generated unique id and a separator". *)
Definition spec_stored_name (id filename : jsstring) (t : DocumentType) : jsstring :=
  id ++ [ch_hyphen] ++ spec_base_name filename ++ [ch_dot] ++ spec_type_name t.

(** The raw text formats of [create_document]. *)
Definition is_raw_text_type (t : DocumentType) : bool :=
  match t with
  | txt | csv | md => true
  | pdf | docx => false
  end.

(** A function call that carries a call id is answered, whatever it
    names; the specification calls a call dispatchable when, moreover,
    it names one of the two declared tools. *)
Definition answerable (item : OutputItem) : option jsstring :=
  match item with
  | FunctionCall _ call_id _ => call_id_of call_id
  | _ => None
  end.

Definition answerable_ids (response : Response) : list jsstring :=
  omap answerable (default [] (output response)).

Definition dispatchable (item : OutputItem) : bool :=
  match item with
  | FunctionCall name call_id _ =>
      match call_id_of call_id with
      | Some _ =>
          jsstring_eqb name (js "create_artifact") ||
          jsstring_eqb name (js "create_document")
      | None => false
      end
  | _ => false
  end.

Definition dispatchable_calls (response : Response) : list OutputItem :=
  filter (fun item => dispatchable item = true) (default [] (output response)).

(** The translation of a message: its text first, then one part per
    attachment, in order. *)
Definition first_part (m : RequestMessage) : InputPart :=
  match role m with
  | assistant => output_text (msg_text m)
  | _ => input_text (msg_text m)
  end.

Definition translated (w : World) (m : RequestMessage) (am : AzureMessage) : Prop :=
  am_role am = role m
  /\ exists parts,
       am_content am = first_part m :: parts
       /\ Forall2 (fun a part => mapAttachmentToContentPart a w = Returned part w)
            (default [] (attachments m)) parts.

(** The request that opens a call. *)
Definition first_request (body : ChatRequestPayload) (input : list AzureMessage)
    : BackendRequest :=
  CreateRequest defaultDeployment input (default (js "0.4") (temperature body))
    getFunctionTools.


(** The argument schema of a declared tool. *)
Definition tool_schema (name : jsstring) : object_schema :=
  if jsstring_eqb name (js "create_artifact") then artifactArgsSchema
  else documentArgsSchema.

(** The answers fed back to the model for a call that could not run. *)
Definition unknown_function_answer (call_id name : jsstring) : ToolOutput :=
  mkToolOutput call_id
    (JSON_stringify (JObj [(js "error", JStr (js "Unknown function: " ++ name))])).

Definition failure_answer (call_id error : jsstring) (errorDetail : FieldErrors)
    : ToolOutput :=
  mkToolOutput call_id
    (JSON_stringify
       (JObj [(js "success", JBool false); (js "error", JStr error);
              (js "errorDetail", fieldErrors_json errorDetail)])).

(** A segment of a normalised path: not empty, without separator, and
    neither [.] nor [..]. *)
Definition plain_segment (s : jsstring) : bool :=
  truthy s && forallb (not_char ch_slash) s &&
  negb (jsstring_eqb s dot) && negb (jsstring_eqb s dotdot).

(** An absolute path in normal form, as [process.cwd()] gives it. *)
Definition absolute_path (segs : list jsstring) : jsstring :=
  slash ++ join slash segs.

(** *** The upload route ([src/app/api/upload/route.ts]) *)

(** The body of the [for] loop of the upload route, for an entry that is
    a [File]. *)
Definition uploadFile (entry : File) : M UploadedFileMetadata :=
  let safeOriginalName := basename (file_name entry) in
  let safeName := replace_all unsafe_re (js "_") safeOriginalName in
  let* fileId := randomUUID in
  let storedFilename := fileId ++ js "-" ++ safeName in
  let buffer := file_bytes entry in
  let* _ := saveBuffer buffer UPLOAD_DIR storedFilename in
  let category :=
    if isImage (Some (file_type entry)) then image
    else if isTextLikeFile (Some (file_type entry)) safeOriginalName then text
    else other in
  let textPreview :=
    match category with
    | text =>
        let decoded := utf8_decode buffer in
        Some (if MAX_TEXT_PREVIEW <? N.of_nat (length decoded)
              then take (N.to_nat MAX_TEXT_PREVIEW) decoded ++ truncated_marker
              else decoded)
    | _ => None
    end in
  ret (mkUploadedFileMetadata fileId safeOriginalName storedFilename
         (file_type entry) (file_size entry)
         (js "/uploads/" ++ storedFilename) category textPreview).

Fixpoint uploadEntries (fileEntries : list FormEntry)
    (uploads : list UploadedFileMetadata) : M (list UploadedFileMetadata) :=
  match fileEntries with
  | [] => ret uploads
  | TextEntry _ :: rest => uploadEntries rest uploads
  | FileEntry entry :: rest =>
      let* metadata := uploadFile entry in
      uploadEntries rest (uploads ++ [metadata])
  end.

(** [POST] of the upload route, on the entries of the [files] field. *)
Definition upload_POST (fileEntries : list FormEntry) : M UploadResponse :=
  match fileEntries with
  | [] => ret (UploadBadRequest (js "No files received under the `files` field."))
  | _ :: _ =>
      let* _ := ensureDirectories in
      let* uploads := uploadEntries fileEntries [] in
      ret (UploadCreated uploads)
  end.

(** *** Notions used to state what the routes do *)

(** The units that pass [/[^a-zA-Z0-9._-]/g] untouched. *)
Definition safe_name (s : jsstring) : Prop :=
  Forall (fun c => unsafe_unit c = false) s.

(** The requests of a call after the first one are continuations, each
    answering the reply to the requests before it: it names that reply
    and carries one output per answerable call of it. *)
Definition threaded (before conts : list BackendRequest) : Prop :=
  forall pre req post,
    conts = pre ++ req :: post ->
    exists reply outs,
      req = ContinueRequest defaultDeployment (response_id reply) outs
      /\ backend (before ++ pre) = inl reply
      /\ map to_call_id outs = answerable_ids reply
      /\ outs <> [].

(** A generated file that can be fetched: its address is that of the
    download route for its stored name, and the store holds a file of
    that name in the generated-files directory. *)
Definition downloadable (w : World) (g : GeneratedFile) : Prop :=
  downloadUrl g = js "/api/generated/" ++ gf_storedFilename g
  /\ is_Some (fs w !! path_join [GENERATED_DIR; gf_storedFilename g]).

(** The store of [w'] holds every file of the store of [w]. *)
Definition keeps_files (w w' : World) : Prop :=
  forall p, is_Some (fs w !! p) -> is_Some (fs w' !! p).

(** *** The request schema of the chat route

    A schema is the function from a value to what [parse] returns for it,
    [None] when it throws a [ZodError].  Numbers are left to the
    library. *)

Variable zod_number : option N -> option N -> jsstring -> option number.
                       (* z.number() with these bounds, on the lexeme of a JSON number:
                          the number, or [None] when it is refused *)
Variable zod_flatten : JSON -> JSON.
                       (* error.flatten() of the request schema on a value it refuses *)

(** [z.string()] and [z.string().min(n)]; [None] stands for [undefined]. *)
Definition zString (min : nat) (v : option JSON) : option jsstring :=
  match v with
  | Some (JStr s) => if (length s <? min)%nat then None else Some s
  | _ => None
  end.

(** [z.number()], [z.number().min(a).max(b)] *)
Definition zNumber (min max : option N) (v : option JSON) : option number :=
  match v with
  | Some (JNum lexeme) => zod_number min max lexeme
  | _ => None
  end.

(** [z.union([z.literal(a), ...])], each literal with the value it stands
    for. *)
Fixpoint zLiterals {A : Type} (options : list (jsstring * A)) (v : option JSON)
    : option A :=
  match options with
  | [] => None
  | (literal, a) :: rest =>
      match v with
      | Some (JStr s) => if jsstring_eqb s literal then Some a else zLiterals rest v
      | _ => None
      end
  end.

(** [schema.optional()] *)
Definition zOptional {A : Type} (inner : option JSON -> option A) (v : option JSON)
    : option (option A) :=
  match v with
  | None => Some None
  | Some _ => Some <$> inner v
  end.

(** [z.array(schema)] and [z.array(schema).min(n)] *)
Definition zArray {A : Type} (min : nat) (element : JSON -> option A) (v : option JSON)
    : option (list A) :=
  match v with
  | Some (JArr items) => if (length items <? min)%nat then None else mapM element items
  | _ => None
  end.

Definition attachmentSchema (v : JSON) : option UploadedFileMetadata :=
  match v with
  | JObj fields =>
      id ← zString 0 (field (js "id") fields);
      originalName ← zString 0 (field (js "originalName") fields);
      storedFilename ← zString 0 (field (js "storedFilename") fields);
      mimeType ← zString 0 (field (js "mimeType") fields);
      size ← zNumber None None (field (js "size") fields);
      publicUrl ← zString 0 (field (js "publicUrl") fields);
      category ← zLiterals [(js "image", image); (js "text", text); (js "other", other)]
                   (field (js "category") fields);
      textPreview ← zOptional (zString 0) (field (js "textPreview") fields);
      Some (mkUploadedFileMetadata id originalName storedFilename mimeType size
              publicUrl category textPreview)
  | _ => None
  end.

Definition messageSchema (v : JSON) : option RequestMessage :=
  match v with
  | JObj fields =>
      id ← zString 0 (field (js "id") fields);
      role ← zLiterals [(js "system", system); (js "user", user);
                        (js "assistant", assistant)]
               (field (js "role") fields);
      text ← zString 1 (field (js "text") fields);
      attachments ← zOptional (zArray 0 attachmentSchema) (field (js "attachments") fields);
      Some (mkRequestMessage id role text attachments)
  | _ => None
  end.

Definition requestSchema (v : JSON) : option ChatRequestPayload :=
  match v with
  | JObj fields =>
      messages ← zArray 1 messageSchema (field (js "messages") fields);
      temperature ← zOptional (zNumber (Some 0) (Some 2)) (field (js "temperature") fields);
      Some (mkChatRequestPayload messages temperature)
  | _ => None
  end.

(** [requestSchema.parse(await request.json())], as [POST] takes it:
    [json] is [None] when [request.json()] throws. *)
Definition request_body (json : option JSON) : RequestBody :=
  match json with
  | None => BodyUnparsable
  | Some v =>
      match requestSchema v with
      | Some payload => BodyValid payload
      | None => BodyInvalid (zod_flatten v)
      end
  end.

(** The chat route behind [fetch]: a reply with status 200 is read, any
    other status is not ok. *)
Definition answered (reply : ChatResponse * World) : ChatFetch :=
  match fst reply with
  | ChatOk message => FetchOk (received message)
  | _ => FetchNotOk
  end.

(* =================================================================== *)
(** ** Properties *)
(* =================================================================== *)

(** *** Regular expressions *)

Lemma search_here re bos s r :
  match_here re bos s = Some r -> search re bos s = Some ([], r).
Proof. intros H. destruct s; simpl; rewrite H; reflexivity. Qed.

(** A non-empty run of [p] stopped by a unit outside [p]: the greedy
    repetition takes the whole run. *)
Lemma many1_run p k g c t r :
  g <> [] -> Forall (fun x => p x = true) g -> p c = false ->
  k (c :: t) = Some r -> many1 p k (g ++ c :: t) = Some r.
Proof.
  intros Hne Hall Hc Hk. induction Hall as [|x g Hx Hall IH]; [congruence|].
  simpl. rewrite Hx. destruct g as [|y g'].
  - simpl. rewrite Hc. exact Hk.
  - rewrite IH by discriminate. reflexivity.
Qed.

(** [p+$] matches exactly a non-empty text made of [p]. *)
Lemma many1_eol p bos t :
  many1 p (match_here [Eol] bos) t =
  if truthy t && forallb p t then Some [] else None.
Proof.
  induction t as [|c t IH]; [reflexivity|].
  cbn [many1 truthy forallb andb]. destruct (p c); [|reflexivity].
  rewrite IH. destruct t as [|d t']; [reflexivity|].
  cbn [truthy andb]. destruct (forallb p (d :: t')); reflexivity.
Qed.

Lemma strip_extension_spec filename :
  replace_first extension_re [] filename = spec_strip_extension filename.
Proof.
  unfold replace_first. generalize true as bos.
  induction filename as [|c rest IH]; intros bos; [reflexivity|].
  cbn [search spec_strip_extension].
  assert (Hm : match_here extension_re bos (c :: rest) =
               if jschar_eqb c ch_dot && is_extension_body rest then Some [] else None).
  { unfold extension_re.
    lazymatch goal with
    | |- match_here (One ?p1 :: Many1 ?p2 :: ?re) _ _ = _ =>
        change (match_here (One p1 :: Many1 p2 :: re) bos (c :: rest))
          with (if p1 c then many1 p2 (match_here re false) rest else None)
    end.
    unfold is_char. destruct (jschar_eqb c ch_dot); [|reflexivity].
    rewrite many1_eol. reflexivity. }
  rewrite Hm.
  destruct (jschar_eqb c ch_dot && is_extension_body rest); [reflexivity|].
  specialize (IH false). destruct (search extension_re false rest) as [[pre post]|].
  - cbn. cbn in IH. congruence.
  - congruence.
Qed.

Lemma unsafe_unit_spec c :
  (if unsafe_unit c then ch_underscore else c) = spec_safe_unit c.
Proof.
  unfold unsafe_unit, spec_safe_unit, jschar_eqb, ch_dot, ch_underscore, ch_hyphen.
  destruct (is_lower c), (is_upper c), (is_digit c), (c =? 46), (c =? 95), (c =? 45);
    reflexivity.
Qed.

(** A single class under the [g] flag rewrites unit by unit. *)
Lemma replace_go_class p x bos s :
  replace_go [One p] [x] bos 0 s = map (fun c => if p c then x else c) s.
Proof.
  revert bos. induction s as [|c s IH]; intros bos; [reflexivity|].
  cbn [replace_go match_here map]. destruct (p c).
  - cbn [length]. replace (length s <? S (length s))%nat with true
      by (symmetry; apply Nat.ltb_lt; lia).
    replace (S (length s) - length s - 1)%nat with 0%nat by lia.
    rewrite IH. reflexivity.
  - rewrite IH. reflexivity.
Qed.

Lemma replace_unsafe_spec s :
  replace_all unsafe_re (js "_") s = map spec_safe_unit s.
Proof.
  unfold replace_all, unsafe_re. change (js "_") with [ch_underscore].
  rewrite replace_go_class. apply map_ext. intros c. apply unsafe_unit_spec.
Qed.

Lemma safeBase_spec filename : safeBase filename = spec_base_name filename.
Proof.
  unfold safeBase, spec_base_name.
  rewrite strip_extension_spec, replace_unsafe_spec.
  destruct (take 120 (map spec_safe_unit (spec_strip_extension filename)));
    reflexivity.
Qed.

Lemma EXTENSION_MAP_spec t : EXTENSION_MAP t = [ch_dot] ++ spec_type_name t.
Proof. destruct t; reflexivity. Qed.

(** *** Identifiers *)

Lemma length_nibbles k r : length (nibbles k r) = k.
Proof.
  revert r; induction k as [|k IH]; intros r; simpl; [reflexivity|].
  rewrite length_app, IH; simpl; lia.
Qed.

Lemma length_uuid_digits r : length (uuid_digits r) = 32%nat.
Proof.
  unfold uuid_digits. rewrite length_alter, length_insert. apply length_nibbles.
Qed.

Lemma hex_digit_not_hyphen n : hex_digit n <> ch_hyphen.
Proof.
  unfold hex_digit, ch_hyphen. destruct (N.ltb_spec n 10); lia.
Qed.

(** An identifier is eight units without a hyphen, a hyphen, and 27 more
    units. *)
Lemma uuid_string_shape r :
  exists g rest, uuid_string r = g ++ ch_hyphen :: rest
    /\ length g = 8%nat /\ Forall (fun c => c <> ch_hyphen) g
    /\ length rest = 27%nat.
Proof.
  unfold uuid_string.
  set (h := map hex_digit (uuid_digits r)).
  assert (Hlen : length h = 32%nat)
    by (unfold h; rewrite length_map; apply length_uuid_digits).
  eexists (take 8 h), _. split; [reflexivity|]. split; [|split].
  - rewrite length_take; lia.
  - apply Forall_take. unfold h. apply Forall_map, Forall_forall.
    intros n _. apply hex_digit_not_hyphen.
  - cbn [app]. repeat (rewrite length_app || cbn [length]).
    rewrite !length_take, !length_drop. lia.
Qed.

Lemma strip_id_prefix g t :
  g <> [] -> Forall (fun c => c <> ch_hyphen) g ->
  replace_first id_prefix_re [] (g ++ ch_hyphen :: t) = t.
Proof.
  intros Hne Hall. unfold replace_first, id_prefix_re.
  rewrite (search_here _ _ _ t); [reflexivity|].
  simpl. apply many1_run; try assumption; try reflexivity.
  eapply Forall_impl; [exact Hall|]. intros c Hc. unfold not_char, jschar_eqb.
  apply negb_true_iff, N.eqb_neq. exact Hc.
Qed.

(** *** Strings *)

Lemma jsstring_eqb_eq a b : jsstring_eqb a b = true <-> a = b.
Proof.
  revert b. induction a as [|x a IH]; intros [|y b]; cbn [jsstring_eqb];
    try (split; [discriminate|discriminate]); [split; reflexivity|].
  unfold jschar_eqb. rewrite andb_true_iff, N.eqb_eq, IH.
  split; [intros [-> ->]; reflexivity|intros [= -> ->]; split; reflexivity].
Qed.

Lemma jsstring_eqb_neq a b : a <> b -> jsstring_eqb a b = false.
Proof.
  intros Hne. destruct (jsstring_eqb a b) eqn:E; [|reflexivity].
  apply jsstring_eqb_eq in E. contradiction.
Qed.

Lemma startsWith_app s t : startsWith s t = true <-> exists post, s = t ++ post.
Proof.
  revert s. induction t as [|y t IH]; intros s.
  - destruct s; cbn; split; eauto.
  - destruct s as [|x s]; cbn [startsWith].
    + split; [discriminate|]. intros [post H]. discriminate H.
    + unfold jschar_eqb. rewrite andb_true_iff, N.eqb_eq, IH. split.
      * intros [-> [post ->]]. exists post. reflexivity.
      * intros [post [= -> ->]]. eauto.
Qed.

Lemma includesb_includes s t : includesb s t = true <-> includes s t.
Proof.
  unfold includes. induction s as [|x s IH].
  - cbn [includesb]. rewrite orb_false_r, startsWith_app. split.
    + intros [post H]. exists [], post. exact H.
    + intros (pre & post & H). destruct pre; [eauto|discriminate H].
  - cbn [includesb]. rewrite orb_true_iff, startsWith_app, IH. split.
    + intros [[post H]|(pre & post & H)].
      * exists [], post. exact H.
      * exists (x :: pre), post. rewrite H. reflexivity.
    + intros (pre & post & H). destruct pre as [|y pre].
      * left. eauto.
      * right. injection H as _ H. eauto.
Qed.

Lemma join_includes sep parts x : In x parts -> includes (join sep parts) x.
Proof.
  induction parts as [|p parts IH]; [intros []|].
  intros [->|Hin].
  - destruct parts as [|q parts].
    + exists [], []. cbn. rewrite app_nil_r. reflexivity.
    + exists [], (sep ++ join sep (q :: parts)). reflexivity.
  - destruct parts as [|q parts]; [destruct Hin|].
    destruct (IH Hin) as (pre & post & H).
    exists (p ++ sep ++ pre), post. cbn [join] in *. rewrite H.
    rewrite <- !app_assoc. reflexivity.
Qed.

(** *** Paths *)

Lemma segments_not_nil p : segments p <> [].
Proof.
  induction p as [|c p IH]; [discriminate|].
  cbn [segments]. destruct (jschar_eqb c ch_slash); [discriminate|].
  destruct (segments p); [congruence|discriminate].
Qed.

Lemma segments_slash_free s :
  forallb (not_char ch_slash) s = true -> segments s = [s].
Proof.
  induction s as [|c s IH]; [reflexivity|].
  cbn [forallb segments]. unfold not_char at 1. intros H.
  apply andb_prop in H as [Hc Hs]. apply negb_true_iff in Hc. rewrite Hc, (IH Hs).
  reflexivity.
Qed.

(** Splitting distributes over a separator. *)
Lemma segments_app a b :
  segments (a ++ ch_slash :: b) = segments a ++ segments b.
Proof.
  induction a as [|c a IH]; [reflexivity|].
  cbn [app segments]. destruct (jschar_eqb c ch_slash).
  - rewrite IH. reflexivity.
  - rewrite IH. pose proof (segments_not_nil a) as Hne.
    destruct (segments a); [congruence|reflexivity].
Qed.

Lemma plain_segment_slash_free s :
  plain_segment s = true -> forallb (not_char ch_slash) s = true.
Proof.
  unfold plain_segment. intros H.
  apply andb_prop in H as [H _]. apply andb_prop in H as [H _].
  apply andb_prop in H as [_ H]. exact H.
Qed.

Lemma segments_join segs :
  segs <> [] -> Forall (fun s => plain_segment s = true) segs ->
  segments (join slash segs) = segs.
Proof.
  intros Hne Hall. induction Hall as [|s segs Hs Hall IH]; [congruence|].
  destruct segs as [|t segs].
  - cbn [join]. apply segments_slash_free, plain_segment_slash_free, Hs.
  - change (join slash (s :: t :: segs))
      with (s ++ ch_slash :: join slash (t :: segs)).
    rewrite segments_app.
    rewrite segments_slash_free by (apply plain_segment_slash_free, Hs).
    rewrite IH by discriminate. reflexivity.
Qed.

Lemma normalize_step_plain above res s :
  plain_segment s = true -> normalize_step above res s = s :: res.
Proof.
  unfold plain_segment, normalize_step. intros H.
  apply andb_prop in H as [H Hdd]. apply andb_prop in H as [H Hd].
  apply andb_prop in H as [Ht _].
  apply negb_true_iff in Hd, Hdd. rewrite Hd, Hdd.
  destruct s; [discriminate Ht|reflexivity].
Qed.

Lemma normalize_plain above segs res :
  Forall (fun s => plain_segment s = true) segs ->
  fold_left (normalize_step above) segs res = rev segs ++ res.
Proof.
  intros Hall. revert res. induction Hall as [|s segs Hs Hall IH]; intros res.
  - reflexivity.
  - cbn [fold_left rev]. rewrite (normalize_step_plain _ _ _ Hs), IH, <- app_assoc.
    reflexivity.
Qed.

Lemma join_snoc segs s :
  segs <> [] -> join slash (segs ++ [s]) = join slash segs ++ slash ++ s.
Proof.
  induction segs as [|t segs IH]; [congruence|]. intros _.
  destruct segs as [|u segs]; [reflexivity|].
  change (join slash ((t :: u :: segs) ++ [s]))
    with (t ++ slash ++ join slash ((u :: segs) ++ [s])).
  rewrite IH by discriminate.
  change (join slash (t :: u :: segs)) with (t ++ slash ++ join slash (u :: segs)).
  rewrite <- !app_assoc. reflexivity.
Qed.

Lemma join_not_nil segs :
  segs <> [] -> Forall (fun s => plain_segment s = true) segs -> join slash segs <> [].
Proof.
  intros Hne Hall. destruct Hall as [|s segs Hs Hall]; [congruence|].
  unfold plain_segment in Hs. destruct s as [|c s]; [discriminate Hs|].
  destruct segs; discriminate.
Qed.

Lemma endsWith_snoc p c : endsWith (p ++ [c]) slash = jschar_eqb c ch_slash.
Proof.
  unfold endsWith. rewrite rev_app_distr. cbn [rev app slash startsWith].
  destruct (rev p); rewrite andb_true_r; reflexivity.
Qed.

Lemma last_not_slash segs :
  segs <> [] -> Forall (fun s => plain_segment s = true) segs ->
  endsWith (absolute_path segs) slash = false.
Proof.
  intros Hne Hall. unfold absolute_path.
  destruct (exists_last Hne) as (init & s & ->).
  apply Forall_app in Hall as [_ Hs]. apply Forall_inv in Hs.
  pose proof (plain_segment_slash_free _ Hs) as Hfree.
  unfold plain_segment in Hs. destruct (exists_last (l := s)) as (s0 & c & ->).
  { intros ->. discriminate Hs. }
  rewrite forallb_app in Hfree. apply andb_prop in Hfree as [_ Hc].
  cbn [forallb] in Hc. rewrite andb_true_r in Hc.
  unfold not_char in Hc. apply negb_true_iff in Hc.
  destruct init as [|t init].
  - cbn [app join]. rewrite app_assoc, endsWith_snoc. exact Hc.
  - rewrite join_snoc by discriminate.
    rewrite !app_assoc, endsWith_snoc. exact Hc.
Qed.

Lemma segments_slashes k p :
  segments (repeat ch_slash k ++ p) = repeat [] k ++ segments p.
Proof.
  induction k as [|k IH]; [reflexivity|].
  cbn [repeat app segments]. change (jschar_eqb ch_slash ch_slash) with true.
  cbv iota. rewrite IH. reflexivity.
Qed.

Lemma normalize_empty_segments above k segs res :
  fold_left (normalize_step above) (repeat [] k ++ segs) res =
  fold_left (normalize_step above) segs res.
Proof. induction k as [|k IH]; [reflexivity|exact IH]. Qed.

Lemma endsWith_absolute k segs :
  segs <> [] -> Forall (fun s => plain_segment s = true) segs ->
  endsWith (repeat ch_slash (S k) ++ join slash segs) slash = false.
Proof.
  intros Hne Hall. pose proof (last_not_slash segs Hne Hall) as H.
  unfold absolute_path in H.
  pose proof (join_not_nil segs Hne Hall) as Hj.
  destruct (exists_last Hj) as (init & c & Hic). rewrite Hic in *.
  rewrite app_assoc, endsWith_snoc in H. rewrite app_assoc, endsWith_snoc. exact H.
Qed.

(** An absolute path in normal form is its own normal form, and so is it
    with its separator repeated. *)
Lemma normalize_slashed k segs :
  Forall (fun s => plain_segment s = true) segs ->
  normalize (repeat ch_slash (S k) ++ join slash segs) = absolute_path segs.
Proof.
  intros Hall. unfold normalize.
  assert (Habs : startsWith (repeat ch_slash (S k) ++ join slash segs) slash = true)
    by (apply startsWith_app; eexists; reflexivity).
  rewrite Habs. cbn [negb]. unfold normalizeString.
  rewrite segments_slashes, normalize_empty_segments.
  destruct segs as [|s segs].
  - cbn [join]. rewrite app_nil_r. cbn [repeat app].
    replace (fold_left (normalize_step false) (segments []) []) with (@nil (list N))
      by reflexivity.
    reflexivity.
  - rewrite segments_join by (discriminate || exact Hall).
    rewrite normalize_plain by exact Hall. rewrite app_nil_r, rev_involutive.
    pose proof (join_not_nil (s :: segs) ltac:(discriminate) Hall) as Hne.
    rewrite (endsWith_absolute k (s :: segs) ltac:(discriminate) Hall).
    cbn [repeat app]. unfold absolute_path.
    destruct (join slash (s :: segs)); [congruence|]. rewrite app_nil_r. reflexivity.
Qed.

Lemma normalize_absolute segs :
  Forall (fun s => plain_segment s = true) segs ->
  normalize (absolute_path segs) = absolute_path segs.
Proof. apply (normalize_slashed 0). Qed.

(** Joining a plain segment to an absolute path appends it. *)
Lemma path_join_plain segs s :
  Forall (fun s => plain_segment s = true) segs -> plain_segment s = true ->
  path_join [absolute_path segs; s] = absolute_path (segs ++ [s]).
Proof.
  intros Hall Hs. unfold path_join.
  assert (Hs' : truthy s = true).
  { unfold plain_segment in Hs. destruct s; [discriminate Hs|reflexivity]. }
  assert (Hfilter : filter (fun a => truthy a = true) [absolute_path segs; s] =
                    [absolute_path segs; s]).
  { cbn [filter list_filter]. unfold absolute_path at 1. cbn [slash app truthy].
    rewrite decide_True by reflexivity. rewrite decide_True by exact Hs'. reflexivity. }
  rewrite Hfilter. cbn [join].
  assert (Hall' : Forall (fun s => plain_segment s = true) (segs ++ [s])).
  { apply Forall_app. split; [exact Hall|constructor; [exact Hs|constructor]]. }
  destruct segs as [|t segs].
  - change (absolute_path ([] ++ [s])) with (absolute_path [s]).
    rewrite <- (normalize_slashed 1 [s] Hall'). reflexivity.
  - rewrite <- (normalize_slashed 0 _ Hall'). f_equal.
    unfold absolute_path. rewrite join_snoc by discriminate.
    rewrite <- !app_assoc. reflexivity.
Qed.

(** *** UTF-8 *)

(** Linear arithmetic with division and remainder by constants. *)
Ltac divlia :=
  repeat match goal with
         | H : ?T |- _ =>
             lazymatch T with
             | N => fail
             | nat => fail
             | _ => lazymatch type of T with Prop => fail | _ => clear H end
             end
         end;
  zify; Z.to_euclidean_division_equations; lia.

Lemma in_range_true lo hi c : lo <= c <= hi -> in_range lo hi c = true.
Proof.
  intros [H1 H2]. unfold in_range.
  rewrite (proj2 (N.leb_le lo c) H1), (proj2 (N.leb_le c hi) H2). reflexivity.
Qed.

Lemma in_range_false lo hi c : c < lo \/ hi < c -> in_range lo hi c = false.
Proof.
  intros H. unfold in_range.
  destruct (N.leb_spec lo c), (N.leb_spec c hi); try reflexivity; divlia.
Qed.

Lemma utf8_decode_1 c rest :
  c < 128 ->
  utf8_decode_from Idle (c :: rest) = c :: utf8_decode_from Idle rest.
Proof.
  intros H. cbn [utf8_decode_from]. unfold utf8_lead.
  rewrite (proj2 (N.ltb_lt c 128) H). reflexivity.
Qed.

Lemma utf8_decode_2 b1 b2 rest :
  194 <= b1 <= 223 -> 128 <= b2 <= 191 ->
  utf8_decode_from Idle (b1 :: b2 :: rest) =
  utf16_units (b1 mod 32 * 64 + b2 mod 64) ++ utf8_decode_from Idle rest.
Proof.
  intros H1 H2. cbn [utf8_decode_from].
  assert (Hlead : utf8_lead b1 = ([], Pending (b1 mod 32) 1 128 191)).
  { unfold utf8_lead. rewrite (proj2 (N.ltb_ge b1 128)) by divlia.
    rewrite (in_range_true 194 223) by divlia. reflexivity. }
  rewrite Hlead. cbn [fst snd app]. rewrite (in_range_true 128 191 b2) by divlia.
  reflexivity.
Qed.

Lemma utf8_decode_3 b1 b2 b3 rest :
  224 <= b1 <= 239 -> 128 <= b2 <= 191 ->
  (b1 = 224 -> 160 <= b2) -> (b1 = 237 -> b2 <= 159) ->
  128 <= b3 <= 191 ->
  utf8_decode_from Idle (b1 :: b2 :: b3 :: rest) =
  utf16_units ((b1 mod 16 * 64 + b2 mod 64) * 64 + b3 mod 64) ++
  utf8_decode_from Idle rest.
Proof.
  intros H1 H2 Hlo Hhi H3. cbn [utf8_decode_from].
  assert (Hlead : utf8_lead b1 =
                  ([], Pending (b1 mod 16) 2 (if b1 =? 224 then 160 else 128)
                                             (if b1 =? 237 then 159 else 191))).
  { unfold utf8_lead. rewrite (proj2 (N.ltb_ge b1 128)) by divlia.
    rewrite (in_range_false 194 223) by divlia.
    rewrite (in_range_true 224 239) by divlia. reflexivity. }
  rewrite Hlead. cbn [fst snd app].
  assert (Hr : in_range (if b1 =? 224 then 160 else 128)
                        (if b1 =? 237 then 159 else 191) b2 = true).
  { destruct (N.eqb_spec b1 224), (N.eqb_spec b1 237); apply in_range_true; divlia. }
  rewrite Hr. rewrite (in_range_true 128 191 b3) by divlia. reflexivity.
Qed.

Lemma utf8_decode_4 b1 b2 b3 b4 rest :
  240 <= b1 <= 244 -> 128 <= b2 <= 191 ->
  (b1 = 240 -> 144 <= b2) -> (b1 = 244 -> b2 <= 143) ->
  128 <= b3 <= 191 -> 128 <= b4 <= 191 ->
  utf8_decode_from Idle (b1 :: b2 :: b3 :: b4 :: rest) =
  utf16_units (((b1 mod 8 * 64 + b2 mod 64) * 64 + b3 mod 64) * 64 + b4 mod 64) ++
  utf8_decode_from Idle rest.
Proof.
  intros H1 H2 Hlo Hhi H3 H4. cbn [utf8_decode_from].
  assert (Hlead : utf8_lead b1 =
                  ([], Pending (b1 mod 8) 3 (if b1 =? 240 then 144 else 128)
                                            (if b1 =? 244 then 143 else 191))).
  { unfold utf8_lead. rewrite (proj2 (N.ltb_ge b1 128)) by divlia.
    rewrite (in_range_false 194 223) by divlia.
    rewrite (in_range_false 224 239) by divlia.
    rewrite (in_range_true 240 244) by divlia. reflexivity. }
  rewrite Hlead. cbn [fst snd app].
  assert (Hr : in_range (if b1 =? 240 then 144 else 128)
                        (if b1 =? 244 then 143 else 191) b2 = true).
  { destruct (N.eqb_spec b1 240), (N.eqb_spec b1 244); apply in_range_true; divlia. }
  rewrite Hr. rewrite (in_range_true 128 191 b3) by divlia.
  rewrite (in_range_true 128 191 b4) by divlia. reflexivity.
Qed.

Lemma is_high_surrogate_iff c : is_high_surrogate c = true <-> 55296 <= c <= 56319.
Proof.
  unfold is_high_surrogate, in_range. rewrite andb_true_iff, !N.leb_le. reflexivity.
Qed.

Lemma is_low_surrogate_iff c : is_low_surrogate c = true <-> 56320 <= c <= 57343.
Proof.
  unfold is_low_surrogate, in_range. rewrite andb_true_iff, !N.leb_le. reflexivity.
Qed.

Lemma utf16_units_small cp : cp < 65536 -> utf16_units cp = [cp].
Proof. intros H. unfold utf16_units. rewrite (proj2 (N.ltb_lt cp 65536) H). reflexivity. Qed.

Lemma utf16_units_pair c d :
  55296 <= c <= 56319 -> 56320 <= d <= 57343 ->
  utf16_units (65536 + (c - 55296) * 1024 + (d - 56320)) = [c; d].
Proof.
  intros Hc Hd. unfold utf16_units.
  rewrite (proj2 (N.ltb_ge _ 65536)) by divlia. f_equal; [divlia|f_equal; divlia].
Qed.

(** Decoding the encoding of a well-formed string gives the string back. *)
Lemma utf8_roundtrip_bounded n s :
  (length s <= n)%nat -> well_formed s = true -> utf8_decode (utf8_encode s) = s.
Proof.
  unfold utf8_decode. revert s. induction n as [|n IH]; intros s Hlen Hwf.
  { destruct s; [reflexivity|cbn in Hlen; lia]. }
  destruct s as [|c s]; [reflexivity|].
  cbn [length] in Hlen. cbn [utf8_encode well_formed] in *.
  destruct (N.ltb_spec c 128) as [H128|H128].
  { destruct (is_high_surrogate c) eqn:Hh; [apply is_high_surrogate_iff in Hh; divlia|].
    apply andb_prop in Hwf as [_ Hwf].
    rewrite utf8_decode_1 by exact H128. f_equal. apply IH; [lia|exact Hwf]. }
  destruct (N.ltb_spec c 2048) as [H2048|H2048].
  { destruct (is_high_surrogate c) eqn:Hh; [apply is_high_surrogate_iff in Hh; divlia|].
    apply andb_prop in Hwf as [_ Hwf].
    rewrite utf8_decode_2 by divlia.
    replace ((192 + c / 64) mod 32 * 64 + (128 + c mod 64) mod 64) with c by divlia.
    rewrite utf16_units_small by divlia. cbn [app]. f_equal. apply IH; [lia|exact Hwf]. }
  destruct (is_high_surrogate c) eqn:Hh.
  { apply is_high_surrogate_iff in Hh. destruct s as [|d s]; [discriminate Hwf|].
    apply andb_prop in Hwf as [Hd Hwf]. rewrite Hd. apply is_low_surrogate_iff in Hd.
    cbn [length] in Hlen.
    cbv zeta. change (c :: d :: s) with ([c; d] ++ s).
    rewrite <- (utf16_units_pair c d Hh Hd).
    set (cp := 65536 + (c - 55296) * 1024 + (d - 56320)).
    assert (Hcp : 65536 <= cp <= 1114111) by (unfold cp; divlia).
    clearbody cp.
    rewrite utf8_decode_4 by divlia.
    replace (((((240 + cp / 262144) mod 8 * 64 + (128 + (cp / 4096) mod 64) mod 64) * 64 +
               (128 + (cp / 64) mod 64) mod 64) * 64 + (128 + cp mod 64) mod 64))
      with cp by divlia.
    f_equal. apply IH; [lia|exact Hwf]. }
  apply andb_prop in Hwf as [Hwf1 Hwf]. apply andb_prop in Hwf1 as [H16 Hnl].
  apply N.ltb_lt in H16.
  destruct (is_low_surrogate c) eqn:Hl; [discriminate Hnl|].
  assert (Hns : c < 55296 \/ 57343 < c).
  { destruct (N.ltb_spec c 55296); [left; assumption|right].
    destruct (N.leb_spec c 57343); [|assumption].
    destruct (N.leb_spec c 56319).
    - assert (is_high_surrogate c = true) by (apply is_high_surrogate_iff; divlia). congruence.
    - assert (is_low_surrogate c = true) by (apply is_low_surrogate_iff; divlia). congruence. }
  rewrite utf8_decode_3 by divlia.
  replace (((224 + c / 4096) mod 16 * 64 + (128 + (c / 64) mod 64) mod 64) * 64 +
           (128 + c mod 64) mod 64) with c by divlia.
  rewrite utf16_units_small by divlia. cbn [app]. f_equal. apply IH; [lia|exact Hwf].
Qed.

Lemma utf8_roundtrip s : well_formed s = true -> utf8_decode (utf8_encode s) = s.
Proof. apply (utf8_roundtrip_bounded (length s)). lia. Qed.

(** *** The document encoder *)

Lemma createDocumentFile_runs (input : CreateDocumentInput) (w : World) :
  let id := uuid_string (entropy (drawn w)) in
  let storedFilename :=
    id ++ js "-" ++ safeBase (cdi_filename input) ++ EXTENSION_MAP (cdi_type input) in
  let destination := path_join [GENERATED_DIR; storedFilename] in
  createDocumentFile input w =
  Returned
    (mkDocumentCreationResult id
       (safeBase (cdi_filename input) ++ EXTENSION_MAP (cdi_type input))
       (cdi_type input) storedFilename destination)
    (mkWorld (S (drawn w))
       (<[destination := createBufferForType (cdi_type input) (cdi_content input)]> (fs w))
       (sent w)).
Proof. reflexivity. Qed.

(** C8. For every [create_document] call the stored filename is the
    identifier drawn for this call, a hyphen, the base name (extension
    stripped, every unit outside [[A-Za-z0-9._-]] replaced by [_], cut
    to 120 units, the default name when that is empty) and the canonical
    extension of the type; the file is stored in the generated-files
    directory under that name. *)
Theorem stored_filename_layout (input : CreateDocumentInput) (w : World) :
  exists r w',
    createDocumentFile input w = Returned r w'
    /\ dcr_id r = uuid_string (entropy (drawn w))
    /\ drawn w' = S (drawn w)
    /\ dcr_storedFilename r =
       spec_stored_name (dcr_id r) (cdi_filename input) (cdi_type input)
    /\ dcr_fullPath r = path_join [GENERATED_DIR; dcr_storedFilename r]
    /\ is_Some (fs w' !! dcr_fullPath r).
Proof.
  eexists _, _. split; [apply createDocumentFile_runs|].
  cbn [dcr_id dcr_storedFilename dcr_fullPath drawn fs].
  repeat split.
  - unfold spec_stored_name. rewrite safeBase_spec, EXTENSION_MAP_spec. reflexivity.
  - rewrite lookup_insert_eq. eexists; reflexivity.
Qed.

(** C7. For the types txt, csv and md the bytes stored under the new
    key are exactly the UTF-8 encoding of the content, no other key of
    the blob store changes, and decoding the stored bytes gives a
    well-formed content back. *)
Theorem raw_text_bytes_are_utf8 (input : CreateDocumentInput) (w : World) :
  is_raw_text_type (cdi_type input) = true ->
  exists r w' stored,
    createDocumentFile input w = Returned r w'
    /\ dcr_fullPath r = path_join [GENERATED_DIR; dcr_storedFilename r]
    /\ fs w' !! dcr_fullPath r = Some stored
    /\ stored = utf8_encode (cdi_content input)
    /\ (well_formed (cdi_content input) = true -> utf8_decode stored = cdi_content input)
    /\ forall p, p <> dcr_fullPath r -> fs w' !! p = fs w !! p.
Proof.
  intros Hraw. eexists _, _, _. split; [apply createDocumentFile_runs|].
  cbn [dcr_storedFilename dcr_fullPath fs]. split; [reflexivity|].
  split; [apply lookup_insert_eq|].
  assert (Hbytes : createBufferForType (cdi_type input) (cdi_content input) =
                   utf8_encode (cdi_content input))
    by (destruct (cdi_type input); try discriminate Hraw; reflexivity).
  split; [exact Hbytes|]. split.
  - intros Hwf. rewrite Hbytes. apply utf8_roundtrip. exact Hwf.
  - intros p Hp. apply lookup_insert_ne. congruence.
Qed.

Lemma split_go_not_nil re acc skip s : split_go re acc skip s <> [].
Proof.
  revert acc skip. induction s as [|c s IH]; intros acc skip; [discriminate|].
  cbn [split_go]. destruct skip; [|apply IH].
  destruct (match_here re false (c :: s)) as [r|]; [|apply IH].
  destruct (length r <? length (c :: s))%nat; [discriminate|].
  destruct acc; [apply IH|discriminate].
Qed.

(** C5, as the code has it: every block between runs of two or more line
    feeds becomes a paragraph, the empty ones included, and the branch
    for "no paragraphs" is never taken.  One non-empty block after a
    blank line gives two paragraphs; a content of line feeds only gives
    two empty paragraphs, not the content as one paragraph. *)
Theorem docx_paragraphs_keep_empty_blocks :
  (forall content, docxParagraphs content = map trim (split blank_lines_re content))
  /\ docxParagraphs ([ch_lf; ch_lf] ++ js "Hello") = [[]; js "Hello"]
  /\ docxParagraphs [ch_lf; ch_lf; ch_lf] = [[]; []].
Proof.
  split; [|split; reflexivity].
  intros content. unfold docxParagraphs.
  pose proof (split_go_not_nil blank_lines_re [] 0 content) as Hne.
  fold (split blank_lines_re content) in Hne.
  destruct (split blank_lines_re content); [congruence|reflexivity].
Qed.

(** *** The download route on stored documents *)

Lemma GENERATED_DIR_absolute segs :
  cwd = absolute_path segs -> Forall (fun s => plain_segment s = true) segs ->
  GENERATED_DIR = absolute_path (segs ++ [js "generated"]).
Proof.
  intros Hcwd Hall. unfold GENERATED_DIR. rewrite Hcwd.
  apply path_join_plain; [exact Hall|reflexivity].
Qed.

(** A plain name is looked up right under the generated-files directory:
    200 with the stored bytes, or 404. *)
Lemma GET_plain segs name w :
  cwd = absolute_path segs -> Forall (fun s => plain_segment s = true) segs ->
  plain_segment name = true ->
  path_join [GENERATED_DIR; name] = GENERATED_DIR ++ slash ++ name
  /\ GET name w =
     match fs w !! (GENERATED_DIR ++ slash ++ name) with
     | Some bytes =>
         Returned
           (mkFileResponse 200 (FileBody bytes)
              [(js "Content-Type",
                default (js "application/octet-stream")
                  (MIME_MAP (toLowerCase (extname name))));
               (js "Content-Disposition", contentDisposition name)]) w
     | None => Returned (mkFileResponse 404 (TextBody (js "File not found")) []) w
     end.
Proof.
  intros Hcwd Hall Hname.
  assert (Hgen : Forall (fun s => plain_segment s = true) (segs ++ [js "generated"])).
  { apply Forall_app. split; [exact Hall|constructor; [reflexivity|constructor]]. }
  assert (Hpath : path_join [GENERATED_DIR; name] = GENERATED_DIR ++ slash ++ name).
  { rewrite (GENERATED_DIR_absolute segs Hcwd Hall).
    rewrite path_join_plain by assumption.
    unfold absolute_path. rewrite join_snoc by (destruct segs; discriminate).
    rewrite <- !app_assoc. reflexivity. }
  split; [exact Hpath|].
  unfold GET. rewrite Hpath.
  assert (Hpre : startsWith (GENERATED_DIR ++ slash ++ name) GENERATED_DIR = true)
    by (apply startsWith_app; eexists; reflexivity).
  rewrite Hpre. cbn [negb]. unfold bind, try_catch, stat, readFile, ret.
  destruct (fs w !! (GENERATED_DIR ++ slash ++ name)) eqn:E;
    cbn [negb]; rewrite ?E; reflexivity.
Qed.

Lemma spec_safe_unit_not_slash c : not_char ch_slash (spec_safe_unit c) = true.
Proof.
  unfold spec_safe_unit, not_char, jschar_eqb, ch_slash, ch_underscore, ch_dot,
    ch_hyphen, is_upper, is_lower, is_digit, in_range.
  destruct (N.eqb_spec c 47) as [->|Hne]; [reflexivity|].
  destruct (_ || _); [|reflexivity].
  apply negb_true_iff, N.eqb_neq. exact Hne.
Qed.

Lemma forallb_Forall (p : N -> bool) l :
  forallb p l = true <-> Forall (fun x => p x = true) l.
Proof.
  induction l as [|x l IH]; cbn [forallb].
  - split; [constructor|reflexivity].
  - rewrite andb_true_iff, IH. split.
    + intros [Hx Hl]. constructor; assumption.
    + intros H. split; [apply (Forall_inv H)|apply (Forall_inv_tail H)].
Qed.

Lemma safeBase_slash_free filename :
  forallb (not_char ch_slash) (safeBase filename) = true.
Proof.
  rewrite safeBase_spec. unfold spec_base_name.
  destruct (take 120 (map spec_safe_unit (spec_strip_extension filename))) eqn:E;
    [reflexivity|].
  rewrite <- E. apply forallb_Forall, Forall_take, Forall_map, Forall_forall.
  intros c _. apply spec_safe_unit_not_slash.
Qed.

Lemma uuid_string_slash_free r : forallb (not_char ch_slash) (uuid_string r) = true.
Proof.
  assert (Hall : Forall (fun c => not_char ch_slash c = true)
                   (map hex_digit (uuid_digits r))).
  { apply Forall_map, Forall_forall. intros n _.
    unfold not_char, jschar_eqb, hex_digit, ch_slash.
    apply negb_true_iff, N.eqb_neq. destruct (N.ltb_spec n 10); lia. }
  apply forallb_Forall. unfold uuid_string.
  repeat (apply Forall_app; split);
    try (apply Forall_take); try (apply Forall_drop); try exact Hall;
    repeat constructor.
Qed.

(** The name under which a document is stored is a plain segment. *)
Lemma stored_name_plain r filename t :
  plain_segment (uuid_string r ++ js "-" ++ safeBase filename ++ EXTENSION_MAP t) = true.
Proof.
  destruct (uuid_string_shape r) as (g & rest & Hshape & Hg & _ & Hrest).
  unfold plain_segment.
  assert (Hfree : forallb (not_char ch_slash)
                    (uuid_string r ++ js "-" ++ safeBase filename ++ EXTENSION_MAP t) = true).
  { rewrite !forallb_app, uuid_string_slash_free, safeBase_slash_free.
    destruct t; reflexivity. }
  rewrite Hfree, Hshape.
  destruct g as [|c0 [|c1 [|c2 g]]]; try discriminate Hg.
  cbn [app truthy jsstring_eqb dot dotdot]. rewrite !andb_false_r. reflexivity.
Qed.

(** *** The download route *)

(** For a stored name made of an identifier, a hyphen and a file name, the
    header drops the first eight digits of the identifier and the hyphen
    after them. *)
Lemma contentDisposition_stored (r : N) (name : jsstring) :
  exists tail,
    length tail = 27%nat
    /\ drop 9 (uuid_string r) = tail
    /\ contentDisposition (uuid_string r ++ js "-" ++ name) =
       js "attachment; filename=" ++ [ch_dquote] ++
       tail ++ js "-" ++ name ++ [ch_dquote].
Proof.
  destruct (uuid_string_shape r) as (g & rest & Hshape & Hg & Hall & Hrest).
  exists rest. split; [exact Hrest|]. split.
  - rewrite Hshape. change (g ++ ch_hyphen :: rest) with (g ++ [ch_hyphen] ++ rest).
    rewrite app_assoc. apply drop_app_length'. rewrite length_app, Hg. reflexivity.
  - unfold contentDisposition. rewrite Hshape, <- app_assoc.
    cbn [app]. rewrite strip_id_prefix; [|..|exact Hall].
    { rewrite <- !app_assoc. reflexivity. }
    destruct g; [discriminate Hg|discriminate].
Qed.

(** C4, as the code has it: for a stored name made of an identifier, a
    hyphen and a file name, the file name of the header is not the file
    name alone: the expression removes the text up to the first hyphen
    only, so the other 27 units of the identifier stay in front of it. *)
Theorem download_name_keeps_id_tail (r : N) (name : jsstring) :
  exists tail,
    length tail = 27%nat
    /\ drop 9 (uuid_string r) = tail
    /\ contentDisposition (uuid_string r ++ js "-" ++ name) =
       js "attachment; filename=" ++ [ch_dquote] ++
       tail ++ js "-" ++ name ++ [ch_dquote]
    /\ contentDisposition (uuid_string r ++ js "-" ++ name) <>
       js "attachment; filename=" ++ [ch_dquote] ++ name ++ [ch_dquote].
Proof.
  destruct (contentDisposition_stored r name) as (tail & Hlen & Htail & Hheader).
  exists tail. split; [exact Hlen|]. split; [exact Htail|]. split; [exact Hheader|].
  rewrite Hheader. intros Heq. apply app_inv_head in Heq.
  apply (f_equal (@length N)) in Heq.
  repeat (rewrite length_app in Heq || rewrite length_cons in Heq).
  cbn in Heq. lia.
Qed.

(** A document just created is served back: status 200, the stored bytes,
    and a header whose file name still carries 27 units of the identifier. *)
Lemma GET_of_stored_document segs input w :
  cwd = absolute_path segs -> Forall (fun s => plain_segment s = true) segs ->
  exists r w' tail,
    createDocumentFile input w = Returned r w'
    /\ length tail = 27%nat /\ drop 9 (dcr_id r) = tail
    /\ GET (dcr_storedFilename r) w' =
       Returned
         (mkFileResponse 200
            (FileBody (createBufferForType (cdi_type input) (cdi_content input)))
            [(js "Content-Type",
              default (js "application/octet-stream")
                (MIME_MAP (toLowerCase (extname (dcr_storedFilename r)))));
             (js "Content-Disposition",
              js "attachment; filename=" ++ [ch_dquote] ++
              tail ++ js "-" ++ dcr_filename r ++ [ch_dquote])]) w'.
Proof.
  intros Hcwd Hall.
  destruct (contentDisposition_stored (entropy (drawn w))
              (safeBase (cdi_filename input) ++ EXTENSION_MAP (cdi_type input)))
    as (tail & Hlen & Htail & Hheader).
  eexists _, _, tail. split; [apply createDocumentFile_runs|].
  cbn [dcr_id dcr_storedFilename dcr_filename]. split; [exact Hlen|]. split; [exact Htail|].
  destruct (GET_plain segs _
              (mkWorld (S (drawn w))
                 (<[path_join [GENERATED_DIR;
                               uuid_string (entropy (drawn w)) ++ js "-" ++
                               safeBase (cdi_filename input) ++
                               EXTENSION_MAP (cdi_type input)] :=
                      createBufferForType (cdi_type input) (cdi_content input)]> (fs w))
                 (sent w))
              Hcwd Hall (stored_name_plain (entropy (drawn w)) (cdi_filename input)
                           (cdi_type input)))
    as [Hpath Hget].
  rewrite Hget. cbn [fs]. rewrite Hpath, lookup_insert_eq, Hheader. reflexivity.
Qed.

(** *** The download route on a sibling directory *)

Lemma segments_join_free segs :
  segs <> [] -> Forall (fun s => forallb (not_char ch_slash) s = true) segs ->
  segments (join slash segs) = segs.
Proof.
  intros Hne Hall. induction Hall as [|s segs Hs Hall IH]; [congruence|].
  destruct segs as [|t segs].
  - cbn [join]. apply segments_slash_free, Hs.
  - change (join slash (s :: t :: segs))
      with (s ++ ch_slash :: join slash (t :: segs)).
    rewrite segments_app, (segments_slash_free _ Hs), IH by discriminate. reflexivity.
Qed.

Lemma join_app a b :
  a <> [] -> b <> [] -> join slash (a ++ b) = join slash a ++ slash ++ join slash b.
Proof.
  intros Ha Hb. induction a as [|s a IH]; [congruence|].
  destruct a as [|t a].
  - destruct b; [congruence|reflexivity].
  - change (join slash ((s :: t :: a) ++ b))
      with (s ++ slash ++ join slash ((t :: a) ++ b)).
    rewrite IH by discriminate.
    change (join slash (s :: t :: a)) with (s ++ slash ++ join slash (t :: a)).
    rewrite <- !app_assoc. reflexivity.
Qed.

(** A parameter that steps out of the generated-files directory and into a
    sibling whose name extends [generated] resolves outside the directory,
    yet its text still begins with the text of the directory. *)
Lemma path_join_sibling segs suffix name :
  cwd = absolute_path segs -> Forall (fun s => plain_segment s = true) segs ->
  plain_segment (js "generated" ++ suffix) = true -> suffix <> [] ->
  plain_segment name = true ->
  let file := dotdot ++ slash ++ js "generated" ++ suffix ++ slash ++ name in
  path_join [GENERATED_DIR; file] = GENERATED_DIR ++ suffix ++ slash ++ name
  /\ startsWith (path_join [GENERATED_DIR; file]) GENERATED_DIR = true
  /\ startsWith (path_join [GENERATED_DIR; file]) (GENERATED_DIR ++ slash) = false.
Proof.
  intros Hcwd Hall Hsib Hsuffix Hname file.
  assert (Hgen := GENERATED_DIR_absolute segs Hcwd Hall).
  assert (Hpath : path_join [GENERATED_DIR; file] = GENERATED_DIR ++ suffix ++ slash ++ name).
  { rewrite Hgen. unfold path_join.
    assert (Hfilter : filter (fun a => truthy a = true)
                        [absolute_path (segs ++ [js "generated"]); file] =
                      [absolute_path (segs ++ [js "generated"]); file]).
    { cbn [filter list_filter]. unfold absolute_path at 1. cbn [slash app truthy].
      rewrite decide_True by reflexivity. rewrite decide_True by reflexivity.
      reflexivity. }
    rewrite Hfilter. cbn [join].
    set (sib := js "generated" ++ suffix).
    assert (Hjoined : absolute_path (segs ++ [js "generated"]) ++ slash ++ file =
                      repeat ch_slash 1 ++
                      join slash (segs ++ [js "generated"; dotdot; sib; name])).
    { unfold absolute_path, file, sib. cbn [repeat].
      destruct segs as [|s segs].
      - cbn [app join]. rewrite <- !app_assoc. reflexivity.
      - rewrite (join_app (s :: segs) [js "generated"]) by discriminate.
        rewrite (join_app (s :: segs) [js "generated"; dotdot; js "generated" ++ suffix; name])
          by discriminate.
        cbn [join]. rewrite <- !app_assoc. reflexivity. }
    rewrite Hjoined. unfold normalize.
    assert (Habs : startsWith (repeat ch_slash 1 ++
                     join slash (segs ++ [js "generated"; dotdot; sib; name])) slash = true)
      by (apply startsWith_app; eexists; reflexivity).
    rewrite Habs. cbn [negb]. unfold normalizeString.
    rewrite segments_slashes, normalize_empty_segments.
    rewrite segments_join_free.
    2:{ destruct segs; discriminate. }
    2:{ apply Forall_app. split.
        - eapply Forall_impl; [exact Hall|]. intros s Hs.
          apply plain_segment_slash_free, Hs.
        - repeat constructor; try apply plain_segment_slash_free; assumption. }
    rewrite fold_left_app, (normalize_plain false segs [] Hall), app_nil_r.
    cbn [fold_left].
    rewrite (normalize_step_plain false _ (js "generated")) by reflexivity.
    change (normalize_step false (js "generated" :: rev segs) dotdot) with (rev segs).
    rewrite (normalize_step_plain false _ sib) by exact Hsib.
    rewrite (normalize_step_plain false _ name) by exact Hname.
    cbn [rev]. rewrite rev_involutive, <- !app_assoc. cbn [app].
    assert (Hall' : Forall (fun s => plain_segment s = true) (segs ++ [sib; name])).
    { apply Forall_app. split; [exact Hall|repeat constructor; assumption]. }
    pose proof (join_not_nil (segs ++ [sib; name]) ltac:(destruct segs; discriminate) Hall')
      as Hne.
    pose proof (endsWith_absolute 0 (segs ++ [sib; name])
                  ltac:(destruct segs; discriminate) Hall') as Hend.
    assert (Hend' : endsWith (repeat ch_slash 1 ++
                       join slash (segs ++ [js "generated"; dotdot; sib; name])) slash = false).
    { destruct (exists_last (l := name)) as (n0 & c & Hn).
      { intros ->. discriminate Hname. }
      pose proof (plain_segment_slash_free _ Hname) as Hfree. rewrite Hn in Hfree.
      rewrite forallb_app in Hfree. apply andb_prop in Hfree as [_ Hc].
      cbn [forallb] in Hc. rewrite andb_true_r in Hc.
      unfold not_char in Hc. apply negb_true_iff in Hc.
      replace (segs ++ [js "generated"; dotdot; sib; name])
        with ((segs ++ [js "generated"; dotdot; sib]) ++ [name])
        by (rewrite <- app_assoc; reflexivity).
      rewrite join_snoc by (destruct segs; discriminate).
      rewrite Hn, !app_assoc, endsWith_snoc. exact Hc. }
    rewrite Hend'.
    destruct (join slash (segs ++ [sib; name])) eqn:Ej; [congruence|].
    rewrite app_nil_r, <- Ej. unfold absolute_path, sib.
    destruct segs as [|s segs].
    - cbn [app join]. rewrite <- !app_assoc. reflexivity.
    - rewrite (join_app (s :: segs) [js "generated" ++ suffix; name]) by discriminate.
      rewrite (join_app (s :: segs) [js "generated"]) by discriminate.
      cbn [join]. rewrite <- !app_assoc. reflexivity. }
  split; [exact Hpath|]. rewrite Hpath. split.
  - apply startsWith_app. eexists. reflexivity.
  - destruct (startsWith _ _) eqn:E; [|reflexivity].
    apply startsWith_app in E as [post E]. rewrite <- app_assoc in E.
    apply app_inv_head in E.
    pose proof (plain_segment_slash_free _ Hsib) as Hfree.
    rewrite forallb_app in Hfree. apply andb_prop in Hfree as [_ Hfree].
    destruct suffix as [|c suffix]; [congruence|].
    cbn [forallb] in Hfree. apply andb_prop in Hfree as [Hc _].
    injection E as -> _. discriminate Hc.
Qed.

(** Such a parameter is never answered 400: the file of the sibling
    directory is served when it exists, and 404 is answered when it does
    not. *)
Lemma GET_sibling segs suffix name w :
  cwd = absolute_path segs -> Forall (fun s => plain_segment s = true) segs ->
  plain_segment (js "generated" ++ suffix) = true -> suffix <> [] ->
  plain_segment name = true ->
  let file := dotdot ++ slash ++ js "generated" ++ suffix ++ slash ++ name in
  GET file w =
  match fs w !! (GENERATED_DIR ++ suffix ++ slash ++ name) with
  | Some bytes =>
      Returned
        (mkFileResponse 200 (FileBody bytes)
           [(js "Content-Type",
             default (js "application/octet-stream")
               (MIME_MAP (toLowerCase (extname file))));
            (js "Content-Disposition", contentDisposition file)]) w
  | None => Returned (mkFileResponse 404 (TextBody (js "File not found")) []) w
  end.
Proof.
  intros Hcwd Hall Hsib Hsuffix Hname file.
  destruct (path_join_sibling segs suffix name Hcwd Hall Hsib Hsuffix Hname)
    as (Hpath & Hpre & _).
  fold file in Hpath, Hpre. unfold GET. rewrite Hpre. rewrite Hpath.
  cbn [negb]. unfold bind, try_catch, stat, readFile, ret.
  destruct (fs w !! (GENERATED_DIR ++ suffix ++ slash ++ name)) eqn:E;
    cbn [negb]; rewrite ?E; reflexivity.
Qed.

(** *** The tool executors *)

Lemma malformed_is_empty_object rawArgs :
  JSON_parse rawArgs = None -> or_empty_object (safeJsonParse rawArgs) = JObj [].
Proof.
  intros H. unfold safeJsonParse. destruct (truthy rawArgs); [rewrite H|]; reflexivity.
Qed.

Lemma executeCreateArtifact_failure rawArgs artifacts w d :
  safeParse artifactArgsSchema (or_empty_object (safeJsonParse rawArgs)) = ParseFailure d ->
  executeCreateArtifact rawArgs artifacts w =
  Returned (ToolFailure (js "Invalid artifact arguments") d, artifacts) w.
Proof. intros H. unfold executeCreateArtifact. rewrite H. reflexivity. Qed.

Lemma executeCreateArtifact_success rawArgs artifacts w data :
  safeParse artifactArgsSchema (or_empty_object (safeJsonParse rawArgs)) = ParseSuccess data ->
  let id := uuid_string (entropy (drawn w)) in
  let html := string_field (js "html") data in
  let css := optional_string_field (js "css") data in
  let js_code := optional_string_field (js "js") data in
  executeCreateArtifact rawArgs artifacts w =
  Returned
    (ArtifactCreated id,
     artifacts ++
     [mkArtifact id (string_field (js "title") data)
        (optional_string_field (js "description") data)
        (artifactPreviewHtml html css) (artifactFullHtml html css js_code)])
    (mkWorld (S (drawn w)) (fs w) (sent w)).
Proof. intros H. unfold executeCreateArtifact. rewrite H. reflexivity. Qed.

Lemma executeCreateDocument_failure rawArgs generatedFiles w d :
  safeParse documentArgsSchema (or_empty_object (safeJsonParse rawArgs)) = ParseFailure d ->
  executeCreateDocument rawArgs generatedFiles w =
  Returned (ToolFailure (js "Invalid document arguments") d, generatedFiles) w.
Proof. intros H. unfold executeCreateDocument. rewrite H. reflexivity. Qed.

Lemma executeCreateDocument_success rawArgs generatedFiles w data :
  safeParse documentArgsSchema (or_empty_object (safeJsonParse rawArgs)) = ParseSuccess data ->
  exists r w',
    createDocumentFile
      (mkCreateDocumentInput (string_field (js "filename") data)
         (documentType_of (string_field (js "type") data))
         (string_field (js "content") data)) w = Returned r w'
    /\ sent w' = sent w
    /\ executeCreateDocument rawArgs generatedFiles w =
       Returned
         (DocumentCreated (dcr_id r) (js "/api/generated/" ++ dcr_storedFilename r)
            (dcr_filename r),
          generatedFiles ++
          [mkGeneratedFile (dcr_id r) (dcr_filename r) (dcr_type r)
             (js "/api/generated/" ++ dcr_storedFilename r)
             (optional_string_field (js "summary") data) (dcr_storedFilename r)])
         w'.
Proof.
  intros H. eexists _, _. split; [apply createDocumentFile_runs|].
  split; [reflexivity|].
  unfold executeCreateDocument. rewrite H. unfold bind.
  rewrite createDocumentFile_runs. reflexivity.
Qed.

(** Both executors always return; neither talks to the backend. *)
Lemma executeCreateArtifact_returns rawArgs artifacts w :
  exists result artifacts' w',
    executeCreateArtifact rawArgs artifacts w = Returned (result, artifacts') w'
    /\ sent w' = sent w.
Proof.
  destruct (safeParse artifactArgsSchema (or_empty_object (safeJsonParse rawArgs)))
    as [data|d] eqn:E.
  - eexists _, _, _. split; [apply (executeCreateArtifact_success _ _ _ _ E)|reflexivity].
  - eexists _, _, _. split; [apply (executeCreateArtifact_failure _ _ _ _ E)|reflexivity].
Qed.

Lemma executeCreateDocument_returns rawArgs generatedFiles w :
  exists result generatedFiles' w',
    executeCreateDocument rawArgs generatedFiles w = Returned (result, generatedFiles') w'
    /\ sent w' = sent w.
Proof.
  destruct (safeParse documentArgsSchema (or_empty_object (safeJsonParse rawArgs)))
    as [data|d] eqn:E.
  - destruct (executeCreateDocument_success _ generatedFiles w _ E) as (r & w' & _ & Hs & He).
    eexists _, _, _. split; [exact He|exact Hs].
  - eexists _, _, _. split; [apply (executeCreateDocument_failure _ _ _ _ E)|reflexivity].
Qed.

(** *** The orchestrator *)

(** One output item adds one tool output when it is a function call with
    a call id, and none otherwise. *)
Lemma handleToolCall_step item outs arts files w :
  exists new arts' files' w',
    handleToolCall item (outs, arts, files) w = Returned (outs ++ new, arts', files') w'
    /\ map to_call_id new = match answerable item with Some c => [c] | None => [] end
    /\ sent w' = sent w.
Proof.
  destruct item as [name call_id args|content|type];
    try (exists [], arts, files, w; rewrite app_nil_r; repeat split; reflexivity).
  cbn [handleToolCall answerable].
  destruct (call_id_of call_id) as [cid|];
    [|exists [], arts, files, w; rewrite app_nil_r; repeat split; reflexivity].
  destruct (jsstring_eqb name (js "create_artifact")).
  { destruct (executeCreateArtifact_returns (default (js "{}") args) arts w)
      as (result & arts' & w' & He & Hs).
    unfold bind. rewrite He. eexists [_], _, _, _.
    split; [reflexivity|]. split; [reflexivity|exact Hs]. }
  destruct (jsstring_eqb name (js "create_document")).
  { destruct (executeCreateDocument_returns (default (js "{}") args) files w)
      as (result & files' & w' & He & Hs).
    unfold bind. rewrite He. eexists [_], _, _, _.
    split; [reflexivity|]. split; [reflexivity|exact Hs]. }
  eexists [_], _, _, _. split; [reflexivity|]. split; reflexivity.
Qed.

Lemma handleToolItems_run items outs arts files w :
  exists new arts' files' w',
    handleToolItems items (outs, arts, files) w = Returned (outs ++ new, arts', files') w'
    /\ map to_call_id new = omap answerable items
    /\ sent w' = sent w.
Proof.
  revert outs arts files w.
  induction items as [|item items IH]; intros outs arts files w.
  - exists [], arts, files, w. rewrite app_nil_r. repeat split; reflexivity.
  - destruct (handleToolCall_step item outs arts files w)
      as (n1 & a1 & f1 & w1 & H1 & Hid1 & Hs1).
    destruct (IH (outs ++ n1) a1 f1 w1) as (n2 & a2 & f2 & w2 & H2 & Hid2 & Hs2).
    exists (n1 ++ n2), a2, f2, w2. split; [|split].
    + cbn [handleToolItems]. unfold bind at 1. rewrite H1, H2, app_assoc. reflexivity.
    + rewrite map_app, Hid2. cbn [omap list_omap]. revert Hid1.
      destruct (answerable item); intros ->; reflexivity.
    + congruence.
Qed.

Lemma handleToolCalls_run response arts files w :
  exists outs arts' files' w',
    handleToolCalls response arts files w = Returned (outs, arts', files') w'
    /\ map to_call_id outs = answerable_ids response
    /\ sent w' = sent w.
Proof.
  destruct (handleToolItems_run (default [] (output response)) [] arts files w)
    as (new & a & f & w' & H & Hid & Hs).
  exists new, a, f, w'. split; [exact H|]. split; [exact Hid|exact Hs].
Qed.

(** Without an answerable call nothing runs and nothing changes. *)
Lemma handleToolItems_idle items st w :
  omap answerable items = [] -> handleToolItems items st w = Returned st w.
Proof.
  revert st w. induction items as [|item items IH]; intros st w Hno; [reflexivity|].
  cbn [omap list_omap] in Hno. cbn [handleToolItems]. unfold bind.
  destruct st as [[outs arts] files].
  destruct item as [name call_id args|content|type]; cbn [answerable] in Hno;
    cbn [handleToolCall]; try (apply IH; exact Hno).
  destruct (call_id_of call_id); [discriminate Hno|apply IH; exact Hno].
Qed.

(** One turn of the loop: the outputs go to the backend as a continuation
    of [response]; its reply is handled and the loop goes on from there. *)
Lemma toolLoop_turn fuel response arts files outs w :
  outs <> [] ->
  let request := ContinueRequest defaultDeployment (response_id response) outs in
  let w1 := mkWorld (drawn w) (fs w) (sent w ++ [request]) in
  toolLoop (S fuel) response arts files outs w =
  match backend (sent w ++ [request]) with
  | inr e => Some (Threw e w1)
  | inl response' =>
      bind_run (handleToolCalls response' arts files)
        (fun st =>
           let '(outs', arts', files') := st in
           toolLoop fuel response' arts' files' outs') w1
  end.
Proof.
  intros Hne. destruct outs as [|o outs]; [congruence|].
  cbn [toolLoop]. unfold bind_run at 1, responses_create. cbn [sent].
  destruct (backend _); reflexivity.
Qed.

Lemma toolLoop_stop fuel response arts files w :
  toolLoop fuel response arts files [] w =
  Some (Returned (mkRunResult response arts files) w).
Proof. destruct fuel; reflexivity. Qed.

Lemma toolLoop_starved response arts files outs w :
  outs <> [] -> toolLoop 0 response arts files outs w = None.
Proof. intros Hne. destruct outs; [congruence|reflexivity]. Qed.

(** A turn that is answered by a response without answerable calls is
    the last one: the loop returns that response. *)
Lemma toolLoop_last_turn fuel response arts files outs w response' :
  outs <> [] ->
  let request := ContinueRequest defaultDeployment (response_id response) outs in
  backend (sent w ++ [request]) = inl response' ->
  answerable_ids response' = [] ->
  toolLoop (S fuel) response arts files outs w =
  Some (Returned (mkRunResult response' arts files)
          (mkWorld (drawn w) (fs w) (sent w ++ [request]))).
Proof.
  intros Hne request Hreply Hrest.
  rewrite toolLoop_turn by exact Hne. fold request. rewrite Hreply.
  unfold bind_run, handleToolCalls.
  rewrite (handleToolItems_idle _ _ _ Hrest). apply toolLoop_stop.
Qed.

(** A turn on which the backend fails ends the loop with that error. *)
Lemma toolLoop_failed_turn fuel response arts files outs w e :
  outs <> [] ->
  let request := ContinueRequest defaultDeployment (response_id response) outs in
  backend (sent w ++ [request]) = inr e ->
  toolLoop (S fuel) response arts files outs w =
  Some (Threw e (mkWorld (drawn w) (fs w) (sent w ++ [request]))).
Proof.
  intros Hne request Hreply.
  rewrite toolLoop_turn by exact Hne. fold request. rewrite Hreply. reflexivity.
Qed.

(** The requests already sent stay sent, in their order. *)
Lemma toolLoop_sent fuel response arts files outs w o :
  toolLoop fuel response arts files outs w = Some o ->
  sent w `prefix_of` sent (world_of o).
Proof.
  revert response arts files outs w.
  induction fuel as [|fuel IH]; intros response arts files outs w H.
  - destruct outs; [|discriminate H]. injection H as <-. reflexivity.
  - destruct outs as [|x outs]; [injection H as <-; reflexivity|].
    rewrite toolLoop_turn in H by discriminate.
    destruct (backend _) as [response'|e].
    + unfold bind_run in H.
      destruct (handleToolCalls_run response' arts files
                  (mkWorld (drawn w) (fs w)
                     (sent w ++ [ContinueRequest defaultDeployment
                                   (response_id response) (x :: outs)])))
        as (outs' & arts' & files' & w' & Hh & _ & Hs).
      rewrite Hh in H. apply IH in H. rewrite Hs in H. cbn [sent] in H.
      etransitivity; [|exact H]. apply prefix_app_r. reflexivity.
    + injection H as <-. cbn [world_of sent]. apply prefix_app_r. reflexivity.
Qed.

Lemma toolLoop_sends fuel response arts files outs w o :
  outs <> [] ->
  toolLoop (S fuel) response arts files outs w = Some o ->
  (sent w ++ [ContinueRequest defaultDeployment (response_id response) outs])
    `prefix_of` sent (world_of o).
Proof.
  intros Hne H. rewrite toolLoop_turn in H by exact Hne.
  destruct (backend _) as [response'|e].
  - unfold bind_run in H.
    destruct (handleToolCalls_run response' arts files
                (mkWorld (drawn w) (fs w)
                   (sent w ++ [ContinueRequest defaultDeployment
                                 (response_id response) outs])))
      as (outs' & arts' & files' & w' & Hh & _ & Hs).
    rewrite Hh in H. apply toolLoop_sent in H. rewrite Hs in H. exact H.
  - injection H as <-. reflexivity.
Qed.

(** The loop returns only at a response without answerable calls. *)
Lemma toolLoop_returns_at_rest fuel response arts files outs w r w' :
  map to_call_id outs = answerable_ids response ->
  toolLoop fuel response arts files outs w = Some (Returned r w') ->
  answerable_ids (rr_response r) = [].
Proof.
  revert response arts files outs w.
  induction fuel as [|fuel IH]; intros response arts files outs w Hids H.
  - destruct outs; [|discriminate H]. injection H as <- _. cbn. symmetry. exact Hids.
  - destruct outs as [|x outs]; [injection H as <- _; cbn; symmetry; exact Hids|].
    rewrite toolLoop_turn in H by discriminate.
    destruct (backend _) as [response'|e]; [|discriminate H].
    unfold bind_run in H.
    destruct (handleToolCalls_run response' arts files
                (mkWorld (drawn w) (fs w)
                   (sent w ++ [ContinueRequest defaultDeployment
                                 (response_id response) (x :: outs)])))
      as (outs' & arts' & files' & w1 & Hh & Hids' & _).
    rewrite Hh in H. eapply IH; eassumption.
Qed.

(** A backend that asks for a tool in every reply keeps the loop going
    for any number of turns. *)
Lemma toolLoop_diverges :
  (forall requests, exists response,
      backend requests = inl response /\ answerable_ids response <> []) ->
  forall fuel response arts files outs w,
    outs <> [] -> toolLoop fuel response arts files outs w = None.
Proof.
  intros Hgreedy fuel.
  induction fuel as [|fuel IH]; intros response arts files outs w Hne.
  - apply toolLoop_starved. exact Hne.
  - rewrite toolLoop_turn by exact Hne.
    destruct (Hgreedy (sent w ++ [ContinueRequest defaultDeployment
                                    (response_id response) outs]))
      as (response' & -> & Hcalls).
    unfold bind_run.
    destruct (handleToolCalls_run response' arts files
                (mkWorld (drawn w) (fs w)
                   (sent w ++ [ContinueRequest defaultDeployment
                                 (response_id response) outs])))
      as (outs' & arts' & files' & w1 & Hh & Hids & _).
    rewrite Hh. apply IH. intros ->. apply Hcalls. rewrite <- Hids. reflexivity.
Qed.

(** *** Attachments *)

Lemma mapAttachmentToContentPart_missing a w :
  fs w !! path_join [UPLOAD_DIR; att_storedFilename a] = None ->
  mapAttachmentToContentPart a w = Returned (could_not_be_loaded a) w.
Proof.
  intros H. unfold mapAttachmentToContentPart, bind, try_catch, readFile.
  rewrite H. reflexivity.
Qed.

(** Mapping an attachment reads the store and nothing else: it returns,
    and leaves the world as it was. *)
Lemma mapAttachmentToContentPart_returns a w :
  exists part, mapAttachmentToContentPart a w = Returned part w.
Proof.
  unfold mapAttachmentToContentPart, bind, try_catch, readFile.
  destruct (fs w !! path_join [UPLOAD_DIR; att_storedFilename a]) as [b|];
    [|eexists; reflexivity].
  unfold ret. cbv beta iota.
  destruct (category a); try (eexists; reflexivity);
    cbn [orb];
    destruct (isTextLikeFile (Some (mimeType a)) (originalName a));
    eexists; reflexivity.
Qed.

Lemma mapAttachments_returns atts w :
  exists parts,
    mapAttachments atts w = Returned parts w
    /\ Forall2 (fun a part => mapAttachmentToContentPart a w = Returned part w)
         atts parts.
Proof.
  induction atts as [|a atts (parts & Hrest & Hall)].
  - exists []. split; [reflexivity|constructor].
  - destruct (mapAttachmentToContentPart_returns a w) as [part Hpart].
    exists (part :: parts). split.
    + cbn [mapAttachments]. unfold bind. rewrite Hpart, Hrest. reflexivity.
    + constructor; assumption.
Qed.

Lemma buildAzureMessage_returns m w :
  exists am, buildAzureMessage m w = Returned am w /\ translated w m am.
Proof.
  unfold buildAzureMessage, bind.
  destruct (attachments m) as [[|a atts]|] eqn:E.
  - eexists. split; [reflexivity|]. split; [reflexivity|].
    exists []. rewrite E. split; [reflexivity|constructor].
  - destruct (mapAttachments_returns (a :: atts) w) as (parts & Hrun & Hall).
    rewrite Hrun. eexists. split; [reflexivity|]. split; [reflexivity|].
    exists parts. rewrite E. split; [reflexivity|exact Hall].
  - eexists. split; [reflexivity|]. split; [reflexivity|].
    exists []. rewrite E. split; [reflexivity|constructor].
Qed.

Lemma buildAzureInput_returns msgs w :
  exists input,
    buildAzureInput msgs w = Returned input w /\ Forall2 (translated w) msgs input.
Proof.
  induction msgs as [|m msgs (input & Hrest & Hall)].
  - exists []. split; [reflexivity|constructor].
  - destruct (buildAzureMessage_returns m w) as (am & Hrun & Ham).
    exists (am :: input). split.
    + cbn [buildAzureInput]. unfold bind. rewrite Hrun, Hrest. reflexivity.
    + constructor; assumption.
Qed.

(** *** A whole call *)

Lemma runResponsesCall_start fuel body w input :
  buildAzureInput (messages body) w = Returned input w ->
  let w1 := mkWorld (drawn w) (fs w) (sent w ++ [first_request body input]) in
  runResponsesCall fuel body w =
  match backend (sent w ++ [first_request body input]) with
  | inr e => Some (Threw e w1)
  | inl response =>
      bind_run (handleToolCalls response [] [])
        (fun st =>
           let '(outs, arts, files) := st in
           toolLoop fuel response arts files outs) w1
  end.
Proof.
  intros Hin. unfold runResponsesCall, bind_run at 1. rewrite Hin.
  unfold bind_run at 1, responses_create. cbn [sent]. unfold first_request.
  destruct (backend _); reflexivity.
Qed.

Lemma runResponsesCall_diverges :
  (forall requests, exists response,
      backend requests = inl response /\ answerable_ids response <> []) ->
  forall fuel body w, runResponsesCall fuel body w = None.
Proof.
  intros Hgreedy fuel body w.
  destruct (buildAzureInput_returns (messages body) w) as (input & Hin & _).
  rewrite (runResponsesCall_start _ _ _ _ Hin).
  destruct (Hgreedy (sent w ++ [first_request body input])) as (response & -> & Hcalls).
  unfold bind_run.
  destruct (handleToolCalls_run response [] []
              (mkWorld (drawn w) (fs w) (sent w ++ [first_request body input])))
    as (outs & arts & files & w1 & Hh & Hids & _).
  rewrite Hh. apply toolLoop_diverges; [exact Hgreedy|].
  intros ->. apply Hcalls. rewrite <- Hids. reflexivity.
Qed.

Lemma runResponsesCall_returns_at_rest fuel body w r w' :
  runResponsesCall fuel body w = Some (Returned r w') ->
  answerable_ids (rr_response r) = [].
Proof.
  intros H.
  destruct (buildAzureInput_returns (messages body) w) as (input & Hin & _).
  rewrite (runResponsesCall_start _ _ _ _ Hin) in H.
  destruct (backend _) as [response|e]; [|discriminate H].
  unfold bind_run in H.
  destruct (handleToolCalls_run response [] []
              (mkWorld (drawn w) (fs w) (sent w ++ [first_request body input])))
    as (outs & arts & files & w1 & Hh & Hids & _).
  rewrite Hh in H. eapply toolLoop_returns_at_rest; eassumption.
Qed.

Lemma POST_ok fuel payload w r w1 :
  env_set AZURE_OPENAI_API_KEY = true -> env_set AZURE_OPENAI_ENDPOINT = true ->
  runResponsesCall fuel payload w = Some (Returned r w1) ->
  POST fuel (BodyValid payload) w =
  Some (ChatOk
          (mkChatMessage (uuid_string (entropy (drawn w1))) assistant
             (extractAssistantText (rr_response r)) now
             (rr_artifacts r) (rr_generatedFiles r)),
        mkWorld (S (drawn w1)) (fs w1) (sent w1)).
Proof.
  intros Hk He Hrun. unfold POST. rewrite Hk, He. cbn. rewrite Hrun. reflexivity.
Qed.

(** *** Calls that cannot run *)

Lemma handleToolCall_unknown name cid args outs arts files w :
  cid <> [] -> name <> js "create_artifact" -> name <> js "create_document" ->
  handleToolCall (FunctionCall name (Some cid) args) (outs, arts, files) w =
  Returned (outs ++ [unknown_function_answer cid name], arts, files) w.
Proof.
  intros Hcid Ha Hd. cbn [handleToolCall].
  destruct cid as [|c cid]; [congruence|]. cbn [call_id_of].
  rewrite (jsstring_eqb_neq _ _ Ha), (jsstring_eqb_neq _ _ Hd). reflexivity.
Qed.

Lemma handleToolItems_answers item answer items :
  (forall outs arts files w,
      handleToolCall item (outs, arts, files) w =
      Returned (outs ++ [answer], arts, files) w) ->
  In item items ->
  forall outs arts files w,
  exists outs' arts' files' w',
    handleToolItems items (outs, arts, files) w = Returned (outs', arts', files') w'
    /\ In answer outs'.
Proof.
  intros Hitem. induction items as [|x items IH]; [intros []|].
  intros [->|Hin] outs arts files w.
  - destruct (handleToolItems_run items (outs ++ [answer]) arts files w)
      as (new & a & f & w' & Hrun & _ & _).
    eexists _, _, _, _. split.
    + cbn [handleToolItems]. unfold bind. rewrite Hitem. exact Hrun.
    + apply in_or_app. left. apply in_or_app. right. left. reflexivity.
  - destruct (handleToolCall_step x outs arts files w)
      as (n1 & a1 & f1 & w1 & H1 & _ & _).
    destruct (IH Hin (outs ++ n1) a1 f1 w1) as (o2 & a2 & f2 & w2 & H2 & Hin2).
    eexists _, _, _, _. split; [|exact Hin2].
    cbn [handleToolItems]. unfold bind. rewrite H1. exact H2.
Qed.

(** C10. A function call with a call id that names neither declared tool
    is answered, under its call id, with the JSON text of
    [{error: "Unknown function: <name>"}]; no executor runs.  The answer
    is among the tool outputs of the response, so the loop does not stop
    there: it takes a turn, which sends the outputs to the backend as a
    continuation of the response and goes on with the reply; it returns
    after this turn when the reply has no answerable call, and ends with
    the error when the backend fails. *)
Theorem unknown_function_is_answered
    (name cid : jsstring) (args : option jsstring) (rid : jsstring)
    (items : list OutputItem) (arts : list Artifact) (files : list GeneratedFile)
    (w : World) :
  cid <> [] -> name <> js "create_artifact" -> name <> js "create_document" ->
  In (FunctionCall name (Some cid) args) items ->
  let response := mkResponse rid (Some items) in
  to_output (unknown_function_answer cid name) =
    JSON_stringify (JObj [(js "error", JStr (js "Unknown function: " ++ name))])
  /\ (forall outs,
        handleToolCall (FunctionCall name (Some cid) args) (outs, arts, files) w =
        Returned (outs ++ [unknown_function_answer cid name], arts, files) w)
  /\ exists outs arts' files' w',
       handleToolCalls response arts files w = Returned (outs, arts', files') w'
       /\ In (unknown_function_answer cid name) outs
       /\ sent w' = sent w
       /\ toolLoop 0 response arts' files' outs w' = None
       /\ let request := ContinueRequest defaultDeployment rid outs in
          let w1 := mkWorld (drawn w') (fs w') (sent w ++ [request]) in
          (forall fuel,
              toolLoop (S fuel) response arts' files' outs w' =
              match backend (sent w ++ [request]) with
              | inr e => Some (Threw e w1)
              | inl response' =>
                  bind_run (handleToolCalls response' arts' files')
                    (fun st =>
                       let '(outs', arts'', files'') := st in
                       toolLoop fuel response' arts'' files'' outs') w1
              end)
          /\ (forall fuel response',
                backend (sent w ++ [request]) = inl response' ->
                answerable_ids response' = [] ->
                toolLoop (S fuel) response arts' files' outs w' =
                Some (Returned (mkRunResult response' arts' files') w1))
          /\ (forall fuel e,
                backend (sent w ++ [request]) = inr e ->
                toolLoop (S fuel) response arts' files' outs w' =
                Some (Threw e w1)).
Proof.
  intros Hcid Ha Hd Hin response. split; [reflexivity|]. split.
  { intros outs. apply handleToolCall_unknown; assumption. }
  destruct (handleToolItems_answers _ (unknown_function_answer cid name) items
              (fun outs arts files w => handleToolCall_unknown _ _ _ outs arts files w Hcid Ha Hd)
              Hin [] arts files w)
    as (outs & arts' & files' & w' & Hrun & Hans).
  destruct (handleToolCalls_run response arts files w)
    as (outs0 & a0 & f0 & w0 & Hrun0 & _ & Hsent).
  subst response. unfold handleToolCalls in Hrun0 |- *.
  cbn [output from_option id] in Hrun0 |- *. rewrite Hrun in Hrun0. injection Hrun0 as <- <- <- <-.
  exists outs, arts', files', w'. split; [exact Hrun|]. split; [exact Hans|].
  split; [exact Hsent|].
  assert (Hne : outs <> []) by (intros ->; destruct Hans).
  split; [apply toolLoop_starved; exact Hne|].
  cbv zeta. rewrite <- Hsent. split; [|split].
  + intros fuel.
    apply (toolLoop_turn fuel (mkResponse rid (Some items)) arts' files' outs w' Hne).
  + intros fuel response' Hreply Hrest.
    apply (toolLoop_last_turn fuel (mkResponse rid (Some items)) arts' files' outs w'
             response' Hne Hreply Hrest).
  + intros fuel e Hreply.
    apply (toolLoop_failed_turn fuel (mkResponse rid (Some items)) arts' files' outs w' e
             Hne Hreply).
Qed.

Lemma toolLoop_more_fuel fuel fuel' response arts files outs w o :
  (fuel <= fuel')%nat ->
  toolLoop fuel response arts files outs w = Some o ->
  toolLoop fuel' response arts files outs w = Some o.
Proof.
  revert fuel' response arts files outs w.
  induction fuel as [|fuel IH]; intros fuel' response arts files outs w Hle H.
  - destruct outs; [|discriminate H]. rewrite toolLoop_stop. exact H.
  - destruct outs as [|x outs]; [rewrite toolLoop_stop; exact H|].
    destruct fuel' as [|fuel']; [lia|].
    rewrite toolLoop_turn in H |- * by discriminate.
    destruct (backend _) as [response'|e]; [|exact H].
    unfold bind_run in H |- *.
    destruct (handleToolCalls response' arts files _) as [[[o1 a1] f1] w1|e w1];
      [|exact H].
    apply (IH fuel'); [lia|exact H].
Qed.

(** C3, as the code has it: the loop returns exactly at a response
    without function calls that carry a call id, whatever they name.
    At such a response it returns at once, without a further request.
    At any other response it does not stop: it takes one turn, which
    sends the outputs to the backend as a continuation and goes on with
    the reply as it began with the response; so it returns after this
    turn when the reply has no answerable call, and ends with the error
    when the backend fails.  A run that returns ends at a response of the
    first kind; more fuel never changes a finished run; and no number of
    turns is enough against a backend that asks for a tool in every
    reply. *)
Theorem tool_loop_ends_without_answerable_calls :
  (forall response arts files w,
      answerable_ids response = [] ->
      handleToolCalls response arts files w = Returned ([], arts, files) w
      /\ forall fuel,
           toolLoop fuel response arts files [] w =
           Some (Returned (mkRunResult response arts files) w))
  /\ (forall response arts files w,
        answerable_ids response <> [] ->
        exists outs arts' files' w',
          handleToolCalls response arts files w = Returned (outs, arts', files') w'
          /\ map to_call_id outs = answerable_ids response
          /\ sent w' = sent w
          /\ toolLoop 0 response arts' files' outs w' = None
          /\ let request := ContinueRequest defaultDeployment (response_id response) outs in
             let w1 := mkWorld (drawn w') (fs w') (sent w ++ [request]) in
             (forall fuel,
                 toolLoop (S fuel) response arts' files' outs w' =
                 match backend (sent w ++ [request]) with
                 | inr e => Some (Threw e w1)
                 | inl response' =>
                     bind_run (handleToolCalls response' arts' files')
                       (fun st =>
                          let '(outs', arts'', files'') := st in
                          toolLoop fuel response' arts'' files'' outs') w1
                 end)
             /\ (forall fuel response',
                   backend (sent w ++ [request]) = inl response' ->
                   answerable_ids response' = [] ->
                   toolLoop (S fuel) response arts' files' outs w' =
                   Some (Returned (mkRunResult response' arts' files') w1))
             /\ (forall fuel e,
                   backend (sent w ++ [request]) = inr e ->
                   toolLoop (S fuel) response arts' files' outs w' =
                   Some (Threw e w1)))
  /\ (forall fuel body w r w',
        runResponsesCall fuel body w = Some (Returned r w') ->
        answerable_ids (rr_response r) = [])
  /\ (forall fuel fuel' response arts files outs w o,
        (fuel <= fuel')%nat ->
        toolLoop fuel response arts files outs w = Some o ->
        toolLoop fuel' response arts files outs w = Some o)
  /\ ((forall requests, exists response,
          backend requests = inl response /\ answerable_ids response <> []) ->
      forall fuel body w, runResponsesCall fuel body w = None).
Proof.
  split; [|split; [|split; [|split]]].
  - intros response arts files w Hno. split.
    + apply handleToolItems_idle. exact Hno.
    + intros fuel. apply toolLoop_stop.
  - intros response arts files w Hcalls.
    destruct (handleToolCalls_run response arts files w)
      as (outs & arts' & files' & w' & Hrun & Hids & Hsent).
    exists outs, arts', files', w'. split; [exact Hrun|]. split; [exact Hids|].
    split; [exact Hsent|].
    assert (Hne : outs <> []) by (intros ->; apply Hcalls; rewrite <- Hids; reflexivity).
    split; [apply toolLoop_starved; exact Hne|].
    cbv zeta. rewrite <- Hsent. split; [|split].
    + intros fuel. apply (toolLoop_turn fuel response arts' files' outs w' Hne).
    + intros fuel response' Hreply Hrest.
      apply (toolLoop_last_turn fuel response arts' files' outs w' response' Hne Hreply Hrest).
    + intros fuel e Hreply.
      apply (toolLoop_failed_turn fuel response arts' files' outs w' e Hne Hreply).
  - apply runResponsesCall_returns_at_rest.
  - apply toolLoop_more_fuel.
  - apply runResponsesCall_diverges.
Qed.

Lemma tool_failure_cases name rawArgs :
  name = js "create_artifact" \/ name = js "create_document" ->
  JSON_parse rawArgs = None
  \/ (exists d, safeParse (tool_schema name) (or_empty_object (safeJsonParse rawArgs))
                = ParseFailure d) ->
  exists d,
    safeParse (tool_schema name) (or_empty_object (safeJsonParse rawArgs)) = ParseFailure d.
Proof.
  intros Htool [Hmal|Hbad]; [|exact Hbad].
  rewrite (malformed_is_empty_object _ Hmal).
  destruct Htool as [-> | ->]; eexists; reflexivity.
Qed.

Lemma handleToolCall_failure name cid rawArgs d outs arts files w :
  cid <> [] ->
  name = js "create_artifact" \/ name = js "create_document" ->
  safeParse (tool_schema name) (or_empty_object (safeJsonParse rawArgs)) = ParseFailure d ->
  handleToolCall (FunctionCall name (Some cid) (Some rawArgs)) (outs, arts, files) w =
  Returned
    (outs ++
     [failure_answer cid
        (if jsstring_eqb name (js "create_artifact")
         then js "Invalid artifact arguments" else js "Invalid document arguments") d],
     arts, files) w.
Proof.
  intros Hcid Htool Hd. cbn [handleToolCall].
  destruct cid as [|c cid]; [congruence|]. cbn [call_id_of from_option].
  destruct Htool as [-> | ->].
  - change (jsstring_eqb (js "create_artifact") (js "create_artifact")) with true.
    cbv iota. unfold bind.
    rewrite (executeCreateArtifact_failure _ _ _ d); [reflexivity|exact Hd].
  - change (jsstring_eqb (js "create_document") (js "create_artifact")) with false.
    change (jsstring_eqb (js "create_document") (js "create_document")) with true.
    cbv iota. unfold bind.
    rewrite (executeCreateDocument_failure _ _ _ d); [reflexivity|exact Hd].
Qed.

(** A call that answers with [answer] and changes nothing, followed by a
    reply without answerable calls: the request ends with status 200 and
    empty accumulators. *)
Lemma POST_after_soft_answer item answer rid reply fuel body w :
  (forall outs arts files w,
      handleToolCall item (outs, arts, files) w =
      Returned (outs ++ [answer], arts, files) w) ->
  env_set AZURE_OPENAI_API_KEY = true -> env_set AZURE_OPENAI_ENDPOINT = true ->
  (forall request, backend (sent w ++ [request]) = inl (mkResponse rid (Some [item]))) ->
  (forall request,
      backend (sent w ++ [request; ContinueRequest defaultDeployment rid [answer]])
      = inl reply) ->
  answerable_ids reply = [] ->
  exists message w',
    POST (S fuel) (BodyValid body) w = Some (ChatOk message, w')
    /\ cm_artifacts message = [] /\ cm_generatedFiles message = []
    /\ cm_text message = extractAssistantText reply.
Proof.
  intros Hitem Hkey Hend Hfirst Hsecond Hrest.
  destruct (buildAzureInput_returns (messages body) w) as (input & Hin & _).
  eexists _, _. split.
  { apply POST_ok; [exact Hkey|exact Hend|].
    rewrite (runResponsesCall_start _ _ _ _ Hin), Hfirst.
    unfold bind_run at 1, handleToolCalls. cbn [output from_option id handleToolItems].
    unfold bind at 1. rewrite Hitem. cbn [ret app].
    rewrite toolLoop_turn by discriminate. cbn [sent response_id].
    rewrite <- app_assoc. cbn [app]. rewrite Hsecond.
    unfold bind_run, handleToolCalls. rewrite handleToolItems_idle by exact Hrest.
    rewrite toolLoop_stop. reflexivity. }
  repeat split; reflexivity.
Qed.

(** C6. A [create_artifact] or [create_document] call whose arguments
    are not JSON, or do not fit the schema of the tool, is answered with
    the JSON text of [{success: false, error, errorDetail}] under its
    call id; the executor returns (nothing is thrown), the accumulators
    and the world stay as they were; and when the backend then replies
    without further calls the request ends with status 200 and no
    artifact or file. *)
Theorem invalid_tool_arguments_fail_softly (name cid rawArgs : jsstring) :
  cid <> [] ->
  name = js "create_artifact" \/ name = js "create_document" ->
  JSON_parse rawArgs = None
  \/ (exists d, safeParse (tool_schema name) (or_empty_object (safeJsonParse rawArgs))
                = ParseFailure d) ->
  exists error errorDetail,
    to_output (failure_answer cid error errorDetail) =
      JSON_stringify
        (JObj [(js "success", JBool false); (js "error", JStr error);
               (js "errorDetail", fieldErrors_json errorDetail)])
    /\ (forall outs arts files w,
          handleToolCall (FunctionCall name (Some cid) (Some rawArgs)) (outs, arts, files) w =
          Returned (outs ++ [failure_answer cid error errorDetail], arts, files) w)
    /\ (forall rid reply fuel body w,
          env_set AZURE_OPENAI_API_KEY = true -> env_set AZURE_OPENAI_ENDPOINT = true ->
          (forall request,
              backend (sent w ++ [request]) =
              inl (mkResponse rid (Some [FunctionCall name (Some cid) (Some rawArgs)]))) ->
          (forall request,
              backend (sent w ++
                       [request;
                        ContinueRequest defaultDeployment rid
                          [failure_answer cid error errorDetail]]) = inl reply) ->
          answerable_ids reply = [] ->
          exists message w',
            POST (S fuel) (BodyValid body) w = Some (ChatOk message, w')
            /\ chat_status (ChatOk message) = 200
            /\ cm_artifacts message = [] /\ cm_generatedFiles message = []
            /\ cm_text message = extractAssistantText reply).
Proof.
  intros Hcid Htool Hbad.
  destruct (tool_failure_cases _ _ Htool Hbad) as [d Hd].
  eexists _, d. split; [reflexivity|].
  assert (Hcall := fun outs arts files w =>
                     handleToolCall_failure _ _ _ _ outs arts files w Hcid Htool Hd).
  split; [exact Hcall|].
  intros rid reply fuel body w Hkey Hend Hfirst Hsecond Hrest.
  destruct (POST_after_soft_answer _ _ rid reply fuel body w Hcall Hkey Hend
              Hfirst Hsecond Hrest) as (message & w' & HP & Ha & Hf & Ht).
  exists message, w'. repeat split; assumption.
Qed.

Lemma Forall2_In_l {A B : Type} (R : A -> B -> Prop) l k x :
  Forall2 R l k -> In x l -> exists y, In y k /\ R x y.
Proof.
  induction 1 as [|a b l k Hab Hall IH]; [intros []|].
  intros [->|Hin].
  - exists b. split; [left; reflexivity|exact Hab].
  - destruct (IH Hin) as (y & Hy & HR). exists y. split; [right; exact Hy|exact HR].
Qed.

(** C9. An attachment whose stored file cannot be read becomes the text
    part saying that it could not be loaded; the translation of the
    conversation returns with that part in the message of the attachment;
    and when the backend replies without tool calls the request ends with
    status 200 and the assistant message. *)
Theorem unreadable_attachment_degrades (a : UploadedFileMetadata) (w : World) :
  fs w !! path_join [UPLOAD_DIR; att_storedFilename a] = None ->
  could_not_be_loaded a =
    input_text (js "Attachment " ++ [ch_dquote] ++ originalName a ++ [ch_dquote] ++
                js " could not be loaded from the server.")
  /\ mapAttachmentToContentPart a w = Returned (could_not_be_loaded a) w
  /\ forall body m atts,
       In m (messages body) -> attachments m = Some atts -> In a atts ->
       exists input am,
         buildAzureInput (messages body) w = Returned input w
         /\ In am input /\ am_role am = role m
         /\ In (could_not_be_loaded a) (am_content am)
         /\ forall reply fuel,
              env_set AZURE_OPENAI_API_KEY = true ->
              env_set AZURE_OPENAI_ENDPOINT = true ->
              backend (sent w ++ [first_request body input]) = inl reply ->
              answerable_ids reply = [] ->
              exists message w',
                POST fuel (BodyValid body) w = Some (ChatOk message, w')
                /\ chat_status (ChatOk message) = 200
                /\ cm_role message = assistant
                /\ cm_text message = extractAssistantText reply
                /\ sent w' = sent w ++ [first_request body input].
Proof.
  intros Hmissing. split; [reflexivity|].
  split; [apply mapAttachmentToContentPart_missing; exact Hmissing|].
  intros body m atts Hm Hatts Ha.
  destruct (buildAzureInput_returns (messages body) w) as (input & Hin & Hall).
  destruct (Forall2_In_l _ _ _ _ Hall Hm)
    as (am & Hamin & Hrole & parts & Hcontent & Hparts).
  exists input, am. split; [exact Hin|]. split; [exact Hamin|]. split; [exact Hrole|].
  split.
  - rewrite Hcontent. rewrite Hatts in Hparts. cbn [from_option id] in Hparts.
    destruct (Forall2_In_l _ _ _ _ Hparts Ha) as (part & Hpart & Hrun).
    rewrite (mapAttachmentToContentPart_missing _ _ Hmissing) in Hrun.
    injection Hrun as <-. right. exact Hpart.
  - intros reply fuel Hkey Hend Hreply Hrest.
    eexists _, _. split.
    { apply POST_ok; [exact Hkey|exact Hend|].
      rewrite (runResponsesCall_start _ _ _ _ Hin), Hreply.
      unfold bind_run, handleToolCalls. rewrite handleToolItems_idle by exact Hrest.
      rewrite toolLoop_stop. reflexivity. }
    repeat split; reflexivity.
Qed.

(** *** The artifact executor

    The sanitizer is a library; what the executor relies on is its
    allow-list contract, stated over the elements that the tokenizer
    [elements_of] reads in a text: every element of a sanitized text has
    an allowed tag, and each of its attributes passes the allow-list. *)

(** What passes validation. *)
Lemma fieldErrors_nil sch fields :
  fieldErrors sch fields = [] ->
  Forall (fun ks => issues (snd ks) (field (fst ks) fields) = []) sch.
Proof.
  induction sch as [|[k s] sch IH]; [constructor|].
  cbn [fieldErrors]. destruct (issues s (field k fields)) eqn:E; [|discriminate].
  intros H. constructor; [exact E|apply IH, H].
Qed.

Lemma safeParse_success sch v data :
  safeParse sch v = ParseSuccess data ->
  v = JObj data
  /\ Forall (fun ks => issues (snd ks) (field (fst ks) data) = []) sch.
Proof.
  unfold safeParse. destruct v; cbn [is_plain_object]; try discriminate.
  destruct (fieldErrors sch fields) eqn:E; [|discriminate].
  intros [= <-]. split; [reflexivity|apply fieldErrors_nil, E].
Qed.

Lemma issues_string_nil min max v :
  issues (ZString min max) v = [] ->
  exists s, v = Some (JStr s) /\ (min <= length s)%nat.
Proof.
  destruct v as [[]|]; cbn [issues]; try discriminate.
  destruct (Nat.ltb_spec (length s) min); [discriminate|]. intros _. eauto.
Qed.

(** The allow-list the code builds. *)
Lemma jsstring_eqb_refl a : jsstring_eqb a a = true.
Proof. apply jsstring_eqb_eq. reflexivity. Qed.

Lemma key_of_with_key k v obj k' :
  key_of k' (with_key k v obj) =
  if jsstring_eqb k k' then Some v else key_of k' obj.
Proof.
  induction obj as [|[k0 v0] obj IH].
  - cbn [with_key key_of]. reflexivity.
  - cbn [with_key]. destruct (jsstring_eqb k0 k) eqn:E0.
    + apply jsstring_eqb_eq in E0. subst k0. cbn [key_of].
      destruct (jsstring_eqb k k'); reflexivity.
    + cbn [key_of]. destruct (jsstring_eqb k0 k') eqn:E1; [|exact IH].
      apply jsstring_eqb_eq in E1. subst k0.
      destruct (jsstring_eqb k k') eqn:E2; [|reflexivity].
      apply jsstring_eqb_eq in E2. subst k'. rewrite jsstring_eqb_refl in E0.
      discriminate E0.
Qed.

Lemma glob_star s : glob [42] s = true.
Proof.
  induction s as [|c s IH]; [reflexivity|].
  cbn [glob] in *. change (42 =? 42) with true in *. cbv iota in *.
  rewrite IH. apply orb_true_r.
Qed.

Lemma existsb_incl {A : Type} (f : A -> bool) l l' :
  (forall x, In x l -> In x l') -> existsb f l = true -> existsb f l' = true.
Proof.
  intros Hincl H. apply existsb_exists in H as (x & Hin & Hx).
  apply existsb_exists. exists x. split; [apply Hincl, Hin|exact Hx].
Qed.

Lemma glob_literal_prefix p q s :
  forallb (fun c => negb (c =? 42)) p = true ->
  glob (p ++ q) s = true -> exists s', s = p ++ s' /\ glob q s' = true.
Proof.
  revert s. induction p as [|c p IH]; intros s Hp H.
  - exists s. split; [reflexivity|exact H].
  - cbn [forallb] in Hp. apply andb_true_iff in Hp as [Hc Hp].
    apply negb_true_iff in Hc. cbn [app glob] in H. rewrite Hc in H.
    destruct s as [|x s]; [discriminate H|].
    apply andb_true_iff in H as [Hx H]. apply N.eqb_eq in Hx. subst x.
    destruct (IH s Hp H) as (s' & -> & Hq). exists s'. split; [reflexivity|exact Hq].
Qed.

Lemma glob_literal p s :
  forallb (fun c => negb (c =? 42)) p = true -> glob p s = true -> s = p.
Proof.
  intros Hp H. rewrite <- (app_nil_r p) in H.
  destruct (glob_literal_prefix p [] s Hp H) as (s' & -> & Hs').
  destruct s'; [apply app_nil_r|discriminate Hs'].
Qed.

(** An attribute passes the allow-list of the preview only when the
    defaults let it pass on that tag, or when it is one of [style],
    [class] and [id], or a [data-] attribute. *)
Lemma preview_attribute_allowed tag attr :
  attribute_allowed artifactSanitizeOptions tag attr = true ->
  attribute_allowed (mkSanitizeOptions defaults_allowedTags defaults_allowedAttributes)
    tag attr = true
  \/ In attr [js "style"; js "class"; js "id"]
  \/ startsWith attr (js "data-") = true.
Proof.
  unfold attribute_allowed, artifactSanitizeOptions. cbn [allowedAttributes].
  rewrite !key_of_with_key, jsstring_eqb_refl. cbn [default from_option id].
  intros H. apply existsb_exists in H as (pattern & Hin & Hglob).
  assert (Hcases :
            In pattern (default [] (key_of tag defaults_allowedAttributes) ++
                        default [] (key_of (js "*") defaults_allowedAttributes))
            \/ In pattern [js "style"; js "class"; js "id"; js "data-*"]).
  { apply in_app_iff in Hin. destruct Hin as [Hin|Hin].
    - destruct (jsstring_eqb (js "*") tag) eqn:E.
      + cbn [default from_option id] in Hin. apply in_app_iff in Hin.
        destruct Hin as [Hin|Hin]; [left|right; exact Hin].
        apply in_app_iff. right. exact Hin.
      + left. apply in_app_iff. left. exact Hin.
    - apply in_app_iff in Hin. destruct Hin as [Hin|Hin]; [left|right; exact Hin].
      apply in_app_iff. right. exact Hin. }
  destruct Hcases as [Hdefault|Hadded].
  - left. apply existsb_exists. exists pattern. split; [exact Hdefault|exact Hglob].
  - right. cbn [In] in Hadded.
    destruct Hadded as [<-|[<-|[<-|[<-|[]]]]].
    + left. left. symmetry. apply glob_literal; [reflexivity|exact Hglob].
    + left. right. left. symmetry. apply glob_literal; [reflexivity|exact Hglob].
    + left. do 2 right. left. symmetry. apply glob_literal; [reflexivity|exact Hglob].
    + right. change (js "data-*") with (js "data-" ++ [42]) in Hglob.
      apply glob_literal_prefix in Hglob as (rest & -> & _); [|reflexivity].
      apply startsWith_app. exists rest. reflexivity.
Qed.

Lemma script_not_added :
  ~ In (js "script")
      [js "img"; js "svg"; js "path"; js "circle"; js "line"; js "polyline";
       js "polygon"; js "style"; js "canvas"].
Proof.
  cbn [In]. intros H. repeat (destruct H as [H|H]; [discriminate H|]). exact H.
Qed.

Lemma full_html_has_script html css c code :
  includes (artifactFullHtml html css (Some (c :: code))) (script_block (c :: code)).
Proof.
  unfold artifactFullHtml. apply join_includes.
  apply list_elem_of_In, list_elem_of_filter. split; [reflexivity|].
  apply list_elem_of_In. cbn [In]. do 10 right. left. reflexivity.
Qed.

Lemma full_html_has_markup html css js_code :
  html <> [] -> includes (artifactFullHtml html css js_code) html.
Proof.
  intros Hne. unfold artifactFullHtml. apply join_includes.
  apply list_elem_of_In, list_elem_of_filter. split.
  - destruct html; [congruence|reflexivity].
  - apply list_elem_of_In. cbn [In]. do 9 right. left. reflexivity.
Qed.

Lemma full_html_has_style html css js_code :
  includes (artifactFullHtml html css js_code) (default [] css).
Proof.
  destruct (default [] css) as [|c rest] eqn:E.
  - exists [], (artifactFullHtml html css js_code). reflexivity.
  - unfold artifactFullHtml. apply join_includes.
    apply list_elem_of_In, list_elem_of_filter. rewrite E. split; [reflexivity|].
    apply list_elem_of_In. cbn [In]. do 5 right. left. reflexivity.
Qed.

(** The markup of a validated [create_artifact] call is not empty. *)
Lemma validated_artifact_html rawArgs data :
  safeParse artifactArgsSchema (or_empty_object (safeJsonParse rawArgs)) =
  ParseSuccess data ->
  string_field (js "html") data <> [].
Proof.
  intros Hvalid. apply safeParse_success in Hvalid as [_ Hall].
  unfold artifactArgsSchema in Hall.
  apply Forall_inv_tail, Forall_inv_tail, Forall_inv in Hall. cbn [fst snd] in Hall.
  apply issues_string_nil in Hall as (s & Hs & Hlen).
  unfold string_field. rewrite Hs. destruct s; [cbn in Hlen; lia|discriminate].
Qed.

Section SanitizerContract.

(** What is assumed of [sanitize-html]: every element of its output is on
    the allow-list it was given, and so is every attribute of every
    element; and its default tags do not include [script]. *)
Hypothesis sanitizeHtml_allow_list :
  forall input opts tag attrs,
    In (tag, attrs) (elements_of (sanitizeHtml input opts)) ->
    In tag (allowedTags opts)
    /\ Forall (fun attr => attribute_allowed opts tag attr = true) attrs.

Hypothesis defaults_without_script : ~ In (js "script") defaults_allowedTags.


End SanitizerContract.

(* =================================================================== *)
(** ** Further properties of the routes *)
(* =================================================================== *)

(** *** Safe names *)

Lemma spec_safe_unit_safe c : unsafe_unit (spec_safe_unit c) = false.
Proof.
  unfold spec_safe_unit, unsafe_unit, jschar_eqb, ch_dot, ch_underscore, ch_hyphen.
  destruct (is_upper c) eqn:Eu, (is_lower c) eqn:El, (is_digit c) eqn:Ed,
    (c =? 46) eqn:E1, (c =? 95) eqn:E2, (c =? 45) eqn:E3;
    cbn [orb]; rewrite ?Eu, ?El, ?Ed, ?E1, ?E2, ?E3; reflexivity.
Qed.

Lemma safe_name_map s : safe_name (map spec_safe_unit s).
Proof. apply Forall_map, Forall_forall. intros c _. apply spec_safe_unit_safe. Qed.

Lemma safe_unit_not_slash c : unsafe_unit c = false -> not_char ch_slash c = true.
Proof.
  intros H. unfold not_char, jschar_eqb. destruct (N.eqb_spec c ch_slash) as [->|_];
    [discriminate H|reflexivity].
Qed.

Lemma safe_name_slash_free s : safe_name s -> forallb (not_char ch_slash) s = true.
Proof.
  intros H. apply forallb_Forall. eapply Forall_impl; [exact H|].
  intros c. apply safe_unit_not_slash.
Qed.

Lemma nibbles_lt k r : Forall (fun n => n < 16) (nibbles k r).
Proof.
  revert r. induction k as [|k IH]; intros r; cbn [nibbles]; [constructor|].
  apply Forall_app. split; [apply IH|].
  constructor; [apply N.mod_lt; discriminate|constructor].
Qed.

Lemma uuid_digits_lt r : Forall (fun n => n < 16) (uuid_digits r).
Proof.
  unfold uuid_digits. apply Forall_alter.
  - apply Forall_insert; [apply nibbles_lt|reflexivity].
  - intros n _ _. pose proof (N.mod_lt n 4 ltac:(discriminate)) as H.
    clear - H. lia.
Qed.

Lemma hex_digit_safe n : n < 16 -> unsafe_unit (hex_digit n) = false.
Proof.
  intros Hn. unfold unsafe_unit, hex_digit, is_lower, is_upper, is_digit.
  destruct (N.ltb_spec n 10) as [Hlt|Hge].
  - rewrite (in_range_true 48 57) by (clear - Hlt; lia).
    rewrite !orb_true_r. reflexivity.
  - rewrite (in_range_true 97 122) by (clear - Hn Hge; lia). reflexivity.
Qed.

Lemma uuid_string_safe r : safe_name (uuid_string r).
Proof.
  assert (Hall : safe_name (map hex_digit (uuid_digits r))).
  { apply Forall_map. eapply Forall_impl; [apply uuid_digits_lt|].
    intros n Hn. apply hex_digit_safe, Hn. }
  unfold uuid_string, safe_name in *.
  repeat (apply Forall_app; split);
    try (apply Forall_take); try (apply Forall_drop); try exact Hall;
    repeat constructor.
Qed.

(** An identifier, a hyphen and a safe name make a plain segment. *)
Lemma safe_stored_name_plain r s :
  safe_name s -> plain_segment (uuid_string r ++ js "-" ++ s) = true.
Proof.
  intros Hs. destruct (uuid_string_shape r) as (g & rest & Hshape & Hg & _ & Hrest).
  unfold plain_segment.
  assert (Hfree : forallb (not_char ch_slash) (uuid_string r ++ js "-" ++ s) = true).
  { rewrite !forallb_app, uuid_string_slash_free, (safe_name_slash_free _ Hs).
    reflexivity. }
  rewrite Hfree, Hshape.
  destruct g as [|c0 [|c1 [|c2 g]]]; try discriminate Hg.
  cbn [app truthy jsstring_eqb dot dotdot]. rewrite !andb_false_r. reflexivity.
Qed.

(** *** Joining below an absolute path *)

Lemma filter_truthy_all (l : list (list N)) :
  Forall (fun a => truthy a = true) l -> filter (fun a => truthy a = true) l = l.
Proof.
  induction 1 as [|a l Ha Hl IH]; [reflexivity|].
  rewrite filter_cons_True by exact Ha. rewrite IH. reflexivity.
Qed.

Lemma plain_segment_truthy s : plain_segment s = true -> truthy s = true.
Proof. unfold plain_segment. destruct s; [discriminate|reflexivity]. Qed.

(** Plain segments joined to an absolute path are appended to it. *)
Lemma path_join_absolute segs more :
  Forall (fun s => plain_segment s = true) segs ->
  Forall (fun s => plain_segment s = true) more ->
  path_join (absolute_path segs :: more) = absolute_path (segs ++ more).
Proof.
  intros Hsegs Hmore. unfold path_join.
  rewrite filter_truthy_all.
  2:{ constructor; [reflexivity|].
      eapply Forall_impl; [exact Hmore|]. intros s. apply plain_segment_truthy. }
  assert (Hall : Forall (fun s => plain_segment s = true) (segs ++ more))
    by (apply Forall_app; split; assumption).
  destruct more as [|m more].
  - cbn [join]. rewrite app_nil_r. apply normalize_absolute, Hsegs.
  - change (join slash (absolute_path segs :: m :: more))
      with (absolute_path segs ++ slash ++ join slash (m :: more)).
    destruct segs as [|s segs].
    + change ([] ++ m :: more) with (m :: more).
      rewrite <- (normalize_slashed 1 (m :: more) Hmore). reflexivity.
    + rewrite <- (normalize_slashed 0 _ Hall). f_equal.
      unfold absolute_path. rewrite (join_app (s :: segs) (m :: more)) by discriminate.
      cbn [repeat app]. rewrite <- !app_assoc. reflexivity.
Qed.

Lemma UPLOAD_DIR_absolute segs :
  cwd = absolute_path segs -> Forall (fun s => plain_segment s = true) segs ->
  UPLOAD_DIR = absolute_path (segs ++ [js "public"; js "uploads"]).
Proof.
  intros Hcwd Hall. unfold UPLOAD_DIR. rewrite Hcwd.
  apply path_join_absolute; [exact Hall|repeat constructor].
Qed.

Lemma absolute_snoc segs s :
  absolute_path (segs ++ [s]) =
  match segs with [] => slash ++ s | _ :: _ => absolute_path segs ++ slash ++ s end.
Proof.
  unfold absolute_path. destruct segs as [|t segs]; [reflexivity|].
  rewrite join_snoc by discriminate. rewrite <- !app_assoc. reflexivity.
Qed.

(** *** The upload route *)

Lemma uploadFile_runs (entry : File) (w : World) :
  let safeOriginalName := basename (file_name entry) in
  let fileId := uuid_string (entropy (drawn w)) in
  let storedFilename :=
    fileId ++ js "-" ++ replace_all unsafe_re (js "_") safeOriginalName in
  let category :=
    if isImage (Some (file_type entry)) then image
    else if isTextLikeFile (Some (file_type entry)) safeOriginalName then text
    else other in
  let textPreview :=
    match category with
    | text =>
        Some (if MAX_TEXT_PREVIEW <? N.of_nat (length (utf8_decode (file_bytes entry)))
              then take (N.to_nat MAX_TEXT_PREVIEW) (utf8_decode (file_bytes entry)) ++
                   truncated_marker
              else utf8_decode (file_bytes entry))
    | _ => None
    end in
  uploadFile entry w =
  Returned
    (mkUploadedFileMetadata fileId safeOriginalName storedFilename
       (file_type entry) (file_size entry) (js "/uploads/" ++ storedFilename)
       category textPreview)
    (mkWorld (S (drawn w))
       (<[path_join [UPLOAD_DIR; storedFilename] := file_bytes entry]> (fs w))
       (sent w)).
Proof. reflexivity. Qed.

(** X1. Whatever name the client gives a file, the upload route stores
    its bytes directly in the uploads directory (the working directory
    being in normal form), under an identifier, a hyphen and the base
    name with every unit outside [[A-Za-z0-9._-]] replaced by [_]; no
    other key of the store changes, and the public address is
    [/uploads/] followed by that name. *)
Theorem upload_is_stored_under_a_safe_name segs (entry : File) (w : World) :
  cwd = absolute_path segs -> Forall (fun s => plain_segment s = true) segs ->
  exists m w',
    uploadFile entry w = Returned m w'
    /\ att_storedFilename m =
       uuid_string (entropy (drawn w)) ++ js "-" ++
       map spec_safe_unit (basename (file_name entry))
    /\ safe_name (att_storedFilename m)
    /\ UPLOAD_DIR = absolute_path (segs ++ [js "public"; js "uploads"])
    /\ fs w' = <[UPLOAD_DIR ++ slash ++ att_storedFilename m := file_bytes entry]> (fs w)
    /\ publicUrl m = js "/uploads/" ++ att_storedFilename m.
Proof.
  intros Hcwd Hall. eexists _, _. split; [apply uploadFile_runs|].
  cbn [att_storedFilename publicUrl fs]. rewrite replace_unsafe_spec.
  assert (Hsafe : safe_name (uuid_string (entropy (drawn w)) ++ js "-" ++
                             map spec_safe_unit (basename (file_name entry)))).
  { apply Forall_app. split; [apply uuid_string_safe|].
    apply Forall_app. split; [repeat constructor|apply safe_name_map]. }
  split; [reflexivity|]. split; [exact Hsafe|].
  pose proof (UPLOAD_DIR_absolute segs Hcwd Hall) as Hdir.
  split; [exact Hdir|]. split; [|reflexivity].
  f_equal. rewrite Hdir.
  rewrite path_join_absolute.
  - replace (segs ++ [js "public"; js "uploads"])
      with ((segs ++ [js "public"]) ++ [js "uploads"])
      by (rewrite <- app_assoc; reflexivity).
    rewrite (absolute_snoc (_ ++ [js "uploads"])).
    destruct ((segs ++ [js "public"]) ++ [js "uploads"]) eqn:E; [|reflexivity].
    destruct segs; discriminate E.
  - apply Forall_app. split; [exact Hall|repeat constructor].
  - constructor; [|constructor]. apply safe_stored_name_plain, safe_name_map.
Qed.

(** X2. An uploaded file is what the chat route later reads: for the
    metadata the upload route returns, the attachment is found in the
    store; an image goes to the model as a data address of the uploaded
    bytes in base 64, a text file as its whole decoded contents (not the
    shortened preview), and any other file as a description, since the
    second test for text then fails as it did at upload. *)
Theorem uploaded_file_reaches_the_model (entry : File) (w : World) :
  exists m w' part,
    uploadFile entry w = Returned m w'
    /\ mapAttachmentToContentPart m w' = Returned part w'
    /\ (isImage (Some (file_type entry)) = true ->
        category m = image
        /\ part = input_image (js "data:" ++ file_type entry ++ js ";base64," ++
                               toBase64 (file_bytes entry)))
    /\ (isImage (Some (file_type entry)) = false ->
        isTextLikeFile (Some (file_type entry)) (basename (file_name entry)) = true ->
        category m = text
        /\ part = input_text
                    (join [ch_lf]
                       [js "File Name: " ++ basename (file_name entry);
                        js "MIME Type: " ++ file_type entry;
                        [];
                        js "Contents:";
                        utf8_decode (file_bytes entry)]))
    /\ (isImage (Some (file_type entry)) = false ->
        isTextLikeFile (Some (file_type entry)) (basename (file_name entry)) = false ->
        category m = other
        /\ part = input_text
                    (js "Attached file " ++ [ch_dquote] ++ basename (file_name entry) ++
                     [ch_dquote] ++ js " (" ++ file_type entry ++ js ", " ++
                     file_size entry ++ js " bytes) is stored at " ++
                     publicUrl m ++
                     js ". Describe how you want to handle this file.")).
Proof.
  pose proof (uploadFile_runs entry w) as Hrun. cbv zeta in Hrun.
  destruct (isImage (Some (file_type entry))) eqn:Ei;
    [|destruct (isTextLikeFile (Some (file_type entry)) (basename (file_name entry)))
        eqn:Et];
    (eexists _, _, _; split; [exact Hrun|];
     unfold mapAttachmentToContentPart, bind, try_catch, readFile;
     cbn [fs att_storedFilename category originalName mimeType att_size publicUrl];
     rewrite lookup_insert_eq; unfold ret; cbv beta iota; rewrite ?Et; cbn [orb];
     split; [reflexivity|];
     repeat match goal with
            | |- _ /\ _ => split
            | |- _ -> _ => intro
            end; try congruence; reflexivity).
Qed.

Lemma length_truncated_marker : length truncated_marker = 24%nat.
Proof. reflexivity. Qed.

(** X3. The text preview of an upload exists exactly for the files
    classified as text; it is the decoded contents when these have at most
    8000 units, else their first 8000 units followed by the truncation
    marker, so it never exceeds 8024 units. *)
Theorem text_preview_is_bounded (entry : File) (w : World) :
  exists m w',
    uploadFile entry w = Returned m w'
    /\ (is_Some (textPreview m) <-> category m = text)
    /\ forall preview,
         textPreview m = Some preview ->
         N.of_nat (length preview) <= 8024
         /\ (N.of_nat (length (utf8_decode (file_bytes entry))) <= 8000 ->
             preview = utf8_decode (file_bytes entry))
         /\ (8000 < N.of_nat (length (utf8_decode (file_bytes entry))) ->
             preview =
             take (N.to_nat 8000) (utf8_decode (file_bytes entry)) ++ truncated_marker).
Proof.
  eexists _, _. split; [apply uploadFile_runs|].
  cbn [textPreview category]. set (decoded := utf8_decode (file_bytes entry)).
  destruct (if isImage (Some (file_type entry)) then image
            else if isTextLikeFile (Some (file_type entry)) (basename (file_name entry))
                 then text else other) eqn:Ec.
  - split; [split; [intros [x Hx]; discriminate Hx|discriminate]|].
    intros preview Hp. discriminate Hp.
  - split; [split; [reflexivity|eexists; reflexivity]|].
    intros preview [= <-]. unfold MAX_TEXT_PREVIEW.
    destruct (N.ltb_spec 8000 (N.of_nat (length decoded))) as [Hlong|Hshort].
    + split; [|split; [|reflexivity]].
      * rewrite length_app, length_take, length_truncated_marker.
        clear - Hlong. lia.
      * intros Hle. clear - Hlong Hle. lia.
    + split; [|split; [reflexivity|]].
      * clear - Hshort. lia.
      * intros Hlt. clear - Hshort Hlt. lia.
  - split; [split; [intros [x Hx]; discriminate Hx|discriminate]|].
    intros preview Hp. discriminate Hp.
Qed.

Lemma uploadEntries_run fileEntries uploads w :
  exists new w',
    uploadEntries fileEntries uploads w = Returned (uploads ++ new) w'
    /\ map originalName new =
       map (fun entry => basename (file_name entry)) (files_of fileEntries)
    /\ map mimeType new = map file_type (files_of fileEntries)
    /\ map att_id new =
       map (fun k => uuid_string (entropy k))
         (seq (drawn w) (length (files_of fileEntries)))
    /\ drawn w' = (drawn w + length (files_of fileEntries))%nat
    /\ sent w' = sent w.
Proof.
  revert uploads w.
  induction fileEntries as [|[entry|value] rest IH]; intros uploads w.
  - exists [], w. rewrite app_nil_r. cbn. rewrite Nat.add_0_r.
    repeat split; reflexivity.
  - cbn [uploadEntries]. unfold bind at 1. rewrite uploadFile_runs. cbv zeta.
    match goal with
    | |- context [uploadEntries rest (uploads ++ [?m]) ?w1] =>
        destruct (IH (uploads ++ [m]) w1) as (new & w' & Hrun & Hn & Ht & Hi & Hd & Hs);
        exists (m :: new), w'
    end.
    rewrite Hrun, <- app_assoc. cbn [files_of omap list_omap length seq map] in *.
    fold (files_of rest) in *.
    cbn [originalName mimeType att_id drawn sent] in *.
    rewrite Hn, Ht, Hi, Hd, Hs.
    repeat split; try reflexivity. clear. lia.
  - cbn [uploadEntries files_of omap list_omap]. apply IH.
Qed.

(** X4. A form without entry is answered 400 and nothing is stored or
    drawn.  Otherwise the answer is 201 with one record per file of the
    form, in order: entries that are not files are passed over (a form of
    text fields only gives an empty list), each record keeps the base
    name and the type of its file, and the identifiers are drawn one
    after the other. *)
Theorem upload_answers_one_record_per_file (fileEntries : list FormEntry) (w : World) :
  match fileEntries with
  | [] =>
      upload_POST fileEntries w =
      Returned (UploadBadRequest (js "No files received under the `files` field.")) w
  | _ :: _ =>
      exists uploads w',
        upload_POST fileEntries w = Returned (UploadCreated uploads) w'
        /\ map originalName uploads =
           map (fun entry => basename (file_name entry)) (files_of fileEntries)
        /\ map mimeType uploads = map file_type (files_of fileEntries)
        /\ map att_id uploads =
           map (fun k => uuid_string (entropy k))
             (seq (drawn w) (length (files_of fileEntries)))
        /\ drawn w' = (drawn w + length (files_of fileEntries))%nat
        /\ sent w' = sent w
  end.
Proof.
  destruct fileEntries as [|e rest]; [reflexivity|].
  destruct (uploadEntries_run (e :: rest) [] w)
    as (new & w' & Hrun & Hn & Ht & Hi & Hd & Hs).
  exists new, w'. split; [|repeat split; assumption].
  unfold upload_POST, bind, ensureDirectories, bind, mkdir, ret.
  rewrite Hrun. reflexivity.
Qed.

(** *** The attachment classifier *)

(** X5. No type is both an image type and a text-like type, whatever the
    file name: the order of the two tests of the upload route does not
    matter, and an image is never given to the model as text. *)
Theorem image_types_are_never_text_like (mimeType : option jsstring)
    (filename : jsstring) :
  isImage mimeType && isTextLikeFile mimeType filename = false.
Proof.
  destruct mimeType as [[|c m]|]; try reflexivity.
  cbn [isImage]. destruct (startsWith (c :: m) (js "image/")) eqn:E; [|reflexivity].
  apply startsWith_app in E as [post E]. rewrite E. reflexivity.
Qed.

(** *** The document encoder, once more *)

(** X6. The base name of a generated document is never empty, never
    longer than 120 units, and made of the units [[A-Za-z0-9._-]] only,
    whatever file name the model asks for. *)
Theorem safeBase_is_a_safe_name (filename : jsstring) :
  (1 <= length (safeBase filename) <= 120)%nat
  /\ safe_name (safeBase filename).
Proof.
  rewrite safeBase_spec. unfold spec_base_name.
  destruct (take 120 (map spec_safe_unit (spec_strip_extension filename))) eqn:E.
  - split; [cbn; clear; lia|]. unfold safe_name. repeat constructor.
  - rewrite <- E. split.
    + split.
      * rewrite E. cbn [length]. clear. lia.
      * rewrite length_take. clear. lia.
    + apply Forall_take, safe_name_map.
Qed.

(** X7. Whatever file name the model asks for, the document is written
    directly in the generated-files directory: the path of the file is
    the directory, a separator and the stored name, which is a single
    plain segment; no other key of the store changes. *)
Theorem generated_document_stays_in_its_directory segs (input : CreateDocumentInput)
    (w : World) :
  cwd = absolute_path segs -> Forall (fun s => plain_segment s = true) segs ->
  exists r w',
    createDocumentFile input w = Returned r w'
    /\ dcr_storedFilename r =
       uuid_string (entropy (drawn w)) ++ js "-" ++
       safeBase (cdi_filename input) ++ EXTENSION_MAP (cdi_type input)
    /\ plain_segment (dcr_storedFilename r) = true
    /\ safe_name (dcr_storedFilename r)
    /\ GENERATED_DIR = absolute_path (segs ++ [js "generated"])
    /\ dcr_fullPath r = GENERATED_DIR ++ slash ++ dcr_storedFilename r
    /\ fs w' =
       <[dcr_fullPath r := createBufferForType (cdi_type input) (cdi_content input)]>
         (fs w).
Proof.
  intros Hcwd Hall. eexists _, _. split; [apply createDocumentFile_runs|].
  cbn [dcr_storedFilename dcr_fullPath fs].
  pose proof (stored_name_plain (entropy (drawn w)) (cdi_filename input) (cdi_type input))
    as Hplain.
  split; [reflexivity|]. split; [exact Hplain|]. split.
  - apply Forall_app. split; [apply uuid_string_safe|].
    apply Forall_app. split; [repeat constructor|].
    apply Forall_app. split; [apply safeBase_is_a_safe_name|].
    destruct (cdi_type input); repeat constructor.
  - split; [apply (GENERATED_DIR_absolute segs Hcwd Hall)|].
    split; [|reflexivity].
    apply (GET_plain segs _ w Hcwd Hall Hplain).
Qed.

(** *** Extensions *)

Lemma forallb_rev (p : N -> bool) s : forallb p (rev s) = forallb p s.
Proof.
  induction s as [|c s IH]; [reflexivity|].
  cbn [rev forallb]. rewrite forallb_app, IH. cbn [forallb].
  rewrite andb_true_r. apply andb_comm.
Qed.

Lemma takeWhile_all p s : forallb p s = true -> takeWhile p s = s.
Proof.
  induction s as [|c s IH]; [reflexivity|].
  cbn [forallb takeWhile]. intros H. apply andb_prop in H as [Hc Hs].
  rewrite Hc, (IH Hs). reflexivity.
Qed.

Lemma takeWhile_stop p s c t :
  forallb p s = true -> p c = false -> takeWhile p (s ++ c :: t) = s.
Proof.
  intros Hs Hc. induction s as [|x s IH]; cbn [app takeWhile].
  - rewrite Hc. reflexivity.
  - cbn [forallb] in Hs. apply andb_prop in Hs as [Hx Hs].
    rewrite Hx, (IH Hs). reflexivity.
Qed.

Lemma last_segment_slash_free s :
  forallb (not_char ch_slash) s = true -> last_segment s = s.
Proof.
  intros H. unfold last_segment.
  assert (Hrev : forallb (not_char ch_slash) (rev s) = true)
    by (rewrite forallb_rev; exact H).
  assert (Hdrop : dropWhile (is_char ch_slash) (rev s) = rev s).
  { destruct (rev s) as [|c r]; [reflexivity|].
    cbn [forallb] in Hrev. apply andb_prop in Hrev as [Hc _].
    unfold not_char in Hc. apply negb_true_iff in Hc.
    cbn [dropWhile]. unfold is_char. rewrite Hc. reflexivity. }
  rewrite Hdrop, (takeWhile_all _ _ Hrev). apply rev_involutive.
Qed.

(** The extension of a plain name: its last dot, when something stands
    before it, and what follows. *)
Lemma extname_suffix base e :
  plain_segment (base ++ [ch_dot] ++ e) = true -> base <> [] ->
  forallb (not_char ch_dot) e = true ->
  extname (base ++ [ch_dot] ++ e) = [ch_dot] ++ e.
Proof.
  intros Hplain Hbase He. unfold extname.
  rewrite (last_segment_slash_free _ (plain_segment_slash_free _ Hplain)).
  assert (Hafter : takeWhile (not_char ch_dot) (rev (base ++ [ch_dot] ++ e)) = rev e).
  { rewrite !rev_app_distr. cbn [rev app]. rewrite <- app_assoc. cbn [app].
    apply takeWhile_stop; [rewrite forallb_rev; exact He|reflexivity]. }
  rewrite Hafter, length_rev.
  destruct base as [|b base]; [congruence|].
  set (n := length ((b :: base) ++ [ch_dot] ++ e)).
  assert (Hn : n = (S (length base) + S (length e))%nat)
    by (unfold n; rewrite !length_app; reflexivity).
  destruct (Nat.ltb_spec (length e) n) as [_|Hge]; [|clear - Hn Hge; lia].
  destruct (Nat.eqb_spec (length e + 1) n) as [Heq|_]; [clear - Hn Heq; lia|].
  unfold plain_segment in Hplain. apply andb_prop in Hplain as [_ Hdd].
  apply negb_true_iff in Hdd. rewrite Hdd.
  replace (n - length e - 1)%nat with (length (b :: base))
    by (cbn [length]; clear - Hn; lia).
  apply drop_app_length.
Qed.

Lemma MIME_MAP_of_type t :
  MIME_MAP (toLowerCase (EXTENSION_MAP t)) = Some (media_type t).
Proof. destruct t; reflexivity. Qed.

(** The extension of a stored document is the extension of its type. *)
Lemma extname_stored r filename t :
  extname (uuid_string r ++ js "-" ++ safeBase filename ++ EXTENSION_MAP t) =
  EXTENSION_MAP t.
Proof.
  pose proof (stored_name_plain r filename t) as Hplain.
  rewrite EXTENSION_MAP_spec in *.
  replace (uuid_string r ++ js "-" ++ safeBase filename ++ [ch_dot] ++ spec_type_name t)
    with ((uuid_string r ++ js "-" ++ safeBase filename) ++ [ch_dot] ++ spec_type_name t)
    in * by (rewrite <- !app_assoc; reflexivity).
  apply extname_suffix; [exact Hplain| |destruct t; reflexivity].
  destruct (uuid_string_shape r) as (g & rest & -> & Hg & _).
  destruct g; [discriminate Hg|discriminate].
Qed.

(** *** Validated arguments *)

Lemma issues_literals_nil options v :
  issues (ZLiterals options) v = [] ->
  exists s, v = Some (JStr s) /\ In s options.
Proof.
  destruct v as [[]|]; cbn [issues]; try discriminate.
  destruct (existsb (jsstring_eqb s) options) eqn:E; [|discriminate].
  intros _. exists s. split; [reflexivity|].
  apply existsb_exists in E as (x & Hin & Hx). apply jsstring_eqb_eq in Hx.
  subst x. exact Hin.
Qed.

(** The type of a validated [create_document] call is one of the five,
    and is read back as written. *)
Lemma validated_document_type data :
  Forall (fun ks => issues (snd ks) (field (fst ks) data) = []) documentArgsSchema ->
  spec_type_name (documentType_of (string_field (js "type") data)) =
  string_field (js "type") data.
Proof.
  intros Hall. unfold documentArgsSchema in Hall.
  apply Forall_inv_tail, Forall_inv in Hall. cbn [fst snd] in Hall.
  apply issues_literals_nil in Hall as (s & Hs & Hin).
  unfold string_field. rewrite Hs.
  cbn [In] in Hin.
  destruct Hin as [<-|[<-|[<-|[<-|[<-|[]]]]]]; reflexivity.
Qed.

(** X8. A valid [create_document] call can be downloaded at once: the
    address reported to the client is [/api/generated/] followed by the
    stored name, which is the identifier, a hyphen and the reported file
    name; the type is the one asked for, and the download route answers
    that name with status 200, the bytes written and the media type of
    the document type. *)
Theorem created_document_is_served_with_its_type segs rawArgs generatedFiles w data :
  cwd = absolute_path segs -> Forall (fun s => plain_segment s = true) segs ->
  safeParse documentArgsSchema (or_empty_object (safeJsonParse rawArgs)) =
  ParseSuccess data ->
  exists g w' disposition,
    executeCreateDocument rawArgs generatedFiles w =
    Returned (DocumentCreated (gf_id g) (downloadUrl g) (gf_filename g),
              generatedFiles ++ [g]) w'
    /\ downloadUrl g = js "/api/generated/" ++ gf_storedFilename g
    /\ gf_storedFilename g = gf_id g ++ js "-" ++ gf_filename g
    /\ spec_type_name (gf_type g) = string_field (js "type") data
    /\ GET (gf_storedFilename g) w' =
       Returned
         (mkFileResponse 200
            (FileBody (createBufferForType (gf_type g) (string_field (js "content") data)))
            [(js "Content-Type", media_type (gf_type g));
             (js "Content-Disposition", disposition)]) w'.
Proof.
  intros Hcwd Hall Hparse.
  set (filename := string_field (js "filename") data).
  set (type := documentType_of (string_field (js "type") data)).
  set (stored := uuid_string (entropy (drawn w)) ++ js "-" ++
                 safeBase filename ++ EXTENSION_MAP type).
  exists (mkGeneratedFile (uuid_string (entropy (drawn w)))
            (safeBase filename ++ EXTENSION_MAP type) type
            (js "/api/generated/" ++ stored)
            (optional_string_field (js "summary") data) stored).
  eexists _, _. split.
  { unfold executeCreateDocument. rewrite Hparse. unfold bind.
    rewrite createDocumentFile_runs. reflexivity. }
  cbn [downloadUrl gf_storedFilename gf_id gf_filename gf_type].
  split; [reflexivity|]. split; [reflexivity|]. split.
  - apply validated_document_type. apply (safeParse_success _ _ _ Hparse).
  - match goal with
    | |- GET ?name ?w1 = _ =>
        destruct (GET_plain segs name w1 Hcwd Hall (stored_name_plain _ _ _))
          as [Hpath Hget]; rewrite Hget
    end.
    cbn [fs cdi_filename cdi_type cdi_content]. fold filename type stored.
    fold stored in Hpath. rewrite Hpath, lookup_insert_eq.
    unfold stored. rewrite extname_stored, MIME_MAP_of_type. reflexivity.
Qed.

(** *** Paragraphs of a word-processor document *)

Lemma blank_line_here c s :
  match_here blank_lines_re false (c :: s) =
  if is_char ch_lf c then many1 (is_char ch_lf) (fun r => Some r) s else None.
Proof. reflexivity. Qed.

Lemma many1_not_here (p : N -> bool) k s :
  match s with [] => True | c :: _ => p c = false end -> many1 p k s = None.
Proof. destruct s as [|c s]; [reflexivity|]. cbn [many1]. intros ->. reflexivity. Qed.

Lemma startsWith_unit c b x : startsWith (c :: b) [x] = jschar_eqb c x.
Proof. cbn [startsWith]. destruct b; apply andb_true_r. Qed.

Lemma endsWith_cons c s x : s <> [] -> endsWith (c :: s) [x] = endsWith s [x].
Proof.
  intros Hne. unfold endsWith. cbn [rev].
  destruct (rev s) as [|y l] eqn:E.
  - apply (f_equal (@rev N)) in E. rewrite rev_involutive in E. contradiction.
  - cbn [app]. rewrite !startsWith_unit. reflexivity.
Qed.

(** A run of line feeds is taken whole. *)
Lemma many1_line_feeds n b :
  startsWith b [ch_lf] = false ->
  many1 (is_char ch_lf) (fun r => Some r) (repeat ch_lf (S n) ++ b) = Some b.
Proof.
  intros Hb. induction n as [|n IH].
  - cbn [repeat app many1]. change (is_char ch_lf ch_lf) with true. cbv iota.
    rewrite many1_not_here; [reflexivity|].
    destruct b as [|c b]; [exact I|].
    rewrite startsWith_unit in Hb. exact Hb.
  - change (repeat ch_lf (S (S n)) ++ b) with (ch_lf :: (repeat ch_lf (S n) ++ b)).
    cbn [many1]. change (is_char ch_lf ch_lf) with true. cbv iota.
    rewrite IH. reflexivity.
Qed.

Lemma split_go_skip re acc pre s :
  split_go re acc (length pre) (pre ++ s) = split_go re acc 0 s.
Proof.
  induction pre as [|c pre IH]; [reflexivity|].
  cbn [length app split_go]. exact IH.
Qed.

Lemma includes_tail c s t : includes s t -> includes (c :: s) t.
Proof. intros (pre & post & ->). exists (c :: pre), post. reflexivity. Qed.

(** Where no blank line starts, the expression does not match. *)
Lemma no_blank_line_here c s rest :
  ~ includes (c :: s) [ch_lf; ch_lf] -> endsWith (c :: s) [ch_lf] = false ->
  match_here blank_lines_re false (c :: s ++ rest) = None
  /\ ~ includes s [ch_lf; ch_lf]
  /\ (s = [] \/ endsWith s [ch_lf] = false).
Proof.
  intros Hno Hend. split; [|split].
  - rewrite blank_line_here. unfold is_char at 1.
    destruct (jschar_eqb c ch_lf) eqn:Ec; [|reflexivity].
    apply N.eqb_eq in Ec. subst c.
    apply many1_not_here. destruct s as [|d s]; [discriminate Hend|].
    cbn [app]. unfold is_char. destruct (jschar_eqb d ch_lf) eqn:Ed; [|reflexivity].
    apply N.eqb_eq in Ed. subst d. exfalso. apply Hno. exists [], s. reflexivity.
  - intros H. apply Hno, includes_tail, H.
  - destruct s as [|d s]; [left; reflexivity|right].
    rewrite endsWith_cons in Hend by discriminate. exact Hend.
Qed.

Lemma split_block acc a suffix :
  ~ includes a [ch_lf; ch_lf] -> a = [] \/ endsWith a [ch_lf] = false ->
  (forall acc', split_go blank_lines_re acc' 0 suffix =
                match suffix with
                | [] => [rev acc']
                | _ :: _ => rev acc' :: split_go blank_lines_re [] 0
                              (dropWhile (is_char ch_lf) suffix)
                end) ->
  split_go blank_lines_re acc 0 (a ++ suffix) =
  match suffix with
  | [] => [rev acc ++ a]
  | _ :: _ => (rev acc ++ a) :: split_go blank_lines_re [] 0
                (dropWhile (is_char ch_lf) suffix)
  end.
Proof.
  intros Hno Hend Hsuffix. revert acc.
  induction a as [|c a IH]; intros acc.
  - cbn [app]. rewrite Hsuffix, app_nil_r. reflexivity.
  - destruct Hend as [Hend|Hend]; [discriminate Hend|].
    destruct (no_blank_line_here c a suffix Hno Hend) as (Hhere & Hno' & Hend').
    cbn [app split_go]. cbn [app] in Hhere. rewrite Hhere.
    rewrite (IH Hno' Hend'). cbn [rev]. rewrite <- !app_assoc.
    destruct suffix; reflexivity.
Qed.

Lemma dropWhile_line_feeds n b :
  startsWith b [ch_lf] = false ->
  dropWhile (is_char ch_lf) (repeat ch_lf n ++ b) = b.
Proof.
  intros Hb. induction n as [|n IH].
  - destruct b as [|c b]; [reflexivity|].
    rewrite startsWith_unit in Hb.
    cbn [repeat app dropWhile]. unfold is_char. rewrite Hb. reflexivity.
  - cbn [repeat app dropWhile]. change (is_char ch_lf ch_lf) with true. exact IH.
Qed.

Lemma split_blank_run acc k b :
  startsWith b [ch_lf] = false ->
  split_go blank_lines_re acc 0 (repeat ch_lf (S (S k)) ++ b) =
  rev acc :: split_go blank_lines_re [] 0 b.
Proof.
  intros Hb.
  change (repeat ch_lf (S (S k)) ++ b) with (ch_lf :: (repeat ch_lf (S k) ++ b)).
  cbn [split_go]. rewrite blank_line_here. change (is_char ch_lf ch_lf) with true.
  cbv iota. rewrite (many1_line_feeds k b Hb).
  replace (length b <? length (ch_lf :: repeat ch_lf (S k) ++ b))%nat with true
    by (symmetry; apply Nat.ltb_lt; cbn [length]; rewrite length_app; clear; lia).
  replace (length (ch_lf :: repeat ch_lf (S k) ++ b) - length b - 1)%nat
    with (length (repeat ch_lf (S k)))
    by (cbn [length]; rewrite length_app; cbn [length]; clear; lia).
  rewrite split_go_skip. reflexivity.
Qed.

Lemma docxParagraphs_split content :
  docxParagraphs content = map trim (split blank_lines_re content).
Proof.
  unfold docxParagraphs, split.
  pose proof (split_go_not_nil blank_lines_re [] 0 content) as Hne.
  destruct (split_go blank_lines_re [] 0 content); [congruence|reflexivity].
Qed.

(** X9. A block without blank line is one paragraph, its surrounding
    white space removed: single line feeds do not split.  A run of two or
    more line feeds after such a block separates it from what follows:
    the block is the first paragraph, and the paragraphs of the rest come
    after it. *)
Theorem docx_blocks_become_paragraphs (a b : jsstring) (k : nat) :
  ~ includes a [ch_lf; ch_lf] -> endsWith a [ch_lf] = false ->
  startsWith b [ch_lf] = false ->
  docxParagraphs a = [trim a]
  /\ docxParagraphs (a ++ repeat ch_lf (S (S k)) ++ b) = trim a :: docxParagraphs b.
Proof.
  intros Hno Hend Hb.
  assert (Hend' : a = [] \/ endsWith a [ch_lf] = false) by (right; exact Hend).
  rewrite !docxParagraphs_split. unfold split. split.
  - rewrite <- (app_nil_r a) at 1.
    rewrite (split_block [] a [] Hno Hend'); [reflexivity|].
    intros acc'. reflexivity.
  - rewrite (split_block [] a (repeat ch_lf (S (S k)) ++ b) Hno Hend').
    + change (repeat ch_lf (S (S k)) ++ b) with (ch_lf :: (repeat ch_lf (S k) ++ b)).
      cbv iota. change (ch_lf :: (repeat ch_lf (S k) ++ b))
        with (repeat ch_lf (S (S k)) ++ b).
      rewrite (dropWhile_line_feeds _ b Hb). reflexivity.
    + intros acc'. rewrite (split_blank_run acc' k b Hb).
      change (repeat ch_lf (S (S k)) ++ b) with (ch_lf :: (repeat ch_lf (S k) ++ b)).
      cbv iota. change (ch_lf :: (repeat ch_lf (S k) ++ b))
        with (repeat ch_lf (S (S k)) ++ b).
      rewrite (dropWhile_line_feeds _ b Hb). reflexivity.
Qed.

(** *** The text of the reply *)

Lemma first_output_text_head content :
  first_output_text content =
  head (flat_map (fun part =>
                    match part with
                    | OutputText t => [default [] t]
                    | OtherContent _ => []
                    end) content).
Proof.
  induction content as [|[t|type] content IH]; [reflexivity|reflexivity|exact IH].
Qed.

(** X10. The text of the assistant message is the first [output_text]
    part of the response, in document order over its [message] items (an
    absent text counting as empty); parts after the first are not used,
    and a response without such a part gives the empty text. *)
Theorem extractAssistantText_is_the_first_output_text (response : Response) :
  extractAssistantText response = default [] (head (output_texts response)).
Proof.
  unfold extractAssistantText, output_texts.
  induction (default [] (output response)) as [|item items IH]; [reflexivity|].
  destruct item as [name call_id args|content|type]; cbn [extractAssistantText_items flat_map];
    try exact IH.
  rewrite first_output_text_head.
  destruct (flat_map _ (default [] content)) as [|t ts]; [exact IH|reflexivity].
Qed.

(** *** The input built for the backend *)

Lemma translated_shape w m am :
  translated w m am ->
  am_role am = role m
  /\ exists parts,
       am_content am = first_part m :: parts
       /\ length parts = length (default [] (attachments m)).
Proof.
  intros (Hrole & parts & Hcontent & Hall). split; [exact Hrole|].
  exists parts. split; [exact Hcontent|].
  symmetry. apply (Forall2_length _ _ _ Hall).
Qed.

(** X11. Building the input reads the store and changes nothing: it
    returns in the same world, with one entry per message of the
    conversation, in order and under the same role, whose content is the
    text of the message (an output text for the assistant, an input text
    otherwise) followed by exactly one part per attachment. *)
Theorem conversation_is_translated_message_by_message (msgs : list RequestMessage)
    (w : World) :
  exists input,
    buildAzureInput msgs w = Returned input w
    /\ map am_role input = map role msgs
    /\ Forall2
         (fun m am =>
            exists parts,
              am_content am =
              match role m with
              | assistant => output_text (msg_text m)
              | _ => input_text (msg_text m)
              end :: parts
              /\ length parts = length (default [] (attachments m)))
         msgs input.
Proof.
  destruct (buildAzureInput_returns msgs w) as (input & Hrun & Hall).
  exists input. split; [exact Hrun|]. clear Hrun.
  induction Hall as [|m am msgs input Hm Hall [IHr IHs]].
  - split; [reflexivity|constructor].
  - destruct (translated_shape w m am Hm) as (Hrole & parts & Hcontent & Hlen).
    split; [cbn [map]; rewrite Hrole, IHr; reflexivity|].
    constructor; [|exact IHs]. exists parts. split; [exact Hcontent|exact Hlen].
Qed.

(** *** Arguments that cannot be used *)

(** X12. A call without usable arguments is answered field by field:
    when the arguments are the empty text, are no JSON text, or are the
    JSON [null] or [{}], both executors validate the empty object, and
    the answer lists every required field ([title] and [html]; or
    [filename], [type] and [content]); nothing is created. *)
Theorem missing_arguments_are_reported_field_by_field (rawArgs : jsstring)
    (artifacts : list Artifact) (generatedFiles : list GeneratedFile) (w : World) :
  rawArgs = [] \/ JSON_parse rawArgs = None \/ JSON_parse rawArgs = Some JNull
  \/ JSON_parse rawArgs = Some (JObj []) ->
  executeCreateArtifact rawArgs artifacts w =
  Returned (ToolFailure (js "Invalid artifact arguments") missing_artifact_fields,
            artifacts) w
  /\ executeCreateDocument rawArgs generatedFiles w =
     Returned (ToolFailure (js "Invalid document arguments") missing_document_fields,
               generatedFiles) w.
Proof.
  intros Hargs.
  assert (Hempty : or_empty_object (safeJsonParse rawArgs) = JObj []).
  { unfold safeJsonParse. destruct Hargs as [->|[H|[H|H]]]; [reflexivity|..];
      destruct (truthy rawArgs); try rewrite H; reflexivity. }
  split.
  - apply executeCreateArtifact_failure. rewrite Hempty. reflexivity.
  - apply executeCreateDocument_failure. rewrite Hempty. reflexivity.
Qed.

(** X13. Arguments that are JSON but no object (an array, a text, a
    number, a truth value) fail validation as a whole: the answer names
    no field at all, and nothing is created. *)
Theorem non_object_arguments_name_no_field (rawArgs : jsstring) (v : JSON)
    (artifacts : list Artifact) (generatedFiles : list GeneratedFile) (w : World) :
  rawArgs <> [] -> JSON_parse rawArgs = Some v ->
  v <> JNull -> is_plain_object v = None ->
  executeCreateArtifact rawArgs artifacts w =
  Returned (ToolFailure (js "Invalid artifact arguments") [], artifacts) w
  /\ executeCreateDocument rawArgs generatedFiles w =
     Returned (ToolFailure (js "Invalid document arguments") [], generatedFiles) w.
Proof.
  intros Hne Hparse Hnull Hobj.
  assert (Hv : or_empty_object (safeJsonParse rawArgs) = v).
  { unfold safeJsonParse. destruct rawArgs; [congruence|].
    cbn [truthy]. rewrite Hparse. destruct v; try reflexivity. congruence. }
  split.
  - apply executeCreateArtifact_failure. rewrite Hv. unfold safeParse.
    rewrite Hobj. reflexivity.
  - apply executeCreateDocument_failure. rewrite Hv. unfold safeParse.
    rewrite Hobj. reflexivity.
Qed.

(** *** The declared tools and the validation *)

(** X14. The tools declared to the model agree with the validation of
    their arguments: the properties declared are the keys validated, in
    order; arguments that pass validation hold every field declared as
    required, as a non-empty text; and a field declared with an
    enumeration holds one of its values. *)
Theorem validated_arguments_carry_the_declared_fields (tool : FunctionTool)
    (v : JSON) (data : list (jsstring * JSON)) :
  In tool getFunctionTools ->
  safeParse (tool_schema (tool_name tool)) v = ParseSuccess data ->
  map fst (tool_schema (tool_name tool)) =
  map (fun p => fst (fst (fst p))) (tool_properties tool)
  /\ Forall (fun k => exists s, field k data = Some (JStr s) /\ s <> [])
       (tool_required tool)
  /\ forall k type description options,
       In (k, type, description, Some options) (tool_properties tool) ->
       exists s, field k data = Some (JStr s) /\ In s options.
Proof.
  intros Hin Hparse. apply safeParse_success in Hparse as [_ Hall].
  assert (Hstr : forall k max,
            issues (ZString 1 max) (field k data) = [] ->
            exists s, field k data = Some (JStr s) /\ s <> []).
  { intros k max H. apply issues_string_nil in H as (s & Hs & Hlen).
    exists s. split; [exact Hs|]. intros ->. cbn in Hlen. clear - Hlen. lia. }
  destruct Hin as [<-|[<-|[]]]; cbn [tool_name tool_required tool_properties] in *.
  - change (tool_schema (js "create_artifact")) with artifactArgsSchema in *.
    unfold artifactArgsSchema in Hall.
    split; [reflexivity|]. split.
    + pose proof (Forall_inv Hall) as Htitle.
      pose proof (Forall_inv (Forall_inv_tail (Forall_inv_tail Hall))) as Hhtml.
      cbn [fst snd] in Htitle, Hhtml.
      constructor; [apply (Hstr _ _ Htitle)|].
      constructor; [apply (Hstr _ _ Hhtml)|constructor].
    + intros k type description options Hk. cbn [In] in Hk.
      repeat (destruct Hk as [Hk|Hk]; [discriminate Hk|]). destruct Hk.
  - change (tool_schema (js "create_document")) with documentArgsSchema in *.
    unfold documentArgsSchema in Hall.
    pose proof (Forall_inv Hall) as Hfilename.
    pose proof (Forall_inv (Forall_inv_tail Hall)) as Htype.
    pose proof (Forall_inv (Forall_inv_tail (Forall_inv_tail Hall))) as Hcontent.
    cbn [fst snd] in Hfilename, Htype, Hcontent.
    apply issues_literals_nil in Htype as (t & Ht & Hopt).
    split; [reflexivity|]. split.
    + constructor; [apply (Hstr _ _ Hfilename)|].
      constructor.
      { exists t. split; [exact Ht|]. intros ->.
        cbn [In] in Hopt. repeat (destruct Hopt as [Hopt|Hopt]; [discriminate Hopt|]).
        destruct Hopt. }
      constructor; [apply (Hstr _ _ Hcontent)|constructor].
    + intros k type description options Hk. cbn [In] in Hk.
      destruct Hk as [Hk|[Hk|[Hk|[Hk|[]]]]]; try discriminate Hk.
      injection Hk as <- _ _ <-. exists t. split; [exact Ht|exact Hopt].
Qed.

(** *** What a turn of tool calls adds *)

Lemma keeps_files_refl w : keeps_files w w.
Proof. intros p H. exact H. Qed.

Lemma keeps_files_trans w1 w2 w3 :
  keeps_files w1 w2 -> keeps_files w2 w3 -> keeps_files w1 w3.
Proof. intros H12 H23 p H. apply H23, H12, H. Qed.

Lemma downloadable_kept w w' g : keeps_files w w' -> downloadable w g -> downloadable w' g.
Proof. intros Hk [Hurl Hin]. split; [exact Hurl|apply Hk, Hin]. Qed.

Lemma insert_keeps (m : gmap (list N) (list N)) p q b :
  is_Some (m !! p) -> is_Some (<[q := b]> m !! p).
Proof.
  intros H. destruct (decide (q = p)) as [->|Hne].
  - rewrite lookup_insert_eq. eexists. reflexivity.
  - rewrite lookup_insert_ne by exact Hne. exact H.
Qed.

(** One output item: at most one artifact or one file more, one
    identifier drawn for it, and the store keeps what it had. *)
Lemma handleToolCall_grows item outs arts files w :
  exists new newA newF w',
    handleToolCall item (outs, arts, files) w =
    Returned (outs ++ new, arts ++ newA, files ++ newF) w'
    /\ map to_call_id new = match answerable item with Some c => [c] | None => [] end
    /\ (length newA + length newF <= length new)%nat
    /\ drawn w' = (drawn w + length newA + length newF)%nat
    /\ keeps_files w w'
    /\ sent w' = sent w
    /\ Forall (downloadable w') newF.
Proof.
  assert (Hidle : exists new newA newF w',
             Returned (outs, arts, files) w =
             Returned (outs ++ new, arts ++ newA, files ++ newF) w'
             /\ map to_call_id new = []
             /\ (length newA + length newF <= length new)%nat
             /\ drawn w' = (drawn w + length newA + length newF)%nat
             /\ keeps_files w w' /\ sent w' = sent w
             /\ Forall (downloadable w') newF).
  { exists [], [], [], w. rewrite !app_nil_r. cbn [length]. rewrite !Nat.add_0_r.
    repeat split; try reflexivity; [apply keeps_files_refl|constructor]. }
  destruct item as [name call_id args|content|type]; try exact Hidle.
  cbn [handleToolCall answerable].
  destruct (call_id_of call_id) as [cid|]; [|exact Hidle]. clear Hidle.
  destruct (jsstring_eqb name (js "create_artifact")).
  { unfold bind.
    destruct (safeParse artifactArgsSchema
                (or_empty_object (safeJsonParse (default (js "{}") args))))
      as [data|d] eqn:E.
    - rewrite (executeCreateArtifact_success _ _ _ _ E). cbv zeta.
      eexists [_], [_], [], _. rewrite (app_nil_r files).
      split; [reflexivity|]. cbn [length drawn sent fs].
      repeat split; try reflexivity; try (clear; lia);
        [intros p H; exact H|constructor].
    - rewrite (executeCreateArtifact_failure _ _ _ _ E).
      eexists [_], [], [], _. rewrite (app_nil_r files), (app_nil_r arts).
      split; [reflexivity|]. cbn [length].
      repeat split; try reflexivity; try (clear; lia);
        [apply keeps_files_refl|constructor]. }
  destruct (jsstring_eqb name (js "create_document")).
  { unfold bind.
    destruct (safeParse documentArgsSchema
                (or_empty_object (safeJsonParse (default (js "{}") args))))
      as [data|d] eqn:E.
    - unfold executeCreateDocument. rewrite E. unfold bind.
      rewrite createDocumentFile_runs. cbv zeta.
      eexists [_], [], [_], _. rewrite (app_nil_r arts).
      split; [reflexivity|]. cbn [length drawn sent fs].
      repeat split; try reflexivity; try (clear; lia).
      + intros p H. cbn [fs]. apply insert_keeps, H.
      + constructor; [|constructor]. split; [reflexivity|].
        cbn [gf_storedFilename dcr_storedFilename fs]. rewrite lookup_insert_eq.
        eexists. reflexivity.
    - rewrite (executeCreateDocument_failure _ _ _ _ E).
      eexists [_], [], [], _. rewrite (app_nil_r files), (app_nil_r arts).
      split; [reflexivity|]. cbn [length].
      repeat split; try reflexivity; try (clear; lia);
        [apply keeps_files_refl|constructor]. }
  eexists [_], [], [], _. rewrite (app_nil_r files), (app_nil_r arts).
  split; [reflexivity|]. cbn [length].
  repeat split; try reflexivity; try (clear; lia); [apply keeps_files_refl|constructor].
Qed.

Lemma handleToolItems_grows items outs arts files w :
  exists new newA newF w',
    handleToolItems items (outs, arts, files) w =
    Returned (outs ++ new, arts ++ newA, files ++ newF) w'
    /\ map to_call_id new = omap answerable items
    /\ (length newA + length newF <= length new)%nat
    /\ drawn w' = (drawn w + length newA + length newF)%nat
    /\ keeps_files w w'
    /\ sent w' = sent w
    /\ Forall (downloadable w') newF.
Proof.
  revert outs arts files w.
  induction items as [|item items IH]; intros outs arts files w.
  - exists [], [], [], w. rewrite !app_nil_r. cbn [length]. rewrite !Nat.add_0_r.
    repeat split; try reflexivity; [apply keeps_files_refl|constructor].
  - destruct (handleToolCall_grows item outs arts files w)
      as (n1 & a1 & f1 & w1 & H1 & Hid1 & Hle1 & Hd1 & Hk1 & Hs1 & Hf1).
    destruct (IH (outs ++ n1) (arts ++ a1) (files ++ f1) w1)
      as (n2 & a2 & f2 & w2 & H2 & Hid2 & Hle2 & Hd2 & Hk2 & Hs2 & Hf2).
    exists (n1 ++ n2), (a1 ++ a2), (f1 ++ f2), w2.
    split; [|split; [|split; [|split; [|split; [|split]]]]].
    + cbn [handleToolItems]. unfold bind at 1. rewrite H1, H2, !app_assoc. reflexivity.
    + rewrite map_app, Hid2. cbn [omap list_omap]. revert Hid1.
      destruct (answerable item); intros ->; reflexivity.
    + rewrite !length_app. clear - Hle1 Hle2. lia.
    + rewrite !length_app. clear - Hd1 Hd2. lia.
    + apply (keeps_files_trans _ _ _ Hk1 Hk2).
    + congruence.
    + apply Forall_app. split; [|exact Hf2].
      eapply Forall_impl; [exact Hf1|]. intros g. apply downloadable_kept, Hk2.
Qed.

(** X15. What handling the tool calls of a response returns only adds
    to what it was given, and nothing was sent to the backend meanwhile:
    there is one output per function call that carries a call id, in
    order; the artifacts and generated files given are kept and new ones
    are appended, at most one per output; one identifier is drawn per
    new artifact or file; the store keeps every file it had, and every
    new generated file can be fetched. *)
Theorem handleToolCalls_only_adds (response : Response) (artifacts : list Artifact)
    (generatedFiles : list GeneratedFile) (w : World) (outs : list ToolOutput)
    (artifacts' : list Artifact) (generatedFiles' : list GeneratedFile) (w' : World) :
  handleToolCalls response artifacts generatedFiles w =
  Returned (outs, artifacts', generatedFiles') w' ->
  exists newArtifacts newFiles,
    artifacts' = artifacts ++ newArtifacts
    /\ generatedFiles' = generatedFiles ++ newFiles
    /\ map to_call_id outs = answerable_ids response
    /\ (length newArtifacts + length newFiles <= length outs)%nat
    /\ drawn w' = (drawn w + length newArtifacts + length newFiles)%nat
    /\ keeps_files w w'
    /\ sent w' = sent w
    /\ Forall (downloadable w') newFiles.
Proof.
  intros Hrun.
  destruct (handleToolItems_grows (default [] (output response)) [] artifacts
              generatedFiles w)
    as (new & newA & newF & w1 & H & Hids & Hle & Hdrawn & Hkeeps & Hsent & Hfetch).
  unfold handleToolCalls in Hrun. rewrite H in Hrun.
  injection Hrun as <- <- <- <-.
  exists newA, newF.
  split; [reflexivity|]. split; [reflexivity|]. split; [exact Hids|].
  split; [exact Hle|]. split; [exact Hdrawn|]. split; [exact Hkeeps|].
  split; [exact Hsent|exact Hfetch].
Qed.

(** The whole loop: what it returns is what it was given and what the
    turns added. *)
Lemma toolLoop_grows fuel response arts files outs w r w' :
  toolLoop fuel response arts files outs w = Some (Returned r w') ->
  exists newA newF,
    rr_artifacts r = arts ++ newA /\ rr_generatedFiles r = files ++ newF
    /\ drawn w' = (drawn w + length newA + length newF)%nat
    /\ keeps_files w w'
    /\ Forall (downloadable w') newF.
Proof.
  revert response arts files outs w.
  induction fuel as [|fuel IH]; intros response arts files outs w H.
  - destruct outs; [|discriminate H]. injection H as <- <-.
    exists [], []. cbn [rr_artifacts rr_generatedFiles length].
    rewrite !app_nil_r, !Nat.add_0_r.
    repeat split; try reflexivity; [apply keeps_files_refl|constructor].
  - destruct outs as [|x outs].
    { injection H as <- <-. exists [], [].
      cbn [rr_artifacts rr_generatedFiles length].
      rewrite !app_nil_r, !Nat.add_0_r.
      repeat split; try reflexivity; [apply keeps_files_refl|constructor]. }
    rewrite toolLoop_turn in H by discriminate.
    destruct (backend _) as [response'|e]; [|discriminate H].
    unfold bind_run in H.
    match type of H with
    | context [handleToolCalls response' arts files ?w1] =>
        destruct (handleToolItems_grows (default [] (output response')) [] arts files w1)
          as (n1 & a1 & f1 & w2 & H1 & _ & _ & Hd1 & Hk1 & _ & Hf1)
    end.
    unfold handleToolCalls in H. rewrite H1 in H.
    destruct (IH _ _ _ _ _ H) as (a2 & f2 & Ha & Hf & Hd2 & Hk2 & Hf2).
    exists (a1 ++ a2), (f1 ++ f2). rewrite Ha, Hf, !app_assoc, !length_app.
    split; [reflexivity|]. split; [reflexivity|]. cbn [drawn] in Hd1. split.
    + clear - Hd1 Hd2. lia.
    + split.
      * eapply keeps_files_trans; [|exact Hk2]. exact Hk1.
      * apply Forall_app. split; [|exact Hf2].
        eapply Forall_impl; [exact Hf1|]. intros g. apply downloadable_kept, Hk2.
Qed.

Lemma runResponsesCall_grows fuel body w r w' :
  runResponsesCall fuel body w = Some (Returned r w') ->
  drawn w' = (drawn w + length (rr_artifacts r) + length (rr_generatedFiles r))%nat
  /\ keeps_files w w'
  /\ Forall (downloadable w') (rr_generatedFiles r).
Proof.
  intros H.
  destruct (buildAzureInput_returns (messages body) w) as (input & Hin & _).
  rewrite (runResponsesCall_start _ _ _ _ Hin) in H.
  destruct (backend _) as [response|e]; [|discriminate H].
  unfold bind_run in H.
  match type of H with
  | context [handleToolCalls response [] [] ?w1] =>
      destruct (handleToolItems_grows (default [] (output response)) [] [] [] w1)
        as (n1 & a1 & f1 & w2 & H1 & _ & _ & Hd1 & Hk1 & _ & Hf1)
  end.
  unfold handleToolCalls in H. rewrite H1 in H.
  destruct (toolLoop_grows _ _ _ _ _ _ _ _ H) as (a2 & f2 & Ha & Hf & Hd2 & Hk2 & Hf2).
  rewrite Ha, Hf, !length_app. cbn [app length drawn] in *. split; [|split].
  - clear - Hd1 Hd2. lia.
  - eapply keeps_files_trans; [|exact Hk2]. exact Hk1.
  - apply Forall_app. split; [|exact Hf2].
    eapply Forall_impl; [exact Hf1|]. intros g. apply downloadable_kept, Hk2.
Qed.

(** X16. A reply with status 200 lists what the call created: the
    message is the assistant's and carries the time of the reply; one
    identifier was drawn for each artifact and each generated file of the
    message and one more, the last, for the message itself; every
    generated file of the message can be fetched at the address given
    for it, and the store keeps every file it had before. *)
Theorem chat_reply_lists_what_was_created (fuel : nat) (payload : ChatRequestPayload)
    (w : World) (message : ChatMessage) (w' : World) :
  POST fuel (BodyValid payload) w = Some (ChatOk message, w') ->
  cm_role message = assistant
  /\ createdAt message = now
  /\ drawn w' =
     (drawn w + length (cm_artifacts message) + length (cm_generatedFiles message) + 1)%nat
  /\ cm_id message = uuid_string (entropy (drawn w' - 1))
  /\ Forall (downloadable w') (cm_generatedFiles message)
  /\ keeps_files w w'.
Proof.
  unfold POST. destruct (negb _ || negb _); [discriminate|].
  unfold ensureDirectories, bind, mkdir, ret.
  destruct (runResponsesCall fuel payload w) as [[r w1|e w1]|] eqn:E; try discriminate.
  cbn [randomUUID]. intros [= <- <-].
  destruct (runResponsesCall_grows _ _ _ _ _ E) as (Hd & Hk & Hf).
  cbn [cm_role createdAt cm_artifacts cm_generatedFiles cm_id drawn].
  split; [reflexivity|]. split; [reflexivity|]. split; [clear - Hd; lia|].
  split; [f_equal; f_equal; clear; lia|]. split.
  - eapply Forall_impl; [exact Hf|]. intros g [Hurl Hin]. split; [exact Hurl|exact Hin].
  - intros p H. apply Hk, H.
Qed.

(** *** The requests of a call *)

Lemma threaded_nil before : threaded before [].
Proof. intros pre req post H. destruct pre; discriminate H. Qed.

Lemma threaded_cons before reply outs conts :
  backend before = inl reply ->
  map to_call_id outs = answerable_ids reply -> outs <> [] ->
  threaded (before ++ [ContinueRequest defaultDeployment (response_id reply) outs]) conts ->
  threaded before (ContinueRequest defaultDeployment (response_id reply) outs :: conts).
Proof.
  intros Hb Hids Hne Hrest pre req post H. destruct pre as [|x pre].
  - injection H as <- _. exists reply, outs. rewrite app_nil_r.
    repeat split; assumption.
  - injection H as <- H.
    destruct (Hrest pre req post H) as (reply' & outs' & Hreq & Hb' & Hids' & Hne').
    exists reply', outs'. rewrite <- app_assoc in Hb'.
    repeat split; assumption.
Qed.

Lemma toolLoop_threaded fuel response arts files outs w o :
  backend (sent w) = inl response ->
  map to_call_id outs = answerable_ids response ->
  toolLoop fuel response arts files outs w = Some o ->
  exists conts, sent (world_of o) = sent w ++ conts /\ threaded (sent w) conts.
Proof.
  revert response arts files outs w.
  induction fuel as [|fuel IH]; intros response arts files outs w Hb Hids H.
  - destruct outs; [|discriminate H]. injection H as <-.
    exists []. rewrite app_nil_r. split; [reflexivity|apply threaded_nil].
  - destruct outs as [|x outs].
    { injection H as <-. exists []. rewrite app_nil_r.
      split; [reflexivity|apply threaded_nil]. }
    rewrite toolLoop_turn in H by discriminate.
    set (request := ContinueRequest defaultDeployment (response_id response) (x :: outs))
      in *.
    destruct (backend (sent w ++ [request])) as [response'|e] eqn:Eb.
    + unfold bind_run in H.
      destruct (handleToolCalls_run response' arts files
                  (mkWorld (drawn w) (fs w) (sent w ++ [request])))
        as (outs' & arts' & files' & w' & Hh & Hids' & Hs).
      rewrite Hh in H. cbn [sent] in Hs.
      assert (Hb' : backend (sent w') = inl response') by (rewrite Hs; exact Eb).
      destruct (IH response' arts' files' outs' w' Hb' Hids' H) as (conts & Hsent & Hthr).
      exists (request :: conts). rewrite Hsent, Hs, <- app_assoc. split; [reflexivity|].
      apply threaded_cons; [exact Hb|exact Hids|discriminate|].
      rewrite Hs in Hthr. exact Hthr.
    + injection H as <-. cbn [world_of sent]. exists [request]. split; [reflexivity|].
      apply threaded_cons; [exact Hb|exact Hids|discriminate|apply threaded_nil].
Qed.

(** X17. The requests of a call form one thread.  The first carries the
    translated conversation, the temperature (0.4 when none is given)
    and the two declared tools; every later one is a continuation that
    names the reply to the requests sent before it and carries one
    output per answerable call of that reply, never an empty list.  This
    holds however the call ends: by a result or by an error. *)
Theorem continuations_answer_the_previous_reply (fuel : nat)
    (body : ChatRequestPayload) (w : World) (o : Outcome RunResult) :
  runResponsesCall fuel body w = Some o ->
  exists input conts,
    buildAzureInput (messages body) w = Returned input w
    /\ sent (world_of o) =
       sent w ++
       CreateRequest defaultDeployment input (default (js "0.4") (temperature body))
         getFunctionTools :: conts
    /\ threaded (sent w ++ [first_request body input]) conts.
Proof.
  intros H.
  destruct (buildAzureInput_returns (messages body) w) as (input & Hin & _).
  exists input. rewrite (runResponsesCall_start _ _ _ _ Hin) in H.
  destruct (backend (sent w ++ [first_request body input])) as [response|e] eqn:Eb.
  - unfold bind_run in H.
    destruct (handleToolCalls_run response [] []
                (mkWorld (drawn w) (fs w) (sent w ++ [first_request body input])))
      as (outs & arts & files & w1 & Hh & Hids & Hs).
    rewrite Hh in H. cbn [sent] in Hs.
    assert (Hb : backend (sent w1) = inl response) by (rewrite Hs; exact Eb).
    destruct (toolLoop_threaded _ _ _ _ _ _ _ Hb Hids H) as (conts & Hsent & Hthr).
    exists conts. split; [exact Hin|]. rewrite Hsent, Hs, <- app_assoc.
    split; [reflexivity|]. rewrite Hs in Hthr. exact Hthr.
  - injection H as <-. exists []. split; [exact Hin|].
    split; [reflexivity|apply threaded_nil].
Qed.

(** *** Errors of the chat route *)

(** X18. The chat route does not undo what a tool did.  When the first
    reply asks for a document with valid arguments and the backend then
    fails on the continuation, the answer is 500 with the message of the
    failure, and the document written meanwhile stays in the store; the
    client is told neither its name nor its address. *)
Theorem backend_failure_leaves_the_document_behind (fuel : nat)
    (payload : ChatRequestPayload) (w : World) (input : list AzureMessage)
    (reply : Response) (cid rawArgs : jsstring) (data : list (jsstring * JSON))
    (e : jsstring) :
  env_set AZURE_OPENAI_API_KEY = true -> env_set AZURE_OPENAI_ENDPOINT = true ->
  buildAzureInput (messages payload) w = Returned input w ->
  backend (sent w ++ [first_request payload input]) = inl reply ->
  output reply = Some [FunctionCall (js "create_document") (Some cid) (Some rawArgs)] ->
  cid <> [] ->
  safeParse documentArgsSchema (or_empty_object (safeJsonParse rawArgs)) =
  ParseSuccess data ->
  (forall outs,
      backend (sent w ++ [first_request payload input;
                          ContinueRequest defaultDeployment (response_id reply) outs]) =
      inr e) ->
  exists w',
    POST (S fuel) (BodyValid payload) w =
    Some (ChatServerError (js "Failed to generate a response from Azure OpenAI.")
            (Some e), w')
    /\ fs w' !! path_join [GENERATED_DIR;
                           uuid_string (entropy (drawn w)) ++ js "-" ++
                           safeBase (string_field (js "filename") data) ++
                           EXTENSION_MAP
                             (documentType_of (string_field (js "type") data))] =
       Some (createBufferForType (documentType_of (string_field (js "type") data))
               (string_field (js "content") data))
    /\ length (sent w') = (length (sent w) + 2)%nat.
Proof.
  intros Hkey Hend Hin Hreply Hout Hcid Hparse Hfail.
  unfold POST. rewrite Hkey, Hend. cbn [negb orb].
  unfold ensureDirectories, bind, mkdir, ret.
  rewrite (runResponsesCall_start _ _ _ _ Hin), Hreply.
  unfold bind_run at 1, handleToolCalls. rewrite Hout. cbn [default from_option id].
  cbn [handleToolItems]. unfold bind at 1. cbn [handleToolCall].
  destruct cid as [|c cid]; [congruence|]. cbn [call_id_of].
  change (jsstring_eqb (js "create_document") (js "create_artifact")) with false.
  change (jsstring_eqb (js "create_document") (js "create_document")) with true.
  cbv iota. unfold bind at 1. cbn [default from_option id].
  unfold executeCreateDocument. rewrite Hparse. unfold bind at 1.
  rewrite createDocumentFile_runs. cbv zeta. unfold ret at 1. cbv beta iota.
  unfold ret at 1. cbv beta iota. unfold ret at 1.
  cbn [drawn fs sent dcr_id dcr_filename dcr_type dcr_storedFilename
       cdi_filename cdi_type cdi_content].
  rewrite toolLoop_turn by (unfold push_output; discriminate).
  cbn [drawn fs sent]. rewrite <- app_assoc. cbn [app]. rewrite Hfail.
  eexists. split; [reflexivity|]. cbn [fs sent]. split.
  - apply lookup_insert_eq.
  - rewrite length_app. reflexivity.
Qed.

(** X19. The chat route checks its surroundings first and its input
    second, and contacts the backend only when both are in order: with a
    missing or empty key or endpoint the answer is 500 whatever the body
    is, and with the two set, a body that is no valid payload is
    answered 400; in both cases nothing is drawn, stored or sent. *)
Theorem chat_rejects_before_contacting_the_backend (fuel : nat) (body : RequestBody)
    (w : World) :
  env_set AZURE_OPENAI_API_KEY = false \/ env_set AZURE_OPENAI_ENDPOINT = false
  \/ (forall payload, body <> BodyValid payload) ->
  exists r,
    POST fuel body w = Some (r, w)
    /\ chat_status r =
       (if env_set AZURE_OPENAI_API_KEY && env_set AZURE_OPENAI_ENDPOINT
        then 400 else 500)
    /\ (env_set AZURE_OPENAI_API_KEY && env_set AZURE_OPENAI_ENDPOINT = false ->
        r = ChatServerError
              (js "Azure OpenAI environment variables are not configured.") None).
Proof.
  intros H. unfold POST.
  destruct (env_set AZURE_OPENAI_API_KEY) eqn:Ek;
    [destruct (env_set AZURE_OPENAI_ENDPOINT) eqn:Ee|];
    cbn [negb orb andb];
    try (eexists; split; [reflexivity|]; split; [reflexivity|intros _; reflexivity]).
  destruct H as [H|[H|H]]; try discriminate H.
  unfold ensureDirectories, bind, mkdir, ret.
  destruct body as [|details|payload].
  - eexists. split; [reflexivity|]. split; [reflexivity|discriminate].
  - eexists. split; [reflexivity|]. split; [reflexivity|discriminate].
  - exfalso. apply (H payload). reflexivity.
Qed.

(** *** The file name of a download *)

Lemma takeWhile_dropWhile p s : takeWhile p s ++ dropWhile p s = s.
Proof.
  induction s as [|c s IH]; [reflexivity|].
  cbn [takeWhile dropWhile]. destruct (p c); [cbn [app]; rewrite IH|]; reflexivity.
Qed.

Lemma takeWhile_Forall p s : Forall (fun c => p c = true) (takeWhile p s).
Proof.
  induction s as [|c s IH]; [constructor|].
  cbn [takeWhile]. destruct (p c) eqn:E; constructor; assumption.
Qed.

Lemma dropWhile_head p s c rest : dropWhile p s = c :: rest -> p c = false.
Proof.
  induction s as [|x s IH]; [discriminate|].
  cbn [dropWhile]. destruct (p x) eqn:E; [exact IH|].
  intros [= <- _]. exact E.
Qed.

(** An anchored expression matches at the beginning of the subject or
    nowhere. *)
Lemma search_anchored re s : search (Bol :: re) false s = None.
Proof. induction s as [|c s IH]; cbn [search match_here]; [|rewrite IH]; reflexivity. Qed.

Lemma search_anchored_start re s :
  match_here re true s = None -> search (Bol :: re) true s = None.
Proof.
  intros H. destruct s as [|c s]; cbn [search match_here]; rewrite H;
    [|rewrite search_anchored]; reflexivity.
Qed.

(** A run without hyphen that reaches the end of the name is not
    followed by a hyphen, wherever the repetition stops. *)
Lemma many1_no_hyphen bos g :
  Forall (fun c => not_char ch_hyphen c = true) g ->
  many1 (not_char ch_hyphen) (match_here [One (is_char ch_hyphen)] bos) g = None.
Proof.
  induction 1 as [|c g Hc Hg IH]; [reflexivity|].
  cbn [many1]. rewrite Hc, IH. destruct g as [|d g]; [reflexivity|].
  cbn [match_here]. unfold is_char. apply Forall_inv in Hg.
  unfold not_char in Hg. apply negb_true_iff in Hg. rewrite Hg. reflexivity.
Qed.

Lemma strip_id_prefix_spec s :
  replace_first id_prefix_re [] s = after_first_hyphen s.
Proof.
  unfold after_first_hyphen.
  pose proof (takeWhile_dropWhile (not_char ch_hyphen) s) as Hs.
  pose proof (takeWhile_Forall (not_char ch_hyphen) s) as Hg.
  destruct (takeWhile (not_char ch_hyphen) s) as [|x g] eqn:Eg.
  - unfold replace_first, id_prefix_re. rewrite search_anchored_start; [reflexivity|].
    cbn [match_here]. apply many1_not_here.
    cbn [app] in Hs. destruct s as [|c s]; [exact I|].
    apply (dropWhile_head _ (c :: s) c s). exact Hs.
  - destruct (dropWhile (not_char ch_hyphen) s) as [|h rest] eqn:Ed.
    + rewrite app_nil_r in Hs. subst s.
      unfold replace_first, id_prefix_re. rewrite search_anchored_start; [reflexivity|].
      change (many1 (not_char ch_hyphen) (match_here [One (is_char ch_hyphen)] false)
                (x :: g) = None).
      apply many1_no_hyphen, Hg.
    + pose proof (dropWhile_head _ _ _ _ Ed) as Hh.
      unfold not_char in Hh. apply negb_false_iff, N.eqb_eq in Hh. subst h.
      rewrite <- Hs. apply strip_id_prefix; [discriminate|].
      eapply Forall_impl; [exact Hg|]. intros c Hc.
      unfold not_char in Hc. apply negb_true_iff, N.eqb_neq in Hc. exact Hc.
Qed.

(** X20. The file name of the download is what follows the first
    hyphen of the stored name, when at least one unit stands before that
    hyphen; a stored name without hyphen, or one that begins with a
    hyphen, is given whole.  The name is put between double quotes as it
    is. *)
Theorem download_name_is_cut_at_the_first_hyphen (storedFilename : jsstring) :
  contentDisposition storedFilename =
  js "attachment; filename=" ++ [ch_dquote] ++
  after_first_hyphen storedFilename ++ [ch_dquote].
Proof. unfold contentDisposition. rewrite strip_id_prefix_spec. reflexivity. Qed.

(** *** The allow-list of the preview *)

(** X21. The allow-list handed to the sanitizer for the preview widens
    the defaults and takes nothing away: a tag is allowed exactly when it
    is a default or one of the nine tags added; on every tag the
    attributes [style], [class], [id] and every [data-] attribute are
    allowed; and an attribute the defaults allow on a tag stays allowed
    on it. *)
Theorem preview_allow_list_widens_the_defaults :
  (forall tag,
      In tag (allowedTags artifactSanitizeOptions) <->
      In tag defaults_allowedTags
      \/ In tag [js "img"; js "svg"; js "path"; js "circle"; js "line"; js "polyline";
                 js "polygon"; js "style"; js "canvas"])
  /\ (forall tag attr,
        In attr [js "style"; js "class"; js "id"] \/ startsWith attr (js "data-") = true ->
        attribute_allowed artifactSanitizeOptions tag attr = true)
  /\ (forall tag attr,
        attribute_allowed
          (mkSanitizeOptions defaults_allowedTags defaults_allowedAttributes) tag attr
        = true ->
        attribute_allowed artifactSanitizeOptions tag attr = true).
Proof.
  split; [|split].
  - intros tag. unfold artifactSanitizeOptions. cbn [allowedTags]. apply in_app_iff.
  - intros tag attr Hattr. unfold attribute_allowed, artifactSanitizeOptions.
    cbn [allowedAttributes]. rewrite existsb_app. apply orb_true_iff. right.
    rewrite key_of_with_key, jsstring_eqb_refl. cbn [default from_option id].
    rewrite existsb_app. apply orb_true_iff. right.
    destruct Hattr as [Hin|Hdata].
    + cbn [In] in Hin. destruct Hin as [<-|[<-|[<-|[]]]]; reflexivity.
    + apply startsWith_app in Hdata as [post ->].
      cbn [existsb]. rewrite !orb_true_iff. do 3 right. left.
      change (glob (js "data-*") (js "data-" ++ post)) with (glob [42] post).
      apply glob_star.
  - intros tag attr. unfold attribute_allowed, artifactSanitizeOptions.
    cbn [allowedAttributes]. rewrite !key_of_with_key, jsstring_eqb_refl.
    cbn [default from_option id]. apply existsb_incl. intros pattern Hin.
    apply in_app_iff in Hin. apply in_app_iff.
    destruct (jsstring_eqb (js "*") tag) eqn:E.
    + apply jsstring_eqb_eq in E. subst tag. left. cbn [default from_option id].
      apply in_app_iff. left. destruct Hin as [Hin|Hin]; exact Hin.
    + destruct Hin as [Hin|Hin]; [left; exact Hin|right].
      apply in_app_iff. left. exact Hin.
Qed.

(** *** The request schema *)

Lemma zString_Some min v s :
  zString min v = Some s -> v = Some (JStr s) /\ (min <= length s)%nat.
Proof.
  destruct v as [[]|]; cbn [zString]; try discriminate.
  destruct (Nat.ltb_spec (length s0) min); [discriminate|].
  intros [= <-]. split; [reflexivity|assumption].
Qed.

Lemma messageSchema_text v m : messageSchema v = Some m -> msg_text m <> [].
Proof.
  unfold messageSchema. destruct v; try discriminate. intros H.
  apply bind_Some in H as (id & _ & H).
  apply bind_Some in H as (r & _ & H).
  apply bind_Some in H as (t & Ht & H).
  apply bind_Some in H as (atts & _ & H).
  injection H as <-. cbn [msg_text].
  apply zString_Some in Ht as [_ Hlen]. intros ->. cbn in Hlen. clear - Hlen. lia.
Qed.

Lemma requestSchema_messages v payload :
  requestSchema v = Some payload ->
  messages payload <> [] /\ Forall (fun m => msg_text m <> []) (messages payload).
Proof.
  unfold requestSchema. destruct v; try discriminate. intros H.
  apply bind_Some in H as (msgs & Hmsgs & H).
  apply bind_Some in H as (t & _ & H).
  injection H as <-. cbn [messages].
  unfold zArray in Hmsgs.
  destruct (field (js "messages") fields) as [[]|]; try discriminate.
  destruct (Nat.ltb_spec (length items) 1) as [|Hlen]; [discriminate|].
  apply mapM_Some in Hmsgs. split.
  - intros ->. apply Forall2_length in Hmsgs. cbn in Hmsgs. clear - Hmsgs Hlen. lia.
  - clear Hlen. induction Hmsgs as [|x m items msgs Hx _ IH]; constructor; [|exact IH].
    apply (messageSchema_text x m Hx).
Qed.

(** X22. Only a well-formed conversation goes past the request schema:
    a body that it accepts has at least one message and no message with
    an empty text, and the route goes on with the payload read from it;
    any other body is answered 400 with the report of the schema, and
    nothing is drawn, stored or sent. *)
Theorem only_well_formed_conversations_pass (fuel : nat) (v : JSON) (w : World) :
  env_set AZURE_OPENAI_API_KEY = true -> env_set AZURE_OPENAI_ENDPOINT = true ->
  match requestSchema v with
  | Some payload =>
      messages payload <> []
      /\ Forall (fun m => msg_text m <> []) (messages payload)
      /\ POST fuel (request_body (Some v)) w = POST fuel (BodyValid payload) w
  | None =>
      POST fuel (request_body (Some v)) w =
      Some (ChatBadRequest (js "Invalid request payload.") (Some (zod_flatten v)), w)
  end.
Proof.
  intros Hkey Hend. unfold request_body.
  destruct (requestSchema v) as [payload|] eqn:E.
  - destruct (requestSchema_messages v payload E) as [Hne Hall].
    split; [exact Hne|]. split; [exact Hall|reflexivity].
  - unfold POST. rewrite Hkey, Hend. reflexivity.
Qed.

(** *** The page and the chat route together *)

Lemma mapM_fails {A B : Type} (f : A -> option B) l x :
  In x l -> f x = None -> mapM f l = None.
Proof.
  intros Hin Hx. induction l as [|y l IH]; [destruct Hin|].
  cbn [mapM]. destruct Hin as [->|Hin].
  - rewrite Hx. reflexivity.
  - rewrite (IH Hin). destruct (f y); reflexivity.
Qed.

(** A conversation that holds a message without text is refused by the
    request schema. *)
Lemma empty_text_is_refused conversation m :
  In m conversation -> pm_text m = [] -> requestSchema (chat_payload conversation) = None.
Proof.
  intros Hin Htext. unfold requestSchema, chat_payload.
  match goal with
  | |- context [field (js "messages") [(js "messages", ?a)]] =>
      change (field (js "messages") [(js "messages", a)]) with (Some a)
  end.
  cbn [zArray]. set (to_json := fun message : PageMessage => JObj _).
  rewrite (mapM_fails messageSchema _ (to_json m)).
  - destruct (_ <? _)%nat; reflexivity.
  - apply in_map, Hin.
  - unfold to_json. rewrite Htext.
    destruct (pm_role m), (pm_attachments m); reflexivity.
Qed.

(** X23. A message without text blocks the conversation.  When the
    conversation of the page holds a message whose text is empty, a
    submit sends a conversation that the request schema refuses: the route answers 400 without contacting the backend, and
    the page keeps the message of the user, empties the form and its
    pending attachments, and shows its error text. *)
Theorem empty_reply_blocks_the_conversation (fuel : nat) (fetch : JSON -> ChatFetch)
    (id createdAt : jsstring) (st : PageState) (m : PageMessage) (w : World) :
  env_set AZURE_OPENAI_API_KEY = true -> env_set AZURE_OPENAI_ENDPOINT = true ->
  (forall payload reply,
      POST fuel (request_body (Some payload)) w = Some reply ->
      fetch payload = answered reply) ->
  In m (ps_messages st) -> pm_text m = [] ->
  trim (ps_input st) <> [] -> ps_isSending st = false -> ps_isUploading st = false ->
  let userMessage :=
    mkPageMessage id user (trim (ps_input st)) createdAt
      (Some (ps_pendingAttachments st)) None None in
  let payload := chat_payload (ps_messages st ++ [userMessage]) in
  POST fuel (request_body (Some payload)) w =
  Some (ChatBadRequest (js "Invalid request payload.") (Some (zod_flatten payload)), w)
  /\ handleSubmit fetch id createdAt st =
     mkPageState (ps_messages st ++ [userMessage]) [] [] false false
       (Some (js "Something went wrong generating a response. Please try again.")).
Proof.
  intros Hkey Hend Hfetch Hin Htext Hinput Hsending Huploading userMessage payload.
  assert (Hrefused : requestSchema payload = None).
  { apply (empty_text_is_refused _ m); [|exact Htext].
    apply in_or_app. left. exact Hin. }
  assert (Hpost : POST fuel (request_body (Some payload)) w =
                  Some (ChatBadRequest (js "Invalid request payload.")
                          (Some (zod_flatten payload)), w)).
  { unfold request_body. rewrite Hrefused. unfold POST. rewrite Hkey, Hend. reflexivity. }
  split; [exact Hpost|].
  unfold handleSubmit. rewrite Hsending, Huploading.
  destruct (trim (ps_input st)) as [|c t] eqn:Et; [congruence|].
  cbn [truthy negb orb]. fold userMessage. fold payload.
  rewrite (Hfetch payload _ Hpost). reflexivity.
Qed.

(** *** Steps out of the generated-files directory that are refused *)

(** One step up from a directory and down again along plain segments. *)
Lemma path_join_up segs g rest :
  Forall (fun s => plain_segment s = true) segs -> plain_segment g = true ->
  rest <> [] -> Forall (fun s => plain_segment s = true) rest ->
  path_join [absolute_path (segs ++ [g]); join slash (dotdot :: rest)] =
  absolute_path (segs ++ rest).
Proof.
  intros Hsegs Hg Hne Hrest. unfold path_join.
  rewrite filter_truthy_all.
  2:{ constructor; [reflexivity|]. constructor; [|constructor].
      destruct rest; [congruence|reflexivity]. }
  change (join slash [absolute_path (segs ++ [g]); join slash (dotdot :: rest)])
    with (absolute_path (segs ++ [g]) ++ slash ++ join slash (dotdot :: rest)).
  assert (Hjoined : absolute_path (segs ++ [g]) ++ slash ++ join slash (dotdot :: rest) =
                    repeat ch_slash 1 ++ join slash (segs ++ g :: dotdot :: rest)).
  { unfold absolute_path. cbn [repeat]. rewrite <- !app_assoc. cbn [app]. f_equal.
    replace (segs ++ g :: dotdot :: rest) with ((segs ++ [g]) ++ dotdot :: rest)
      by (rewrite <- app_assoc; reflexivity).
    rewrite (join_app (segs ++ [g]) (dotdot :: rest)) by (try discriminate; destruct segs; discriminate).
    reflexivity. }
  rewrite Hjoined. unfold normalize.
  assert (Habs : startsWith (repeat ch_slash 1 ++ join slash (segs ++ g :: dotdot :: rest))
                   slash = true)
    by (apply startsWith_app; eexists; reflexivity).
  rewrite Habs. cbn [negb]. unfold normalizeString.
  rewrite segments_slashes, normalize_empty_segments.
  rewrite segments_join_free.
  2:{ destruct segs; discriminate. }
  2:{ apply Forall_app. split.
      - eapply Forall_impl; [exact Hsegs|]. intros s Hs.
        apply plain_segment_slash_free, Hs.
      - constructor; [apply plain_segment_slash_free, Hg|].
        constructor; [reflexivity|].
        eapply Forall_impl; [exact Hrest|]. intros s Hs.
        apply plain_segment_slash_free, Hs. }
  rewrite fold_left_app, (normalize_plain false segs [] Hsegs), app_nil_r.
  cbn [fold_left]. rewrite (normalize_step_plain false _ g Hg).
  assert (Hpop : normalize_step false (g :: rev segs) dotdot = rev segs).
  { unfold normalize_step.
    change (jsstring_eqb dotdot []) with false.
    change (jsstring_eqb dotdot dot) with false.
    change (jsstring_eqb dotdot dotdot) with true. cbv iota.
    unfold plain_segment in Hg. apply andb_prop in Hg as [_ Hdd].
    apply negb_true_iff in Hdd. rewrite Hdd. reflexivity. }
  rewrite Hpop, (normalize_plain false rest (rev segs) Hrest).
  rewrite rev_app_distr, !rev_involutive.
  assert (Hall : Forall (fun s => plain_segment s = true) (segs ++ rest))
    by (apply Forall_app; split; assumption).
  assert (Hne' : segs ++ rest <> []) by (destruct segs; [exact Hne|discriminate]).
  pose proof (join_not_nil (segs ++ rest) Hne' Hall) as Hjn.
  assert (Hend : endsWith (repeat ch_slash 1 ++ join slash (segs ++ g :: dotdot :: rest))
                   slash = false).
  { destruct (exists_last Hne) as (init & s & ->).
    apply Forall_app in Hrest as [_ Hs]. apply Forall_inv in Hs.
    destruct (exists_last (l := s)) as (s0 & c & Hsc).
    { intros ->. discriminate Hs. }
    pose proof (plain_segment_slash_free _ Hs) as Hfree. rewrite Hsc in Hfree.
    rewrite forallb_app in Hfree. apply andb_prop in Hfree as [_ Hc].
    cbn [forallb] in Hc. rewrite andb_true_r in Hc.
    unfold not_char in Hc. apply negb_true_iff in Hc.
    replace (segs ++ g :: dotdot :: init ++ [s])
      with ((segs ++ g :: dotdot :: init) ++ [s])
      by (rewrite <- app_assoc; reflexivity).
    rewrite join_snoc by (destruct segs; discriminate).
    rewrite Hsc, !app_assoc, endsWith_snoc. exact Hc. }
  rewrite Hend. unfold absolute_path.
  destruct (join slash (segs ++ rest)) eqn:Ej; [congruence|].
  rewrite app_nil_r. reflexivity.
Qed.

Lemma startsWith_same_prefix p a b : startsWith (p ++ a) (p ++ b) = startsWith a b.
Proof.
  induction p as [|x p IH]; [reflexivity|].
  cbn [app startsWith]. unfold jschar_eqb. rewrite N.eqb_refl. exact IH.
Qed.

(** A name that does not begin with [g], followed by a separator, does
    not begin with [g] either, when [g] holds no separator. *)
Lemma startsWith_before_slash d t g :
  forallb (not_char ch_slash) g = true -> startsWith d g = false ->
  startsWith (d ++ slash ++ t) g = false.
Proof.
  revert g. induction d as [|x d IH]; intros g Hg Hd.
  - destruct g as [|y g]; [discriminate Hd|].
    cbn [app slash startsWith]. cbn [forallb] in Hg.
    apply andb_prop in Hg as [Hy _]. unfold not_char in Hy.
    apply negb_true_iff in Hy. unfold jschar_eqb in *.
    rewrite N.eqb_sym, Hy. reflexivity.
  - destruct g as [|y g]; [destruct d; discriminate Hd|].
    cbn [app startsWith] in *. cbn [forallb] in Hg. apply andb_prop in Hg as [_ Hg].
    destruct (jschar_eqb x y); [|reflexivity]. cbn [andb] in *. apply IH; assumption.
Qed.

Lemma absolute_below segs l :
  l <> [] ->
  absolute_path (segs ++ l) =
  match segs with [] => slash | _ :: _ => absolute_path segs ++ slash end ++ join slash l.
Proof.
  intros Hl. unfold absolute_path. destruct segs as [|s segs]; [reflexivity|].
  rewrite (join_app (s :: segs) l) by (discriminate || exact Hl).
  rewrite <- !app_assoc. reflexivity.
Qed.

(** X24. The prefix test does refuse the other way out.  A parameter
    that goes one step up from the generated-files directory and then
    down into a directory whose name does not begin with [generated]
    (the uploads directory, for one) is answered 400, whether the file
    exists or not. *)
Theorem step_into_another_directory_is_refused segs (d : jsstring)
    (more : list jsstring) (w : World) :
  cwd = absolute_path segs -> Forall (fun s => plain_segment s = true) segs ->
  plain_segment d = true -> startsWith d (js "generated") = false ->
  Forall (fun s => plain_segment s = true) more ->
  path_join [GENERATED_DIR; join slash (dotdot :: d :: more)] =
  absolute_path (segs ++ d :: more)
  /\ GET (join slash (dotdot :: d :: more)) w =
     Returned (mkFileResponse 400 (TextBody (js "Invalid file path")) []) w.
Proof.
  intros Hcwd Hall Hd Hstart Hmore.
  pose proof (GENERATED_DIR_absolute segs Hcwd Hall) as Hgen.
  assert (Hpath : path_join [GENERATED_DIR; join slash (dotdot :: d :: more)] =
                  absolute_path (segs ++ d :: more)).
  { rewrite Hgen. apply path_join_up; [exact Hall|reflexivity|discriminate|].
    constructor; assumption. }
  split; [exact Hpath|].
  unfold GET. rewrite Hpath, Hgen.
  rewrite (absolute_below segs (d :: more)) by discriminate.
  rewrite (absolute_below segs [js "generated"]) by discriminate.
  rewrite startsWith_same_prefix.
  assert (Hout : startsWith (join slash (d :: more)) (join slash [js "generated"]) = false).
  { destruct more as [|m more]; [exact Hstart|].
    change (join slash (d :: m :: more)) with (d ++ slash ++ join slash (m :: more)).
    apply startsWith_before_slash; [reflexivity|exact Hstart]. }
  rewrite Hout. reflexivity.
Qed.

(** *** What the page sends and what the route reads *)

Lemma attachment_is_read_back a :
  zod_number None None (att_size a) = Some (att_size a) ->
  attachmentSchema (attachment_json a) = Some a.
Proof.
  destruct a as [id name stored mime size url cat preview].
  cbn [att_size]. intros Hsize.
  unfold attachmentSchema, attachment_json.
  cbn [att_id originalName att_storedFilename mimeType att_size publicUrl category
       textPreview].
  destruct cat, preview; vm_compute; rewrite Hsize; reflexivity.
Qed.

Lemma attachments_are_read_back atts :
  Forall (fun a => zod_number None None (att_size a) = Some (att_size a)) atts ->
  mapM attachmentSchema (map attachment_json atts) = Some atts.
Proof.
  induction 1 as [|a atts Ha _ IH]; [reflexivity|].
  cbn [map mapM]. rewrite (attachment_is_read_back a Ha), IH. reflexivity.
Qed.

Lemma message_is_read_back m :
  pm_text m <> [] ->
  Forall (fun a => zod_number None None (att_size a) = Some (att_size a))
    (default [] (pm_attachments m)) ->
  messageSchema
    (JObj ([(js "id", JStr (pm_id m)); (js "role", JStr (role_name (pm_role m)));
            (js "text", JStr (pm_text m))] ++
           match pm_attachments m with
           | Some atts => [(js "attachments", JArr (map attachment_json atts))]
           | None => []
           end)) =
  Some (sent_message m).
Proof.
  destruct m as [mid r t created atts arts files].
  cbn [pm_text pm_attachments pm_id pm_role]. intros Ht Hatts.
  unfold sent_message. cbn [pm_text pm_attachments pm_id pm_role].
  destruct t as [|c t]; [congruence|].
  destruct atts as [atts|]; cbn [default from_option id] in Hatts.
  - pose proof (attachments_are_read_back atts Hatts) as Hread.
    unfold messageSchema.
    change (field (js "id") _) with (Some (JStr mid)).
    change (field (js "role") _) with (Some (JStr (role_name r))).
    change (field (js "text") _) with (Some (JStr (c :: t))).
    change (field (js "attachments") _) with (Some (JArr (map attachment_json atts))).
    cbn [zOptional zArray fmap option_fmap option_map]. rewrite Hread.
    destruct r; reflexivity.
  - unfold messageSchema.
    change (field (js "id") _) with (Some (JStr mid)).
    change (field (js "role") _) with (Some (JStr (role_name r))).
    change (field (js "text") _) with (Some (JStr (c :: t))).
    change (field (js "attachments") _) with (@None JSON).
    destruct r; reflexivity.
Qed.

(** X25. What the page sends is what the route reads.  For a
    conversation with at least one message, none of them without text,
    the body written by the page passes the request schema, and the
    payload read from it holds the same messages in the same order, each
    with its identifier, role, text and attachments, and no temperature.
    (The sizes of the attachments are assumed to be numbers that the
    schema lets through unchanged.) *)
Theorem page_payload_is_read_back (conversation : list PageMessage) :
  conversation <> [] ->
  Forall (fun m => pm_text m <> []) conversation ->
  Forall (fun m =>
            Forall (fun a => zod_number None None (att_size a) = Some (att_size a))
              (default [] (pm_attachments m))) conversation ->
  requestSchema (chat_payload conversation) =
  Some (mkChatRequestPayload (map sent_message conversation) None).
Proof.
  intros Hne Htexts Hsizes. unfold requestSchema, chat_payload.
  match goal with
  | |- context [field (js "messages") [(js "messages", ?a)]] =>
      change (field (js "messages") [(js "messages", a)]) with (Some a);
      change (field (js "temperature") [(js "messages", a)]) with (@None JSON)
  end.
  cbn [zArray zOptional]. rewrite length_map.
  destruct conversation as [|m0 rest]; [congruence|]. cbn [length Nat.ltb Nat.leb].
  set (to_json := fun message : PageMessage => JObj _).
  assert (Hread : forall l,
             Forall (fun m => pm_text m <> []) l ->
             Forall (fun m =>
                       Forall (fun a => zod_number None None (att_size a) =
                                        Some (att_size a))
                         (default [] (pm_attachments m))) l ->
             mapM messageSchema (map to_json l) = Some (map sent_message l)).
  { induction l as [|m l IH]; intros Ht Hs; [reflexivity|].
    cbn [map mapM].
    replace (messageSchema (to_json m)) with (Some (sent_message m))
      by (symmetry; apply (message_is_read_back m (Forall_inv Ht) (Forall_inv Hs))).
    rewrite (IH (Forall_inv_tail Ht) (Forall_inv_tail Hs)). reflexivity. }
  rewrite (Hread _ Htexts Hsizes). reflexivity.
Qed.

End Studio.

(* ===================================================================== *)
(** ** The properties on the reference environment *)
(* ===================================================================== *)

(** C1, as the code has it: the check is a prefix test on the text of the
    resolved path, so a path that resolves into a sibling directory whose
    name begins with the name of the generated-files directory passes it.
    With the working directory [/app], the parameter
    [../generated-old/secret.txt] resolves to [/app/generated-old/secret.txt],
    outside [/app/generated]; the reply is 200 with the contents of that
    file when it exists and 404 when it does not, never 400.  A parameter
    that leaves the prefix, such as [../../etc/passwd], is answered 400. *)
Theorem sibling_directory_passes_the_prefix_check :
  GENERATED_DIR ref_cwd = js "/app/generated"
  /\ path_join [GENERATED_DIR ref_cwd; js "../generated-old/secret.txt"] = ref_secret_path
  /\ startsWith ref_secret_path (js "/app/generated/") = false
  /\ GET ref_cwd (js "../generated-old/secret.txt") ref_sibling_world =
     Returned
       (mkFileResponse 200 (FileBody (js "top secret"))
          [(js "Content-Type", js "text/plain; charset=utf-8");
           (js "Content-Disposition", jsq "attachment; filename='old/secret.txt'")])
       ref_sibling_world
  /\ GET ref_cwd (js "../generated-old/absent.txt") ref_sibling_world =
     Returned (mkFileResponse 404 (TextBody (js "File not found")) []) ref_sibling_world
  /\ GET ref_cwd (js "../../etc/passwd") ref_sibling_world =
     Returned (mkFileResponse 400 (TextBody (js "Invalid file path")) []) ref_sibling_world.
Proof.
  repeat split; try (vm_compute; reflexivity).
Qed.

(** A CSV of three numbers: the blob holds the text as it was given. *)
Lemma stored_bytes_of_a_csv :
  is_raw_text_type csv = true
  /\ exists r w',
       createDocumentFile ref_cwd ref_entropy ref_pdfkit ref_packer
         (mkCreateDocumentInput (js "numbers") csv (js "1,2,3")) ref_world = Returned r w'
       /\ fs w' !! dcr_fullPath r = Some (js "1,2,3")
       /\ utf8_decode (js "1,2,3") = js "1,2,3".
Proof.
  split; [reflexivity|].
  destruct (raw_text_bytes_are_utf8 ref_cwd ref_entropy ref_pdfkit ref_packer
              (mkCreateDocumentInput (js "numbers") csv (js "1,2,3")) ref_world)
    as (r & w' & stored & Hrun & _ & Hstored & Hbytes & Hback & _).
  - reflexivity.
  - exists r, w'. split; [exact Hrun|]. split.
    + rewrite Hstored, Hbytes. reflexivity.
    + reflexivity.
Defined.

(** A call to [get_weather], which is not declared, is answered, and the
    answer goes to the backend: the loop takes one turn and returns the
    next reply. *)
Lemma unknown_call_is_answered_once :
  exists outs arts files w' w'',
    handleToolCalls ref_cwd ref_entropy parse_json ref_zod_message ref_pdfkit ref_packer
      ref_sanitizeHtml ref_allowedTags ref_allowedAttributes ref_first_reply [] [] ref_world
    = Returned (outs, arts, files) w'
    /\ In (unknown_function_answer (js "call_1") (js "get_weather")) outs
    /\ toolLoop ref_cwd ref_entropy (scripted [ref_final_reply]) (js "gpt-4.1") parse_json
         ref_zod_message ref_pdfkit ref_packer ref_sanitizeHtml ref_allowedTags
         ref_allowedAttributes 1 ref_first_reply arts files outs w'
       = Some (Returned (mkRunResult ref_final_reply arts files) w'')
    /\ sent w'' = [ContinueRequest (js "gpt-4.1") (js "resp_1") outs].
Proof.
  destruct (unknown_function_is_answered ref_cwd ref_entropy (scripted [ref_final_reply])
              (js "gpt-4.1") parse_json ref_zod_message ref_pdfkit ref_packer
              ref_sanitizeHtml ref_allowedTags ref_allowedAttributes
              (js "get_weather") (js "call_1") (Some (js "{}")) (js "resp_1")
              [ref_unknown_call] [] [] ref_world)
    as (_ & _ & outs & arts & files & w' & Hrun & Hin & _ & _ & _ & Hlast & _).
  - discriminate.
  - discriminate.
  - discriminate.
  - left. reflexivity.
  - exists outs, arts, files, w'. eexists. split; [exact Hrun|]. split; [exact Hin|].
    split; [apply (Hlast 0%nat ref_final_reply); reflexivity|reflexivity].
Defined.

(** Against a backend that asks for a tool in every reply, no number of
    turns ends the call. *)
Lemma insatiable_backend_never_lets_go :
  (forall requests, exists response,
      insatiable ref_unknown_call requests = inl response
      /\ answerable_ids response <> [])
  /\ forall fuel,
       runResponsesCall ref_cwd ref_entropy (insatiable ref_unknown_call) (js "gpt-4.1")
         parse_json ref_zod_message ref_pdfkit ref_packer ref_sanitizeHtml
         ref_allowedTags ref_allowedAttributes fuel (ref_body None) ref_world = None.
Proof.
  assert (Hgreedy : forall requests, exists response,
             insatiable ref_unknown_call requests = inl response
             /\ answerable_ids response <> []).
  { intros requests. eexists. split; [reflexivity|discriminate]. }
  split; [exact Hgreedy|].
  intros fuel.
  apply (tool_loop_ends_without_answerable_calls ref_cwd ref_entropy
           (insatiable ref_unknown_call) (js "gpt-4.1") parse_json ref_zod_message
           ref_pdfkit ref_packer ref_sanitizeHtml ref_allowedTags ref_allowedAttributes).
  exact Hgreedy.
Defined.

(** C3, as stated, fails: a response whose only function call names an
    unknown function has no dispatchable call, yet the loop does not end
    there; it answers the call, asks the backend again and returns at the
    next reply. *)
Lemma loop_goes_on_without_dispatchable_calls :
  dispatchable_calls ref_first_reply = []
  /\ (forall fuel r w',
        runResponsesCall ref_cwd ref_entropy (scripted [ref_first_reply; ref_final_reply])
          (js "gpt-4.1") parse_json ref_zod_message ref_pdfkit ref_packer ref_sanitizeHtml
          ref_allowedTags ref_allowedAttributes fuel (ref_body None) ref_world
        = Some (Returned r w') ->
        rr_response r <> ref_first_reply)
  /\ runResponsesCall ref_cwd ref_entropy (scripted [ref_first_reply; ref_final_reply])
       (js "gpt-4.1") parse_json ref_zod_message ref_pdfkit ref_packer ref_sanitizeHtml
       ref_allowedTags ref_allowedAttributes 0 (ref_body None) ref_world = None
  /\ exists w',
       runResponsesCall ref_cwd ref_entropy (scripted [ref_first_reply; ref_final_reply])
         (js "gpt-4.1") parse_json ref_zod_message ref_pdfkit ref_packer ref_sanitizeHtml
         ref_allowedTags ref_allowedAttributes 1 (ref_body None) ref_world
       = Some (Returned (mkRunResult ref_final_reply [] []) w')
       /\ length (sent w') = 2%nat.
Proof.
  split; [reflexivity|]. split; [|split].
  - intros fuel r w' Hrun Heq.
    apply runResponsesCall_returns_at_rest in Hrun. rewrite Heq in Hrun.
    discriminate Hrun.
  - vm_compute. reflexivity.
  - eexists. split; [vm_compute; reflexivity|reflexivity].
Qed.

(** A [create_artifact] call with an empty title: the request ends with
    status 200, the text of the next reply and no artifact. *)
Lemma empty_title_is_reported_to_the_model :
  exists message w',
    POST ref_cwd ref_entropy (scripted [mkResponse (js "resp_1") (Some [ref_bad_call]);
                                        ref_final_reply])
      (js "gpt-4.1") (Some (js "key")) (Some (js "https://example.openai.azure.com"))
      (js "2025-01-01T00:00:00.000Z") parse_json ref_zod_message ref_pdfkit ref_packer
      ref_sanitizeHtml ref_allowedTags ref_allowedAttributes 1
      (BodyValid (ref_body None)) ref_world
    = Some (ChatOk message, w')
    /\ cm_artifacts message = [] /\ cm_generatedFiles message = []
    /\ cm_text message = js "Done".
Proof.
  destruct (invalid_tool_arguments_fail_softly ref_cwd ref_entropy
              (scripted [mkResponse (js "resp_1") (Some [ref_bad_call]); ref_final_reply])
              (js "gpt-4.1") (Some (js "key")) (Some (js "https://example.openai.azure.com"))
              (js "2025-01-01T00:00:00.000Z") parse_json ref_zod_message ref_pdfkit
              ref_packer ref_sanitizeHtml ref_allowedTags ref_allowedAttributes
              (js "create_artifact") (js "call_1") (jsq "{'title':''}"))
    as (error & detail & _ & _ & Hpost).
  - discriminate.
  - left. reflexivity.
  - right. eexists. vm_compute. reflexivity.
  - destruct (Hpost (js "resp_1") ref_final_reply 0%nat (ref_body None) ref_world)
      as (message & w' & HP & _ & Ha & Hf & Ht).
    + reflexivity.
    + reflexivity.
    + intros request. reflexivity.
    + intros request. reflexivity.
    + reflexivity.
    + exists message, w'. split; [exact HP|]. split; [exact Ha|]. split; [exact Hf|].
      rewrite Ht. reflexivity.
Defined.

(** An image attachment whose file is not in the store: the request still
    ends with the assistant message. *)
Lemma missing_image_is_described_to_the_model :
  fs ref_world !! path_join [UPLOAD_DIR ref_cwd; att_storedFilename ref_attachment] = None
  /\ mapAttachmentToContentPart ref_cwd ref_attachment ref_world
     = Returned (could_not_be_loaded ref_attachment) ref_world
  /\ exists message w',
       POST ref_cwd ref_entropy (scripted [ref_final_reply])
         (js "gpt-4.1") (Some (js "key")) (Some (js "https://example.openai.azure.com"))
         (js "2025-01-01T00:00:00.000Z") parse_json ref_zod_message ref_pdfkit ref_packer
         ref_sanitizeHtml ref_allowedTags ref_allowedAttributes 0
         (BodyValid (ref_body (Some [ref_attachment]))) ref_world
       = Some (ChatOk message, w')
       /\ cm_text message = js "Done".
Proof.
  assert (Hmissing : fs ref_world !!
            path_join [UPLOAD_DIR ref_cwd; att_storedFilename ref_attachment] = None)
    by reflexivity.
  split; [exact Hmissing|].
  destruct (unreadable_attachment_degrades ref_cwd ref_entropy (scripted [ref_final_reply])
              (js "gpt-4.1") (Some (js "key")) (Some (js "https://example.openai.azure.com"))
              (js "2025-01-01T00:00:00.000Z") parse_json ref_zod_message ref_pdfkit
              ref_packer ref_sanitizeHtml ref_allowedTags ref_allowedAttributes
              ref_attachment ref_world Hmissing)
    as (_ & Hpart & Hrun).
  split; [exact Hpart|].
  destruct (Hrun (ref_body (Some [ref_attachment]))
              (ref_user_message (js "Make me a CSV of 1,2,3") (Some [ref_attachment]))
              [ref_attachment])
    as (input & am & _ & _ & _ & _ & Hpost).
  - left. reflexivity.
  - reflexivity.
  - left. reflexivity.
  - destruct (Hpost ref_final_reply 0%nat) as (message & w' & HP & _ & _ & Ht & _).
    + reflexivity.
    + reflexivity.
    + reflexivity.
    + reflexivity.
    + exists message, w'. split; [exact HP|]. rewrite Ht. reflexivity.
Defined.

(** *** The sanitizer that keeps the allowed tags

    It honours the allow-list contract: read again, its output holds
    only the tags it kept, each with the attributes it kept. *)

Definition boundary (st : TokenizerState) : Prop :=
  st = Data \/ exists element, st = RawText element.

Definition on_allow_list (opts : SanitizeOptions) (t : Token) : Prop :=
  match t with
  | StartTag name attributes =>
      In name (allowedTags opts)
      /\ Forall (fun attr => attribute_allowed opts name attr = true) attributes
  | _ => True
  end.

Lemma escape_markup_no_tag c : Forall (fun x => x <> 60) (escape_markup c).
Proof.
  unfold escape_markup.
  destruct (N.eqb_spec c 38); [repeat constructor; discriminate|].
  destruct (N.eqb_spec c 60); [repeat constructor; discriminate|].
  destruct (N.eqb_spec c 62); [repeat constructor; discriminate|].
  destruct (N.eqb_spec c 34); [repeat constructor; discriminate|].
  repeat constructor. assumption.
Qed.

Lemma is_name_unit_spec c :
  is_name_unit c = true ->
  c <> 60 /\ (c =? 62) = false /\ (c =? 61) = false /\ (c =? 47) = false
  /\ is_html_space c = false /\ ends_tag_name c = false /\ ascii_lower c = c.
Proof.
  unfold is_name_unit, ends_tag_name, is_html_space, ascii_lower, is_lower, is_digit,
    is_upper, in_range.
  intros H.
  assert (Hc : 97 <= c <= 122 \/ 48 <= c <= 57 \/ c = 45).
  { apply orb_true_iff in H as [H|H]; [apply orb_true_iff in H as [H|H]|].
    - apply andb_true_iff in H as [H1 H2]. apply N.leb_le in H1, H2. left. lia.
    - apply andb_true_iff in H as [H1 H2]. apply N.leb_le in H1, H2. right. left. lia.
    - apply N.eqb_eq in H. right. right. exact H. }
  clear H.
  assert (H62 : (c =? 62) = false) by (apply N.eqb_neq; lia).
  assert (H61 : (c =? 61) = false) by (apply N.eqb_neq; lia).
  assert (H47 : (c =? 47) = false) by (apply N.eqb_neq; lia).
  assert (H9 : (c =? 9) = false) by (apply N.eqb_neq; lia).
  assert (H10 : (c =? 10) = false) by (apply N.eqb_neq; lia).
  assert (H12 : (c =? 12) = false) by (apply N.eqb_neq; lia).
  assert (H13 : (c =? 13) = false) by (apply N.eqb_neq; lia).
  assert (H32 : (c =? 32) = false) by (apply N.eqb_neq; lia).
  assert (Hup : (65 <=? c) && (c <=? 90) = false).
  { apply andb_false_iff. destruct (N.leb_spec 65 c); [right|left; reflexivity].
    apply N.leb_gt. lia. }
  rewrite H62, H61, H47, H9, H10, H12, H13, H32, Hup.
  repeat split; try reflexivity. lia.
Qed.

Lemma plain_name_spec name :
  plain_name name = true ->
  exists c rest,
    name = c :: rest /\ is_ascii_alpha c = true /\ (c =? 47) = false
    /\ Forall (fun x => is_name_unit x = true) name.
Proof.
  destruct name as [|c rest]; [discriminate|]. cbn [plain_name].
  intros H. apply andb_true_iff in H as [Hc Hall].
  exists c, rest. split; [reflexivity|]. split.
  - unfold is_ascii_alpha. rewrite Hc. reflexivity.
  - apply forallb_Forall in Hall. split; [|exact Hall].
    apply Forall_inv in Hall. apply is_name_unit_spec in Hall. tauto.
Qed.

(** Text without [<] is read unit by unit, in the data state and in raw
    text alike. *)
Lemma tokenize_text st s rest :
  boundary st -> Forall (fun c => c <> 60) s ->
  tokenize st (s ++ rest) = map Character s ++ tokenize st rest.
Proof.
  intros Hst Hs. induction Hs as [|c s Hc Hs IH]; [reflexivity|].
  apply N.eqb_neq in Hc.
  destruct Hst as [->|[element ->]]; cbn [app map tokenize]; rewrite Hc;
    cbn [andb]; f_equal; exact IH.
Qed.

Lemma tokenize_TagName acc name rest :
  Forall (fun x => is_name_unit x = true) name ->
  tokenize (TagName acc) (name ++ rest) = tokenize (TagName (acc ++ name)) rest.
Proof.
  intros Hname. revert acc.
  induction Hname as [|c name Hc Hname IH]; intros acc; [rewrite app_nil_r; reflexivity|].
  apply is_name_unit_spec in Hc as (_ & H62 & _ & _ & _ & Hend & Hlow).
  cbn [app tokenize]. rewrite H62, Hend, Hlow, IH, <- app_assoc. reflexivity.
Qed.

Lemma tokenize_EndTagName acc name rest :
  Forall (fun x => is_name_unit x = true) name ->
  tokenize (EndTagName acc) (name ++ rest) = tokenize (EndTagName (acc ++ name)) rest.
Proof.
  intros Hname. revert acc.
  induction Hname as [|c name Hc Hname IH]; intros acc; [rewrite app_nil_r; reflexivity|].
  apply is_name_unit_spec in Hc as (_ & H62 & _ & _ & _ & Hend & Hlow).
  cbn [app tokenize]. rewrite H62, Hend, Hlow, IH, <- app_assoc. reflexivity.
Qed.

Lemma tokenize_AttributeName tag attrs acc name rest :
  Forall (fun x => is_name_unit x = true) name ->
  tokenize (AttributeName tag attrs acc) (name ++ rest) =
  tokenize (AttributeName tag attrs (acc ++ name)) rest.
Proof.
  intros Hname. revert acc.
  induction Hname as [|c name Hc Hname IH]; intros acc; [rewrite app_nil_r; reflexivity|].
  apply is_name_unit_spec in Hc as (_ & H62 & H61 & _ & _ & Hend & Hlow).
  cbn [app tokenize]. rewrite H62, H61, Hend, Hlow, IH, <- app_assoc. reflexivity.
Qed.

Definition render_attributes (attributes : list jsstring) : jsstring :=
  flat_map (fun a => js " " ++ a) attributes.

(** The attributes written after a name are read back as written. *)
Lemma tokenize_attributes tag attrs name attributes rest :
  Forall (fun a => plain_name a = true) attributes ->
  tokenize (AttributeName tag attrs name) (render_attributes attributes ++ 62 :: rest) =
  StartTag tag (attrs ++ name :: attributes) :: tokenize (after_start_tag tag) rest.
Proof.
  intros Hall. revert attrs name.
  induction Hall as [|a attributes Ha Hall IH]; intros attrs name.
  - reflexivity.
  - destruct (plain_name_spec a Ha) as (c & a' & -> & _ & H47 & Hunits).
    pose proof (Forall_inv Hunits) as Hc. apply Forall_inv_tail in Hunits.
    apply is_name_unit_spec in Hc as (_ & H62 & H61 & _ & Hspace & _ & Hlow).
    unfold render_attributes. cbn [flat_map]. rewrite <- !app_assoc.
    change (js " " ++ (c :: a') ++ ?x) with (32 :: c :: (a' ++ x)).
    cbn [tokenize]. change (32 =? 62) with false. change (ends_tag_name 32) with true.
    cbv iota. rewrite H62, Hspace, H47, H61, Hlow.
    rewrite (tokenize_AttributeName _ _ [c] a' _ Hunits).
    fold (render_attributes attributes). rewrite IH, <- app_assoc. reflexivity.
Qed.

Lemma tokenize_start_tag name attributes rest :
  plain_name name = true ->
  Forall (fun a => plain_name a = true) attributes ->
  tokenize Data (60 :: name ++ render_attributes attributes ++ 62 :: rest) =
  StartTag name attributes :: tokenize (after_start_tag name) rest.
Proof.
  intros Hname Hall.
  destruct (plain_name_spec name Hname) as (c & name' & -> & Halpha & _ & Hunits).
  cbn [tokenize]. change (60 =? 60) with true. cbv iota.
  change (opens_tag ((c :: name') ++ render_attributes attributes ++ 62 :: rest))
    with (is_ascii_alpha c).
  rewrite Halpha. rewrite (tokenize_TagName [] _ _ Hunits). cbn [app].
  destruct Hall as [|a attributes Ha Hall]; [reflexivity|].
  destruct (plain_name_spec a Ha) as (x & a' & -> & _ & H47 & Haunits).
  pose proof (Forall_inv Haunits) as Hx. apply Forall_inv_tail in Haunits.
  apply is_name_unit_spec in Hx as (_ & H62 & _ & _ & _ & Hend & Hlow).
  unfold render_attributes. cbn [flat_map]. rewrite <- !app_assoc.
  change (js " " ++ (x :: a') ++ ?y) with (32 :: x :: (a' ++ y)).
  cbn [tokenize]. change (32 =? 62) with false. change (ends_tag_name 32) with true.
  cbv iota. rewrite H62, Hend, Hlow.
  rewrite (tokenize_AttributeName _ _ [x] a' _ Haunits).
  fold (render_attributes attributes).
  apply (tokenize_attributes (c :: name') [] (x :: a') attributes rest Hall).
Qed.

Lemma tokenize_end_tag_name name rest :
  plain_name name = true ->
  tokenize EndTagOpen (47 :: name ++ 62 :: rest) = EndTag name :: tokenize Data rest.
Proof.
  intros Hname.
  destruct (plain_name_spec name Hname) as (c & name' & -> & _ & _ & Hunits).
  cbn [tokenize]. rewrite (tokenize_EndTagName [] _ _ Hunits). reflexivity.
Qed.

Lemma tokenize_end_tag name rest :
  plain_name name = true ->
  tokenize Data (60 :: 47 :: name ++ 62 :: rest) = EndTag name :: tokenize Data rest.
Proof.
  intros Hname.
  destruct (plain_name_spec name Hname) as (c & name' & E & Halpha & _ & _).
  rewrite <- (tokenize_end_tag_name name rest Hname). subst name.
  cbn [tokenize]. change (60 =? 60) with true. cbv iota.
  change (opens_tag (47 :: (c :: name') ++ 62 :: rest)) with false.
  change (opens_end_tag (47 :: (c :: name') ++ 62 :: rest)) with (is_ascii_alpha c).
  rewrite Halpha. reflexivity.
Qed.

Lemma name_units_no_tag name :
  Forall (fun x => is_name_unit x = true) name -> Forall (fun x => x <> 60) name.
Proof.
  intros H. eapply Forall_impl; [exact H|]. intros c Hc.
  apply is_name_unit_spec in Hc. tauto.
Qed.

Lemma render_attributes_no_tag attributes :
  Forall (fun a => plain_name a = true) attributes ->
  Forall (fun x => x <> 60) (render_attributes attributes).
Proof.
  induction 1 as [|a attributes Ha Hall IH]; [constructor|].
  unfold render_attributes. cbn [flat_map]. rewrite <- app_assoc.
  apply Forall_app. split; [repeat constructor; discriminate|].
  apply Forall_app. split; [|exact IH].
  destruct (plain_name_spec a Ha) as (c & a' & _ & _ & _ & Hunits).
  apply name_units_no_tag, Hunits.
Qed.

Lemma closes_needs_slash element c rest :
  (c =? 47) = false -> closes element (c :: rest) = false.
Proof.
  intros H. unfold closes.
  replace (opens_end_tag (c :: rest)) with false; [reflexivity|].
  cbn [opens_end_tag]. destruct rest; [reflexivity|]. rewrite H. reflexivity.
Qed.

Lemma characters_on_allow_list opts s : Forall (on_allow_list opts) (map Character s).
Proof. induction s as [|c s IH]; constructor; [exact I|exact IH]. Qed.

(** What the sanitizer writes for one token is read, from the data state
    or inside raw text, as tokens on the allow-list, and the reader is
    in one of the two states again. *)
Lemma tokenize_rendered opts t st rest :
  boundary st ->
  exists tokens st',
    tokenize st (render_token opts t ++ rest) = tokens ++ tokenize st' rest
    /\ boundary st' /\ Forall (on_allow_list opts) tokens.
Proof.
  intros Hst. destruct t as [c|name attributes|name]; cbn [render_token].
  - exists (map Character (escape_markup c)), st. split; [|split; [exact Hst|]].
    + apply tokenize_text; [exact Hst|apply escape_markup_no_tag].
    + apply characters_on_allow_list.
  - destruct (tag_allowed opts name) eqn:Hallowed;
      [|exists [], st; split; [reflexivity|split; [exact Hst|constructor]]].
    unfold tag_allowed in Hallowed. apply andb_true_iff in Hallowed as [Hlisted Hname].
    set (kept := filter (fun a => attribute_allowed opts name a && plain_name a = true)
                   attributes).
    assert (Hkept : Forall (fun a => attribute_allowed opts name a = true
                                     /\ plain_name a = true) kept).
    { apply Forall_forall. intros a Hin. apply list_elem_of_filter in Hin.
      destruct Hin as [Ha _]. apply andb_true_iff in Ha. exact Ha. }
    assert (Hplain : Forall (fun a => plain_name a = true) kept)
      by (eapply Forall_impl; [exact Hkept|]; intros a [_ Ha]; exact Ha).
    fold (render_attributes kept).
    change (js "<" ++ name ++ render_attributes kept ++ js ">")
      with (60 :: (name ++ render_attributes kept ++ [62])).
    destruct Hst as [->|[element ->]].
    + exists [StartTag name kept], (after_start_tag name).
      split; [|split].
      * cbn [app]. rewrite <- !app_assoc. cbn [app].
        apply (tokenize_start_tag name kept rest Hname Hplain).
      * unfold after_start_tag, boundary.
        destruct (existsb _ raw_text_elements); [right; eexists; reflexivity|left; reflexivity].
      * constructor; [|constructor]. split.
        -- apply existsb_exists in Hlisted as (x & Hin & Hx).
           apply jsstring_eqb_eq in Hx. subst x. exact Hin.
        -- eapply Forall_impl; [exact Hkept|]. intros a [Ha _]. exact Ha.
    + destruct (plain_name_spec name Hname) as (c & name' & E & _ & H47 & Hunits).
      exists (map Character (60 :: (name ++ render_attributes kept ++ [62]))),
        (RawText element).
      split; [|split; [right; eexists; reflexivity|]].
      * cbn [app map tokenize]. change (60 =? 60) with true.
        assert (Hopen : closes element ((name ++ render_attributes kept ++ [62]) ++ rest)
                        = false).
        { subst name. apply (closes_needs_slash element c _ H47). }
        rewrite Hopen. cbn [andb]. f_equal.
        apply tokenize_text; [right; eexists; reflexivity|].
        apply Forall_app. split; [apply name_units_no_tag, Hunits|].
        apply Forall_app. split; [apply render_attributes_no_tag, Hplain|].
        repeat constructor. discriminate.
      * apply characters_on_allow_list.
  - destruct (tag_allowed opts name) eqn:Hallowed;
      [|exists [], st; split; [reflexivity|split; [exact Hst|constructor]]].
    unfold tag_allowed in Hallowed. apply andb_true_iff in Hallowed as [_ Hname].
    change (js "</" ++ name ++ js ">") with (60 :: 47 :: (name ++ [62])).
    destruct Hst as [->|[element ->]].
    + exists [EndTag name], Data. split; [|split; [left; reflexivity|]].
      * cbn [app]. rewrite <- app_assoc. cbn [app].
        apply (tokenize_end_tag name rest Hname).
      * constructor; [exact I|constructor].
    + destruct (closes element (47 :: (name ++ [62]) ++ rest)) eqn:Hcloses.
      * exists [EndTag name], Data. split; [|split; [left; reflexivity|]].
        -- cbn [app tokenize]. change (60 =? 60) with true. rewrite Hcloses. cbn [andb].
           rewrite <- app_assoc. cbn [app].
           apply (tokenize_end_tag_name name rest Hname).
        -- constructor; [exact I|constructor].
      * destruct (plain_name_spec name Hname) as (c & name' & E & _ & _ & Hunits).
        exists (map Character (60 :: 47 :: (name ++ [62]))), (RawText element).
        split; [|split; [right; eexists; reflexivity|]].
        -- cbn [app map tokenize]. change (60 =? 60) with true. rewrite Hcloses.
           cbn [andb]. f_equal.
           apply (tokenize_text (RawText element) (47 :: (name ++ [62])) rest);
             [right; eexists; reflexivity|].
           constructor; [discriminate|].
           apply Forall_app. split; [apply name_units_no_tag, Hunits|].
           repeat constructor. discriminate.
        -- apply characters_on_allow_list.
Qed.

Lemma tokenize_sanitized opts tokens st :
  boundary st ->
  Forall (on_allow_list opts) (tokenize st (flat_map (render_token opts) tokens)).
Proof.
  revert st. induction tokens as [|t tokens IH]; intros st Hst.
  - destruct st; constructor.
  - cbn [flat_map].
    destruct (tokenize_rendered opts t st (flat_map (render_token opts) tokens) Hst)
      as (read & st' & -> & Hst' & Hread).
    apply Forall_app. split; [exact Hread|apply IH, Hst'].
Qed.

Lemma ref_tag_filter_allow_list input opts tag attrs :
  In (tag, attrs) (elements_of (ref_tag_filter input opts)) ->
  In tag (allowedTags opts)
  /\ Forall (fun attr => attribute_allowed opts tag attr = true) attrs.
Proof.
  unfold elements_of, ref_tag_filter. intros Hin.
  apply list_elem_of_In, list_elem_of_omap in Hin as (t & Ht & Hstart).
  pose proof (tokenize_sanitized opts (tokenize Data input) Data (or_introl eq_refl)) as Hall.
  rewrite Forall_forall in Hall. specialize (Hall t Ht).
  destruct t as [c|name attributes|name]; try discriminate Hstart.
  injection Hstart as -> ->. exact Hall.
Qed.

Lemma ref_allowedTags_without_script : ~ In (js "script") ref_allowedTags.
Proof.
  intros H. apply list_elem_of_In in H.
  assert (Hb : existsb (jsstring_eqb (js "script")) ref_allowedTags = false)
    by (vm_compute; reflexivity).
  apply not_true_iff_false in Hb. apply Hb. apply existsb_exists.
  exists (js "script"). split; [apply list_elem_of_In; exact H|reflexivity].
Qed.


(** A whole exchange: the user asks for a CSV, the model calls
    [create_document] and then answers "Done".  The reply is the assistant
    message with one generated file, the blob holds the content, and the
    download route serves it under a name that keeps most of the
    identifier. *)
Example csv_end_to_end :
  exists message w',
    POST ref_cwd ref_entropy ref_csv_backend (js "gpt-4.1") (Some (js "key"))
      (Some (js "https://example.openai.azure.com")) (js "2025-01-01T00:00:00.000Z")
      parse_json ref_zod_message ref_pdfkit ref_packer ref_sanitizeHtml
      ref_allowedTags ref_allowedAttributes 1 (BodyValid (ref_body None)) ref_world
    = Some (ChatOk message, w')
    /\ cm_role message = assistant /\ cm_text message = js "Done"
    /\ cm_artifacts message = []
    /\ map (fun f => (gf_type f, gf_filename f, downloadUrl f, gf_storedFilename f))
         (cm_generatedFiles message)
       = [(csv, js "numbers.csv", js "/api/generated/" ++ ref_csv_stored_name,
           ref_csv_stored_name)]
    /\ utf8_decode <$> fs w' !! (js "/app/generated/" ++ ref_csv_stored_name)
       = Some (js "1,2,3")
    /\ length (sent w') = 2%nat
    /\ exists w'',
         GET ref_cwd ref_csv_stored_name w' =
         Returned
           (mkFileResponse 200 (FileBody (js "1,2,3"))
              [(js "Content-Type", js "text/csv; charset=utf-8");
               (js "Content-Disposition",
                jsq "attachment; filename='e89b-42d3-a456-426614174000-numbers.csv'")])
           w''.
Proof.
  eexists _, _. split; [vm_compute; reflexivity|].
  repeat split; try (vm_compute; reflexivity).
  eexists. vm_compute. reflexivity.
Qed.

(* ===================================================================== *)
(** ** The further properties on the reference environment *)
(* ===================================================================== *)

(** A photograph sent as [../holiday/beach photo.png] lands in the uploads
    directory, under a name without the path and without the space. *)
Lemma beach_photo_is_stored_under_a_safe_name :
  exists m w',
    uploadFile ref_cwd ref_entropy ref_photo ref_world = Returned m w'
    /\ att_storedFilename m = js "123e4567-e89b-42d3-a456-426614174000-beach_photo.png"
    /\ fs w' !! js "/app/public/uploads/123e4567-e89b-42d3-a456-426614174000-beach_photo.png"
       = Some [137; 80; 78].
Proof.
  destruct (upload_is_stored_under_a_safe_name ref_cwd ref_entropy [js "app"] ref_photo
              ref_world eq_refl ltac:(repeat constructor))
    as (m & w' & Hrun & Hname & _ & Hdir & Hfs & _).
  exists m, w'. split; [exact Hrun|]. split.
  - rewrite Hname. vm_compute. reflexivity.
  - rewrite Hfs, Hdir, Hname. vm_compute. reflexivity.
Defined.

(** A document asked for under the name [../../etc/passwd] is written in
    the generated-files directory. *)
Lemma passwd_document_stays_in_the_generated_directory :
  exists r w',
    createDocumentFile ref_cwd ref_entropy ref_pdfkit ref_packer
      (mkCreateDocumentInput (js "../../etc/passwd") txt (js "x")) ref_world
    = Returned r w'
    /\ dcr_fullPath r =
       js "/app/generated/123e4567-e89b-42d3-a456-426614174000-.._.._etc_passwd.txt".
Proof.
  destruct (generated_document_stays_in_its_directory ref_cwd ref_entropy ref_pdfkit
              ref_packer [js "app"]
              (mkCreateDocumentInput (js "../../etc/passwd") txt (js "x")) ref_world
              eq_refl ltac:(repeat constructor))
    as (r & w' & Hrun & Hname & _ & _ & Hdir & Hpath & _).
  exists r, w'. split; [exact Hrun|].
  rewrite Hpath, Hdir, Hname. vm_compute. reflexivity.
Defined.

(** The CSV of three numbers is served as CSV. *)
Lemma csv_document_is_served_as_csv :
  exists g w' disposition,
    executeCreateDocument ref_cwd ref_entropy parse_json ref_pdfkit ref_packer
      (jsq "{'filename':'numbers','type':'csv','content':'1,2,3'}") [] ref_world
    = Returned (DocumentCreated (gf_id g) (downloadUrl g) (gf_filename g), [g]) w'
    /\ GET ref_cwd (gf_storedFilename g) w' =
       Returned
         (mkFileResponse 200 (FileBody (js "1,2,3"))
            [(js "Content-Type", js "text/csv; charset=utf-8");
             (js "Content-Disposition", disposition)]) w'.
Proof.
  destruct (created_document_is_served_with_its_type ref_cwd ref_entropy parse_json
              ref_pdfkit ref_packer [js "app"]
              (jsq "{'filename':'numbers','type':'csv','content':'1,2,3'}") [] ref_world
              ref_csv_input eq_refl ltac:(repeat constructor)
              ltac:(vm_compute; reflexivity))
    as (g & w' & disposition & Hrun & _ & _ & Htype & Hget).
  exists g, w', disposition. split; [exact Hrun|].
  rewrite Hget. destruct (gf_type g); try (vm_compute in Htype; discriminate Htype).
  reflexivity.
Defined.

(** A letter of two blocks, the first of two lines: two paragraphs. *)
Lemma letter_has_two_paragraphs :
  docxParagraphs
    (js "Dear all," ++ [ch_lf] ++ js "welcome." ++ [ch_lf; ch_lf; ch_lf] ++ js "Bye") =
  [js "Dear all," ++ [ch_lf] ++ js "welcome."; js "Bye"].
Proof.
  destruct (docx_blocks_become_paragraphs
              (js "Dear all," ++ [ch_lf] ++ js "welcome.") (js "Bye") 1)
    as [_ Hsplit].
  - intros H. apply includesb_includes in H. vm_compute in H. discriminate H.
  - reflexivity.
  - reflexivity.
  - etransitivity; [|etransitivity; [exact Hsplit|]]; vm_compute; reflexivity.
Defined.

(** Arguments that are no JSON text are answered as missing fields. *)
Lemma garbled_arguments_are_reported_as_missing :
  executeCreateDocument ref_cwd ref_entropy parse_json ref_pdfkit ref_packer
    (js "{oops") [] ref_world =
  Returned (ToolFailure (js "Invalid document arguments") missing_document_fields, [])
    ref_world.
Proof.
  apply (missing_arguments_are_reported_field_by_field ref_cwd ref_entropy parse_json
           ref_pdfkit ref_packer ref_sanitizeHtml ref_allowedTags ref_allowedAttributes
           (js "{oops") [] [] ref_world).
  right. left. vm_compute. reflexivity.
Defined.

(** An array as arguments is refused without naming a field. *)
Lemma array_arguments_name_no_field :
  executeCreateArtifact ref_entropy parse_json ref_sanitizeHtml ref_allowedTags
    ref_allowedAttributes (js "[1]") [] ref_world =
  Returned (ToolFailure (js "Invalid artifact arguments") [], []) ref_world.
Proof.
  apply (non_object_arguments_name_no_field ref_cwd ref_entropy parse_json ref_pdfkit
           ref_packer ref_sanitizeHtml ref_allowedTags ref_allowedAttributes
           (js "[1]") (JArr [JNum (js "1")]) [] [] ref_world).
  - discriminate.
  - vm_compute. reflexivity.
  - discriminate.
  - reflexivity.
Defined.

(** The arguments of the CSV call hold the three required fields of
    [create_document]. *)
Lemma csv_arguments_carry_the_required_fields :
  Forall (fun k => exists s, field k ref_csv_input = Some (JStr s) /\ s <> [])
    [js "filename"; js "type"; js "content"].
Proof.
  destruct getFunctionTools as [|artifact_tool [|document_tool rest]] eqn:E;
    try discriminate E.
  injection E as _ Hdoc _.
  destruct (validated_arguments_carry_the_declared_fields document_tool
              (JObj ref_csv_input) ref_csv_input) as (_ & Hrequired & _).
  - rewrite <- Hdoc. right. left. reflexivity.
  - rewrite <- Hdoc. vm_compute. reflexivity.
  - rewrite <- Hdoc in Hrequired. exact Hrequired.
Defined.

(** The reply that asks for a CSV: handling it gives one output, for
    the call of that reply, and what it adds can be fetched. *)
Lemma csv_call_only_adds_a_file :
  exists outs artifacts files w' newFiles,
    handleToolCalls ref_cwd ref_entropy parse_json ref_zod_message ref_pdfkit ref_packer
      ref_sanitizeHtml ref_allowedTags ref_allowedAttributes
      (mkResponse (js "resp_1") (Some [ref_csv_call])) [] [] ref_world
    = Returned (outs, artifacts, files) w'
    /\ files = newFiles
    /\ map to_call_id outs = [js "call_1"]
    /\ sent w' = []
    /\ Forall (downloadable ref_cwd w') newFiles.
Proof.
  assert (E : exists outs artifacts files w',
             handleToolCalls ref_cwd ref_entropy parse_json ref_zod_message ref_pdfkit
               ref_packer ref_sanitizeHtml ref_allowedTags ref_allowedAttributes
               (mkResponse (js "resp_1") (Some [ref_csv_call])) [] [] ref_world
             = Returned (outs, artifacts, files) w')
    by (eexists _, _, _, _; vm_compute; reflexivity).
  destruct E as (outs & artifacts & files & w' & E).
  destruct (handleToolCalls_only_adds _ _ _ _ _ _ _ _ _ _ _ _ _ _ _ _ _ E)
    as (newArtifacts & newFiles & _ & Hfiles & Hids & _ & _ & _ & Hsent & Hfetch).
  exists outs, artifacts, files, w', newFiles.
  split; [exact E|]. split; [exact Hfiles|]. split; [exact Hids|].
  split; [exact Hsent|exact Hfetch].
Defined.

(** A reply without tool call: the only identifier drawn is that of
    the message. *)
Lemma plain_reply_draws_one_identifier :
  exists message w',
    POST ref_cwd ref_entropy (scripted [ref_final_reply]) (js "gpt-4.1")
      (Some (js "key")) (Some (js "https://example.openai.azure.com"))
      (js "2025-01-01T00:00:00.000Z") parse_json ref_zod_message ref_pdfkit ref_packer
      ref_sanitizeHtml ref_allowedTags ref_allowedAttributes 0 (BodyValid (ref_body None))
      ref_world
    = Some (ChatOk message, w')
    /\ cm_id message = uuid_string (ref_entropy 0)
    /\ cm_generatedFiles message = [].
Proof.
  assert (E : exists message w',
             POST ref_cwd ref_entropy (scripted [ref_final_reply]) (js "gpt-4.1")
               (Some (js "key")) (Some (js "https://example.openai.azure.com"))
               (js "2025-01-01T00:00:00.000Z") parse_json ref_zod_message ref_pdfkit
               ref_packer ref_sanitizeHtml ref_allowedTags ref_allowedAttributes 0
               (BodyValid (ref_body None)) ref_world
             = Some (ChatOk message, w')
             /\ cm_artifacts message = [] /\ cm_generatedFiles message = [])
    by (eexists _, _; split; [vm_compute; reflexivity|split; reflexivity]).
  destruct E as (message & w' & E & Harts & Hfiles). exists message, w'.
  split; [exact E|].
  destruct (chat_reply_lists_what_was_created _ _ _ _ _ _ _ _ _ _ _ _ _ _ _ _ _ _ _ E)
    as (_ & _ & Hdrawn & Hid & _).
  split; [|exact Hfiles].
  rewrite Hid, Hdrawn, Harts, Hfiles. reflexivity.
Defined.

(** A call to an undeclared function and then a text: the second
    request continues the first reply. *)
Lemma weather_requests_form_one_thread :
  exists o input conts,
    runResponsesCall ref_cwd ref_entropy (scripted [ref_first_reply; ref_final_reply])
      (js "gpt-4.1") parse_json ref_zod_message ref_pdfkit ref_packer ref_sanitizeHtml
      ref_allowedTags ref_allowedAttributes 1 (ref_body None) ref_world = Some o
    /\ sent (world_of o) =
       CreateRequest (js "gpt-4.1") input (js "0.4") getFunctionTools :: conts
    /\ threaded (scripted [ref_first_reply; ref_final_reply]) (js "gpt-4.1")
         [first_request (js "gpt-4.1") (ref_body None) input] conts.
Proof.
  assert (E : exists o,
             runResponsesCall ref_cwd ref_entropy
               (scripted [ref_first_reply; ref_final_reply]) (js "gpt-4.1")
               parse_json ref_zod_message ref_pdfkit ref_packer ref_sanitizeHtml
               ref_allowedTags ref_allowedAttributes 1 (ref_body None) ref_world
             = Some o)
    by (eexists; vm_compute; reflexivity).
  destruct E as (o & E).
  destruct (continuations_answer_the_previous_reply _ _ _ _ _ _ _ _ _ _ _ _ _ _ _ E)
    as (input & conts & _ & Hsent & Hthreaded).
  exists o, input, conts. split; [exact E|]. split; [exact Hsent|exact Hthreaded].
Defined.

(** The backend fails after the CSV was written: status 500, and the
    file is in the store. *)
Lemma failed_exchange_leaves_the_csv :
  exists w',
    POST ref_cwd ref_entropy ref_failing_backend (js "gpt-4.1") (Some (js "key"))
      (Some (js "https://example.openai.azure.com")) (js "2025-01-01T00:00:00.000Z")
      parse_json ref_zod_message ref_pdfkit ref_packer ref_sanitizeHtml
      ref_allowedTags ref_allowedAttributes 1 (BodyValid (ref_body None)) ref_world
    = Some (ChatServerError (js "Failed to generate a response from Azure OpenAI.")
              (Some (js "socket hang up")), w')
    /\ fs w' !! (js "/app/generated/" ++ ref_csv_stored_name) = Some (js "1,2,3").
Proof.
  destruct (backend_failure_leaves_the_document_behind ref_cwd ref_entropy
              ref_failing_backend (js "gpt-4.1") (Some (js "key"))
              (Some (js "https://example.openai.azure.com"))
              (js "2025-01-01T00:00:00.000Z") parse_json ref_zod_message ref_pdfkit
              ref_packer ref_sanitizeHtml ref_allowedTags ref_allowedAttributes 0
              (ref_body None) ref_world
              [mkAzureMessage user [input_text (js "Make me a CSV of 1,2,3")]]
              (mkResponse (js "resp_1") (Some [ref_csv_call])) (js "call_1")
              (jsq "{'filename':'numbers','type':'csv','content':'1,2,3'}")
              ref_csv_input (js "socket hang up"))
    as (w' & Hpost & Hfile & _).
  - reflexivity.
  - reflexivity.
  - reflexivity.
  - reflexivity.
  - reflexivity.
  - discriminate.
  - vm_compute. reflexivity.
  - intros outs. reflexivity.
  - exists w'. split; [exact Hpost|].
    etransitivity; [|exact Hfile]. f_equal.
Defined.

(** A body that cannot be read is answered 400. *)
Lemma unreadable_body_is_a_bad_request :
  exists r,
    POST ref_cwd ref_entropy ref_csv_backend (js "gpt-4.1") (Some (js "key"))
      (Some (js "https://example.openai.azure.com")) (js "2025-01-01T00:00:00.000Z")
      parse_json ref_zod_message ref_pdfkit ref_packer ref_sanitizeHtml
      ref_allowedTags ref_allowedAttributes 1 BodyUnparsable ref_world
    = Some (r, ref_world)
    /\ chat_status r = 400.
Proof.
  destruct (chat_rejects_before_contacting_the_backend ref_cwd ref_entropy
              ref_csv_backend (js "gpt-4.1") (Some (js "key"))
              (Some (js "https://example.openai.azure.com"))
              (js "2025-01-01T00:00:00.000Z") parse_json ref_zod_message ref_pdfkit
              ref_packer ref_sanitizeHtml ref_allowedTags ref_allowedAttributes 1
              BodyUnparsable ref_world)
    as (r & Hpost & Hstatus & _).
  - right. right. intros payload. discriminate.
  - exists r. split; [exact Hpost|exact Hstatus].
Defined.

(** A body without any message is answered 400. *)
Lemma empty_conversation_is_a_bad_request :
  POST ref_cwd ref_entropy ref_csv_backend (js "gpt-4.1") (Some (js "key"))
    (Some (js "https://example.openai.azure.com")) (js "2025-01-01T00:00:00.000Z")
    parse_json ref_zod_message ref_pdfkit ref_packer ref_sanitizeHtml
    ref_allowedTags ref_allowedAttributes 1
    (request_body ref_zod_number ref_zod_flatten
       (Some (JObj [(js "messages", JArr [])]))) ref_world
  = Some (ChatBadRequest (js "Invalid request payload.")
            (Some (ref_zod_flatten (JObj [(js "messages", JArr [])]))), ref_world).
Proof.
  exact (only_well_formed_conversations_pass ref_cwd ref_entropy ref_csv_backend
           (js "gpt-4.1") (Some (js "key")) (Some (js "https://example.openai.azure.com"))
           (js "2025-01-01T00:00:00.000Z") parse_json ref_zod_message ref_pdfkit
           ref_packer ref_sanitizeHtml ref_allowedTags ref_allowedAttributes
           ref_zod_number ref_zod_flatten 1 (JObj [(js "messages", JArr [])]) ref_world
           eq_refl eq_refl).
Defined.

(** Two submits on the page.  The backend answers the first with a
    response that holds no text, so the reply is a message without text;
    the second submit is refused by the request schema, and the page
    shows its error. *)
Lemma silent_reply_blocks_the_next_submit :
  exists fetch st1,
    (forall payload,
        fetch payload =
        match
          POST ref_cwd ref_entropy ref_silent_backend (js "gpt-4.1") (Some (js "key"))
            (Some (js "https://example.openai.azure.com"))
            (js "2025-01-01T00:00:00.000Z") parse_json ref_zod_message ref_pdfkit
            ref_packer ref_sanitizeHtml ref_allowedTags ref_allowedAttributes 0
            (request_body ref_zod_number ref_zod_flatten (Some payload)) ref_world
        with
        | Some reply => answered reply
        | None => FetchFailed
        end)
    /\ st1 = handleSubmit fetch (js "m1") (js "2025-01-01T00:00:01.000Z") ref_page
    /\ map (fun m => (pm_role m, pm_text m)) (ps_messages st1) =
       [(system, js "You are Azure Artifact Studio."); (user, js "hi"); (assistant, [])]
    /\ ps_error st1 = None
    /\ handleSubmit fetch (js "m2") (js "2025-01-01T00:00:02.000Z")
         (typed (js " and now? ") st1) =
       mkPageState
         (ps_messages st1 ++
          [mkPageMessage (js "m2") user (js "and now?") (js "2025-01-01T00:00:02.000Z")
             (Some []) None None])
         [] [] false false
         (Some (js "Something went wrong generating a response. Please try again.")).
Proof.
  eexists (fun payload =>
             match
               POST ref_cwd ref_entropy ref_silent_backend (js "gpt-4.1")
                 (Some (js "key")) (Some (js "https://example.openai.azure.com"))
                 (js "2025-01-01T00:00:00.000Z") parse_json ref_zod_message ref_pdfkit
                 ref_packer ref_sanitizeHtml ref_allowedTags ref_allowedAttributes 0
                 (request_body ref_zod_number ref_zod_flatten (Some payload)) ref_world
             with
             | Some reply => answered reply
             | None => FetchFailed
             end), _.
  split; [intros payload; reflexivity|]. split; [reflexivity|].
  split; [vm_compute; reflexivity|]. split; [vm_compute; reflexivity|].
  match goal with
  | |- handleSubmit ?fetch ?id ?createdAt ?st = _ =>
      destruct (empty_reply_blocks_the_conversation ref_cwd ref_entropy
                  ref_silent_backend (js "gpt-4.1") (Some (js "key"))
                  (Some (js "https://example.openai.azure.com"))
                  (js "2025-01-01T00:00:00.000Z") parse_json ref_zod_message ref_pdfkit
                  ref_packer ref_sanitizeHtml ref_allowedTags ref_allowedAttributes
                  ref_zod_number ref_zod_flatten 0 fetch id createdAt st
                  (mkPageMessage (uuid_string (ref_entropy 0)) assistant []
                     (js "2025-01-01T00:00:00.000Z") None (Some []) (Some []))
                  ref_world)
        as [_ Hsubmit]
  end.
  - reflexivity.
  - reflexivity.
  - intros payload reply H. cbv beta. rewrite H. reflexivity.
  - apply (nth_error_In _ 2). vm_compute. reflexivity.
  - reflexivity.
  - vm_compute. discriminate.
  - reflexivity.
  - reflexivity.
  - etransitivity; [exact Hsubmit|]. vm_compute. reflexivity.
Defined.

(** An uploaded photograph cannot be fetched through the download
    route. *)
Lemma uploads_are_out_of_reach_of_the_download_route :
  is_Some (fs ref_uploads_world !! js "/app/public/uploads/photo.png")
  /\ GET ref_cwd (js "../public/uploads/photo.png") ref_uploads_world =
     Returned (mkFileResponse 400 (TextBody (js "Invalid file path")) [])
       ref_uploads_world.
Proof.
  split; [vm_compute; eexists; reflexivity|].
  exact (proj2 (step_into_another_directory_is_refused ref_cwd [js "app"] (js "public")
                  [js "uploads"; js "photo.png"] ref_uploads_world eq_refl
                  ltac:(repeat constructor) eq_refl eq_refl ltac:(repeat constructor))).
Defined.

(** A question about a picture is read by the route as it was sent. *)
Lemma picture_question_is_read_back :
  requestSchema ref_zod_number (chat_payload ref_conversation) =
  Some (mkChatRequestPayload
          [mkRequestMessage (js "m0") system (js "You are Azure Artifact Studio.") None;
           mkRequestMessage (js "m1") user (js "What is on this picture?")
             (Some [ref_attachment])]
          None).
Proof.
  apply (page_payload_is_read_back ref_zod_number ref_conversation).
  - discriminate.
  - repeat constructor; discriminate.
  - repeat constructor.
Defined.
